(** * Ant colony simulation: a shallow embedding of [rng.py] and [simulation.py]

    Python floats are read as real numbers (the Standard Library's [R]):
    every arithmetic operation of the source is the exact operation on
    reals, and rounding is left out.  Where a property depends on
    rounding, the code is embedded a second time with the rounding in it:
    the generator in binary64 ([DoubleRNG]) and the field's decay with an
    integrator that is only accurate to a tolerance ([step_within]).
    Python integers are [Z].  A method that mutates [self] becomes a
    function from the old object to the new one; a method that can raise
    returns a [res]. *)

From Stdlib Require Import ZArith List Bool Reals Lra Lia.
From Stdlib Require Floats.PrimFloat Numbers.Cyclic.Int63.Uint63.
Import ListNotations.

Set Implicit Arguments.

(** ** Python runtime: exceptions and numeric conversions *)

Inductive exn : Type :=
| IndexError
| TypeError
| ValueError.

Inductive res (A : Type) : Type :=
| Ok (a : A)
| Raise (e : exn).

Arguments Ok {A} a.
Arguments Raise {A} e.

Definition res_bind {A B : Type} (r : res A) (k : A -> res B) : res B :=
  match r with
  | Ok a => k a
  | Raise e => Raise e
  end.

Definition returns {A : Type} (r : res A) : Prop :=
  exists a, r = Ok a.

Declare Scope res_scope.
Delimit Scope res_scope with res.
Notation "x <- r ;; k" := (res_bind r (fun x => k))
  (at level 61, r at next level, right associativity) : res_scope.
Notation "' p <- r ;; k" := (res_bind r (fun x => match x with p => k end))
  (at level 61, p pattern, r at next level, right associativity) : res_scope.

(** [int(r)] on a float: truncation towards zero. *)
Definition py_int (r : R) : Z :=
  if Rle_dec 0 r then Zfloor r else Zceil r.

(** [math.log] raises [ValueError] outside its domain. *)
Definition math_log (x : R) : res R :=
  if Rlt_dec 0 x then Ok (ln x) else Raise ValueError.

(** [math.sqrt] raises [ValueError] on a negative argument. *)
Definition math_sqrt (x : R) : res R :=
  if Rle_dec 0 x then Ok (sqrt x) else Raise ValueError.

(** ** rng.py: the linear congruential generator *)

Module ManualRNG.

Record t : Type := mk {
  m : Z;      (* modulus *)
  a : Z;      (* multiplier *)
  c : Z;      (* increment *)
  state : Z
}.

(** [__init__]: [now] is the reading of [time.time()], used only when no
    seed is given. *)
Definition init (seed : option Z) (now : R) : t :=
  let seed :=
    match seed with
    | Some s => s
    | None => (py_int (now * 1000) mod 2147483647)%Z
    end in
  {| m := 2147483647; a := 16807; c := 0; state := seed |}.

(** The methods over the reals: the state update is the integer
    arithmetic of the code, the float operations are the exact ones.
    [DoubleRNG] below has [random] and [uniform] with their rounding. *)
Definition random (g : t) : R * t :=
  let s := ((a g * state g + c g) mod m g)%Z in
  ((IZR s / IZR (m g))%R, {| m := m g; a := a g; c := c g; state := s |}).

Definition uniform (lo hi : R) (g : t) : R * t :=
  let (u, g) := random g in
  ((lo + (hi - lo) * u)%R, g).

Definition randint (lo hi : Z) (g : t) : Z * t :=
  let (u, g) := random g in
  ((lo + py_int (u * IZR (hi - lo + 1)))%Z, g).

(** The argument handed to [math.log] by [normal]: the first draw. *)
Definition normal_log_arg (g : t) : R := fst (random g).

Definition normal (mean std : R) (g : t) : res (R * t) :=
  let (u1, g) := random g in
  let (u2, g) := random g in
  (l <- math_log u1 ;;
   r <- math_sqrt (-2.0 * l) ;;
   let z0 := (r * cos (2 * PI * u2))%R in
   Ok ((mean + std * z0)%R, g))%res.

(** The generator after [n] draws of [random]. *)
Fixpoint draws (n : nat) (g : t) : t :=
  match n with
  | O => g
  | S n => draws n (snd (random g))
  end.

(** The constants set by [__init__]; no method changes them. *)
Definition std_constants (g : t) : Prop :=
  m g = 2147483647%Z /\ a g = 16807%Z /\ c g = 0%Z.

End ManualRNG.

(** ** rng.py in binary64

    [random] and [uniform] once more, with Python's float arithmetic:
    every operation rounds to the nearest double.  The state stays an
    integer; [state / m] is the quotient of two integers below [2^53],
    which Python computes as the quotient of the two doubles. *)

Module DoubleRNG.

Definition float_of_int (z : Z) : PrimFloat.float :=
  PrimFloat.of_uint63 (Uint63.of_Z z).

Definition random (g : ManualRNG.t) : PrimFloat.float * ManualRNG.t :=
  let s := ((ManualRNG.a g * ManualRNG.state g + ManualRNG.c g) mod ManualRNG.m g)%Z in
  (PrimFloat.div (float_of_int s) (float_of_int (ManualRNG.m g)),
   {| ManualRNG.m := ManualRNG.m g; ManualRNG.a := ManualRNG.a g;
      ManualRNG.c := ManualRNG.c g; ManualRNG.state := s |}).

Definition uniform (lo hi : PrimFloat.float) (g : ManualRNG.t)
  : PrimFloat.float * ManualRNG.t :=
  let (u, g) := random g in
  (PrimFloat.add lo (PrimFloat.mul (PrimFloat.sub hi lo) u), g).

End DoubleRNG.

(** ** Coordinates as Python values

    The grid methods do arithmetic on whatever number they are handed: an
    [int] or a [float].  A float is finite, infinite or nan. *)

Inductive pyfloat : Type :=
| Finite (r : R)
| Inf (negative : bool)
| Nan.

Inductive pynum : Type :=
| PyInt (z : Z)
| PyFloat (f : pyfloat).

Module Num.

(** [x // 4]: floor division; on floats the quotient is a float, and nan
    for an infinite or nan operand. *)
Definition floordiv4 (x : pynum) : pynum :=
  match x with
  | PyInt z => PyInt (z / 4)
  | PyFloat (Finite r) => PyFloat (Finite (IZR (Zfloor (r / 4))))
  | PyFloat _ => PyFloat Nan
  end.

(** [x + d] for an int [d]. *)
Definition add_int (x : pynum) (d : Z) : pynum :=
  match x with
  | PyInt z => PyInt (z + d)
  | PyFloat (Finite r) => PyFloat (Finite (r + IZR d))
  | PyFloat f => PyFloat f
  end.

(** [lo <= x] and [x < hi] for ints [lo], [hi]; any comparison with nan
    is false. *)
Definition int_le (lo : Z) (x : pynum) : bool :=
  match x with
  | PyInt z => (lo <=? z)%Z
  | PyFloat (Finite r) => if Rle_dec (IZR lo) r then true else false
  | PyFloat (Inf negative) => negb negative
  | PyFloat Nan => false
  end.

Definition lt_int (x : pynum) (hi : Z) : bool :=
  match x with
  | PyInt z => (z <? hi)%Z
  | PyFloat (Finite r) => if Rlt_dec r (IZR hi) then true else false
  | PyFloat (Inf negative) => negative
  | PyFloat Nan => false
  end.

(** [0 <= g < n] *)
Definition in_range (g : pynum) (n : Z) : bool :=
  int_le 0 g && lt_int g n.

(** A number used as an array index or as an argument of [range]: only
    an int is accepted. *)
Definition as_index (x : pynum) : res Z :=
  match x with
  | PyInt z => Ok z
  | PyFloat _ => Raise IndexError
  end.

Definition as_range_arg (x : pynum) : res Z :=
  match x with
  | PyInt z => Ok z
  | PyFloat _ => Raise TypeError
  end.

End Num.

(** [range(lo, hi)] *)
Definition py_range (lo hi : Z) : list Z :=
  map (fun k => (lo + Z.of_nat k)%Z) (seq 0 (Z.to_nat (hi - lo))).

(** A loop whose body may raise. *)
Fixpoint for_each {A S : Type} (l : list A) (body : A -> S -> res S) (s : S) : res S :=
  match l with
  | [] => Ok s
  | i :: l => (s <- body i s ;; for_each l body s)%res
  end.

(** [l[n] = v] on a list, for [n] within the list. *)
Fixpoint list_update {A : Type} (n : nat) (v : A) (l : list A) : list A :=
  match l, n with
  | [], _ => []
  | _ :: l, O => v :: l
  | x :: l, S n => x :: list_update n v l
  end.

(** ** numpy arrays of shape [(rows, cols)], stored row-major *)

Module ndarray.

Record t (A : Type) : Type := mk {
  rows : Z;
  cols : Z;
  data : list A
}.

Arguments mk {A} rows cols data.

(** [np.zeros((rows, cols))], with [zero] the zero of the dtype. *)
Definition zeros {A : Type} (zero : A) (rows cols : Z) : res (t A) :=
  if ((rows <? 0) || (cols <? 0))%Z then Raise ValueError
  else Ok (mk rows cols (repeat zero (Z.to_nat (rows * cols)))).

(** An index along an axis of length [n]: a negative index counts from
    the end; anything outside [-n, n) raises. *)
Definition axis_index (n i : Z) : res Z :=
  if ((0 <=? i) && (i <? n))%Z then Ok i
  else if ((- n <=? i) && (i <? 0))%Z then Ok (i + n)%Z
  else Raise IndexError.

Definition offset {A : Type} (arr : t A) (i j : Z) : res nat :=
  (i <- axis_index (rows arr) i ;;
   j <- axis_index (cols arr) j ;;
   Ok (Z.to_nat (i * cols arr + j)))%res.

(** [arr[i, j]] *)
Definition getitem {A : Type} (arr : t A) (i j : Z) : res A :=
  (k <- offset arr i j ;;
   match nth_error (data arr) k with
   | Some v => Ok v
   | None => Raise IndexError
   end)%res.

(** [arr[i, j] = v] *)
Definition setitem {A : Type} (arr : t A) (i j : Z) (v : A) : res (t A) :=
  (k <- offset arr i j ;;
   if (k <? length (data arr))%nat
   then Ok (mk (rows arr) (cols arr) (list_update k v (data arr)))
   else Raise IndexError)%res.

Definition flatten {A : Type} (arr : t A) : list A := data arr.

(** [y.reshape(arr.shape)] *)
Definition reshape_like {A : Type} (y : list A) (arr : t A) : t A :=
  mk (rows arr) (cols arr) y.

Definition well_formed {A : Type} (arr : t A) : Prop :=
  (0 <= rows arr)%Z /\ (0 <= cols arr)%Z /\
  length (data arr) = Z.to_nat (rows arr * cols arr).

End ndarray.

(** [arr[gy, gx]] and [arr[gy, gx] = v] with Python numbers as indices. *)
Definition index_get {A : Type} (arr : ndarray.t A) (gy gx : pynum) : res A :=
  (i <- Num.as_index gy ;;
   j <- Num.as_index gx ;;
   ndarray.getitem arr i j)%res.

Definition index_set {A : Type} (arr : ndarray.t A) (gy gx : pynum) (v : A)
  : res (ndarray.t A) :=
  (i <- Num.as_index gy ;;
   j <- Num.as_index gx ;;
   ndarray.setitem arr i j v)%res.

(** ** simulation.py: the pheromone map *)

Module Map.

Record t : Type := mk {
  width : Z;
  height : Z;
  max_val : R;
  evaporation_rate : R;
  map_vals : ndarray.t R
}.

(** [__init__]. The cells are reals here; the precision of the array
    ([np.float32] at first) is modelled in [MapF32]. *)
Definition init (grid_width grid_height : Z) (max_val evaporation_rate : R) : res t :=
  (arr <- ndarray.zeros 0%R grid_height grid_width ;;
   Ok (mk grid_width grid_height max_val evaporation_rate arr))%res.

Definition with_map_vals (self : t) (arr : ndarray.t R) : t :=
  mk (width self) (height self) (max_val self) (evaporation_rate self) arr.

(** [0 <= gx < self.width and 0 <= gy < self.height] *)
Definition in_bounds (self : t) (gx gy : pynum) : bool :=
  Num.in_range gx (width self) && Num.in_range gy (height self).

Definition set_value (self : t) (x y : pynum) (val : R) : res t :=
  let gx := Num.floordiv4 x in
  let gy := Num.floordiv4 y in
  if in_bounds self gx gy then
    (cur <- index_get (map_vals self) gy gx ;;
     if Rgt_dec val cur then
       arr <- index_set (map_vals self) gy gx val ;;
       Ok (with_map_vals self arr)
     else Ok self)%res
  else Ok self.

Definition get_value (self : t) (x y : pynum) : res R :=
  let gx := Num.floordiv4 x in
  let gy := Num.floordiv4 y in
  if in_bounds self gx gy then index_get (map_vals self) gy gx
  else Ok (-1)%R.

Definition directions : list (Z * Z) :=
  [(-1, -1); (0, -1); (1, -1); (-1, 0); (1, 0); (-1, 1); (0, 1); (1, 1)]%Z.

Definition get_weighted_direction (self : t) (x y : pynum) : res (R * R) :=
  let gx := Num.floordiv4 x in
  let gy := Num.floordiv4 y in
  ('(sum_dx, sum_dy, total) <-
     for_each directions
       (fun '(dx, dy) '(sum_dx, sum_dy, total) =>
          let nx := Num.add_int gx dx in
          let ny := Num.add_int gy dy in
          if in_bounds self nx ny then
            value <- index_get (map_vals self) ny nx ;;
            Ok (sum_dx + IZR dx * value, sum_dy + IZR dy * value, total + value)%R
          else Ok (sum_dx, sum_dy, total))
       (0, 0, 0)%R ;;
   if Rgt_dec total 0 then Ok (sum_dx / total, sum_dy / total)%R
   else Ok (0, 0)%R)%res.

(** The right-hand side handed to the solver: [dP_dt(t, y) = -k * y],
    on the flattened grid. *)
Definition dP_dt (k : R) (t : R) (y : list R) : list R :=
  map (fun v => (- k * v)%R) y.

(** What [scipy.integrate.ode] computes, rounding and local error left
    out: [y] solves [y' = f(t, y)] from [y(0) = y0]. *)
Definition ode_solution (f : R -> list R -> list R) (y0 : list R)
           (y : R -> list R) : Prop :=
  y 0%R = y0 /\
  (forall t, length (y t) = length y0) /\
  (forall t i, derivable_pt_lim (fun s => nth i (y s) 0%R) t (nth i (f t (y t)) 0%R)).

(** [solver.set_initial_value(y0, 0); solver.integrate(dt); solver.y] *)
Definition integrate (f : R -> list R -> list R) (y0 : list R) (dt : R)
           (y1 : list R) : Prop :=
  exists y, ode_solution f y0 y /\ y dt = y1.

(** [step] as a relation between the map before and after: the solver is
    an external library known by what it computes. *)
Definition step (self : t) (dt : R) (self' : t) : Prop :=
  let k := (- ln (evaporation_rate self))%R in
  let y0 := ndarray.flatten (map_vals self) in
  exists y1, integrate (dP_dt k) y0 dt y1 /\
             self' = with_map_vals self (ndarray.reshape_like y1 (map_vals self)).

(** The closed form of the decay, for comparison with [step]. *)
Definition decay (self : t) (dt : R) : t :=
  let k := (- ln (evaporation_rate self))%R in
  with_map_vals self
    (ndarray.reshape_like
       (map (fun v => (v * exp (- k * dt))%R) (ndarray.flatten (map_vals self)))
       (map_vals self)).

Definition well_formed (self : t) : Prop :=
  ndarray.well_formed (map_vals self) /\
  ndarray.rows (map_vals self) = height self /\
  ndarray.cols (map_vals self) = width self.

End Map.

(** ** simulation.py: the food grid *)

Module Food.

Record t : Type := mk {
  width : Z;
  height : Z;
  map_vals : ndarray.t bool
}.

Definition init (grid_width grid_height : Z) : res t :=
  (arr <- ndarray.zeros false grid_height grid_width ;;
   Ok (mk grid_width grid_height arr))%res.

Definition with_map_vals (self : t) (arr : ndarray.t bool) : t :=
  mk (width self) (height self) arr.

Definition in_bounds (self : t) (gx gy : pynum) : bool :=
  Num.in_range gx (width self) && Num.in_range gy (height self).

Definition add_food (self : t) (x y : pynum) : res t :=
  let gx := Num.floordiv4 x in
  let gy := Num.floordiv4 y in
  (i0 <- Num.as_range_arg gy ;;
   arr <- for_each (py_range i0 (Z.min (i0 + 5) (height self)))
            (fun i arr =>
               j0 <- Num.as_range_arg gx ;;
               for_each (py_range j0 (Z.min (j0 + 5) (width self)))
                 (fun j arr => ndarray.setitem arr i j true) arr)
            (map_vals self) ;;
   Ok (with_map_vals self arr))%res.

Definition bite (self : t) (x y : pynum) : res t :=
  let gx := Num.floordiv4 x in
  let gy := Num.floordiv4 y in
  if in_bounds self gx gy then
    (arr <- index_set (map_vals self) gy gx false ;;
     Ok (with_map_vals self arr))%res
  else Ok self.

Definition get_value (self : t) (x y : pynum) : res bool :=
  let gx := Num.floordiv4 x in
  let gy := Num.floordiv4 y in
  if in_bounds self gx gy then index_get (map_vals self) gy gx
  else Ok false.

Definition well_formed (self : t) : Prop :=
  ndarray.well_formed (map_vals self) /\
  ndarray.rows (map_vals self) = height self /\
  ndarray.cols (map_vals self) = width self.

End Food.

(** ** Shared mutable objects

    [simulation.py] keeps one module-level generator [rng]; every ant holds
    references to the same two pheromone maps.  Code that touches them is
    a state transformer over [Shared] that may raise. *)

Record Shared : Type := mkShared {
  rng : ManualRNG.t;
  home_map : Map.t;
  food_map : Map.t
}.

Definition M (A : Type) : Type := Shared -> res (A * Shared).

Definition ret {A : Type} (a : A) : M A := fun s => Ok (a, s).

Definition bind {A B : Type} (c : M A) (k : A -> M B) : M B :=
  fun s => match c s with
           | Ok (a, s) => k a s
           | Raise e => Raise e
           end.

Declare Scope M_scope.
Delimit Scope M_scope with M.
Notation "x <- c ;; k" := (bind c (fun x => k))
  (at level 61, c at next level, right associativity) : M_scope.
Notation "' p <- c ;; k" := (bind c (fun x => match x with p => k end))
  (at level 61, p pattern, c at next level, right associativity) : M_scope.

Definition lift_res {A : Type} (r : res A) : M A :=
  fun s => match r with
           | Ok v => Ok (v, s)
           | Raise e => Raise e
           end.

(** A draw from the module-level generator. *)
Definition with_rng {A : Type} (draw : ManualRNG.t -> A * ManualRNG.t) : M A :=
  fun s => let (v, g) := draw (rng s) in
           Ok (v, mkShared g (home_map s) (food_map s)).

Definition with_rng_res {A : Type} (draw : ManualRNG.t -> res (A * ManualRNG.t)) : M A :=
  fun s => match draw (rng s) with
           | Ok (v, g) => Ok (v, mkShared g (home_map s) (food_map s))
           | Raise e => Raise e
           end.

Definition rng_random : M R := with_rng ManualRNG.random.
Definition rng_uniform (lo hi : R) : M R := with_rng (ManualRNG.uniform lo hi).
Definition rng_randint (lo hi : Z) : M Z := with_rng (ManualRNG.randint lo hi).
Definition rng_normal (mean std : R) : M R := with_rng_res (ManualRNG.normal mean std).

(** A read of, or a write through, one of the two map references. *)
Definition home_map_read {A : Type} (f : Map.t -> res A) : M A :=
  fun s => match f (home_map s) with
           | Ok v => Ok (v, s)
           | Raise e => Raise e
           end.

Definition food_map_read {A : Type} (f : Map.t -> res A) : M A :=
  fun s => match f (food_map s) with
           | Ok v => Ok (v, s)
           | Raise e => Raise e
           end.

Definition home_map_write (f : Map.t -> res Map.t) : M unit :=
  fun s => match f (home_map s) with
           | Ok h => Ok (tt, mkShared (rng s) h (food_map s))
           | Raise e => Raise e
           end.

Definition food_map_write (f : Map.t -> res Map.t) : M unit :=
  fun s => match f (food_map s) with
           | Ok h => Ok (tt, mkShared (rng s) (home_map s) h)
           | Raise e => Raise e
           end.

(** A loop with an accumulator over shared state. *)
Fixpoint for_M {A B : Type} (l : list A) (body : A -> B -> M B) (b : B) : M B :=
  match l with
  | [] => ret b
  | i :: l => (b <- body i b ;; for_M l body b)%M
  end.

(** ** simulation.py: one ant *)

Module Ant.

Record t : Type := mk {
  dx : R;
  dy : R;
  x : R;
  y : R;
  int_x : Z;
  int_y : Z;
  last_x : Z;
  last_y : Z;
  has_food : bool;
  home_pher : R;
  food_pher : R;
  use_rate : R;
  wander_chance : R;
  bored : Z
}.

Definition set_dx (v : R) (s : t) : t :=
  mk v (dy s) (x s) (y s) (int_x s) (int_y s) (last_x s) (last_y s)
     (has_food s) (home_pher s) (food_pher s) (use_rate s) (wander_chance s) (bored s).
Definition set_dy (v : R) (s : t) : t :=
  mk (dx s) v (x s) (y s) (int_x s) (int_y s) (last_x s) (last_y s)
     (has_food s) (home_pher s) (food_pher s) (use_rate s) (wander_chance s) (bored s).
Definition set_x (v : R) (s : t) : t :=
  mk (dx s) (dy s) v (y s) (int_x s) (int_y s) (last_x s) (last_y s)
     (has_food s) (home_pher s) (food_pher s) (use_rate s) (wander_chance s) (bored s).
Definition set_y (v : R) (s : t) : t :=
  mk (dx s) (dy s) (x s) v (int_x s) (int_y s) (last_x s) (last_y s)
     (has_food s) (home_pher s) (food_pher s) (use_rate s) (wander_chance s) (bored s).
Definition set_int_x (v : Z) (s : t) : t :=
  mk (dx s) (dy s) (x s) (y s) v (int_y s) (last_x s) (last_y s)
     (has_food s) (home_pher s) (food_pher s) (use_rate s) (wander_chance s) (bored s).
Definition set_int_y (v : Z) (s : t) : t :=
  mk (dx s) (dy s) (x s) (y s) (int_x s) v (last_x s) (last_y s)
     (has_food s) (home_pher s) (food_pher s) (use_rate s) (wander_chance s) (bored s).
Definition set_last_x (v : Z) (s : t) : t :=
  mk (dx s) (dy s) (x s) (y s) (int_x s) (int_y s) v (last_y s)
     (has_food s) (home_pher s) (food_pher s) (use_rate s) (wander_chance s) (bored s).
Definition set_last_y (v : Z) (s : t) : t :=
  mk (dx s) (dy s) (x s) (y s) (int_x s) (int_y s) (last_x s) v
     (has_food s) (home_pher s) (food_pher s) (use_rate s) (wander_chance s) (bored s).
Definition set_has_food (v : bool) (s : t) : t :=
  mk (dx s) (dy s) (x s) (y s) (int_x s) (int_y s) (last_x s) (last_y s)
     v (home_pher s) (food_pher s) (use_rate s) (wander_chance s) (bored s).
Definition set_home_pher (v : R) (s : t) : t :=
  mk (dx s) (dy s) (x s) (y s) (int_x s) (int_y s) (last_x s) (last_y s)
     (has_food s) v (food_pher s) (use_rate s) (wander_chance s) (bored s).
Definition set_food_pher (v : R) (s : t) : t :=
  mk (dx s) (dy s) (x s) (y s) (int_x s) (int_y s) (last_x s) (last_y s)
     (has_food s) (home_pher s) v (use_rate s) (wander_chance s) (bored s).
Definition set_bored (v : Z) (s : t) : t :=
  mk (dx s) (dy s) (x s) (y s) (int_x s) (int_y s) (last_x s) (last_y s)
     (has_food s) (home_pher s) (food_pher s) (use_rate s) (wander_chance s) v.

Local Open Scope R_scope.

(** [__init__]: the two velocity components are drawn first.
    [float(x)] is read as [IZR x], which is what it returns for an
    integer of absolute value at most [2^53]. *)
Definition init (x0 y0 : Z) : M t :=
  (vx <- rng_normal 0 1 ;;
   vy <- rng_normal 0 1 ;;
   ret (mk vx vy (IZR x0) (IZR y0) x0 y0 x0 y0 false 100 100 0.995 0.92 0%Z))%M.

(** [step], lines 128-133: Gaussian noise on the velocity, boredom. *)
Definition perturb (dt : R) (self : t) : M t :=
  (u <- rng_random ;;
   self <- (if Rgt_dec u (wander_chance self)
            then n <- rng_normal 0 1 ;; ret (set_dx (dx self + n * dt) self)
            else ret self) ;;
   u <- rng_random ;;
   self <- (if Rgt_dec u (wander_chance self)
            then n <- rng_normal 0 1 ;; ret (set_dy (dy self + n * dt) self)
            else ret self) ;;
   u <- rng_random ;;
   if Rgt_dec u 0.99
   then k <- rng_randint 0 15 ;; ret (set_bored (bored self + k)%Z self)
   else ret self)%M.

(** [step], lines 134-144: a bored ant waits, another follows the map
    that matches what it is looking for. *)
Definition steer (dt : R) (self : t) : M t :=
  if (bored self >? 0)%Z then ret (set_bored (bored self - 1)%Z self)
  else
    (direction <-
       (if has_food self
        then home_map_read
               (fun h => Map.get_weighted_direction h (PyInt (int_x self)) (PyInt (int_y self)))
        else food_map_read
               (fun h => Map.get_weighted_direction h (PyInt (int_x self)) (PyInt (int_y self)))) ;;
     u <- rng_uniform 0 1.5 ;;
     let self := set_dx (dx self + fst direction * u * dt) self in
     u <- rng_uniform 0 1.5 ;;
     ret (set_dy (dy self + snd direction * u * dt) self))%M.

(** [step], lines 147-154: boundary conditions. *)
Definition boundary (self : t) : t :=
  let self := if Rlt_dec (x self) 2 then set_dx 1 self else self in
  let self := if Rgt_dec (x self) (600 - 2) then set_dx (-1) self else self in
  let self := if Rlt_dec (y self) 2 then set_dy 1 self else self in
  if Rgt_dec (y self) (400 - 2) then set_dy (-1) self else self.

(** [step], lines 156-157. *)
Definition clamp (self : t) : t :=
  let self := set_dx (Rmax (Rmin (dx self) 1) (-1)) self in
  set_dy (Rmax (Rmin (dy self) 1) (-1)) self.

(** [step], lines 160-163: update position (the sums are exact here). *)
Definition move (dt : R) (self : t) : t :=
  let self := set_x (x self + dx self * dt) self in
  let self := set_y (y self + dy self * dt) self in
  let self := set_int_x (py_int (x self)) self in
  set_int_y (py_int (y self)) self.

(** The test of line 166. *)
Definition position_changed (self : t) : bool :=
  negb (last_x self =? int_x self)%Z || negb (last_y self =? int_y self)%Z.

(** [step], lines 166-174: deposit pheromones, remember the position. *)
Definition deposit (self : t) : M t :=
  (self <-
     (if position_changed self then
        if has_food self then
          let self := set_food_pher (food_pher self * use_rate self) self in
          _ <- food_map_write
                 (fun h => Map.set_value h (PyInt (int_x self)) (PyInt (int_y self))
                                         (food_pher self)) ;;
          ret self
        else
          let self := set_home_pher (home_pher self * use_rate self) self in
          _ <- home_map_write
                 (fun h => Map.set_value h (PyInt (int_x self)) (PyInt (int_y self))
                                         (home_pher self)) ;;
          ret self
      else ret self) ;;
   let self := set_last_x (int_x self) self in
   ret (set_last_y (int_y self) self))%M.

Definition step (dt : R) (self : t) : M t :=
  (self <- perturb dt self ;;
   self <- steer dt self ;;
   let self := boundary self in
   let self := clamp self in
   let self := move dt self in
   deposit self)%M.

End Ant.

(** ** simulation.py: the colony *)

Module Colony.

Record t : Type := mk {
  ants : list Ant.t;
  x : Z;
  y : Z;
  food_delivered : Z
}.

Definition with_ants (l : list Ant.t) (self : t) : t :=
  mk l (x self) (y self) (food_delivered self).

(** [__init__]: [count] ants, built one after the other. *)
Fixpoint make_ants (x0 y0 : Z) (count : nat) : M (list Ant.t) :=
  match count with
  | O => ret []
  | S count =>
      (ant <- Ant.init x0 y0 ;;
       l <- make_ants x0 y0 count ;;
       ret (ant :: l))%M
  end.

Definition init (x0 y0 count : Z) : M t :=
  (l <- make_ants x0 y0 (Z.to_nat count) ;;
   ret (mk l x0 y0 0))%M.

(** The test of line 189. *)
Definition at_nest (self_x self_y : Z) (ant : Ant.t) : bool :=
  (Z.abs (Ant.int_x ant - self_x) <? 20)%Z && (Z.abs (Ant.int_y ant - self_y) <? 20)%Z.

(** The body of the loop of [update], lines 186-197, for one ant: the
    ant, the food grid and the counter before and after. *)
Definition update_ant (self_x self_y : Z) (dt : R)
           (ant : Ant.t) (food : Food.t) (delivered : Z)
  : M (Ant.t * Food.t * Z) :=
  (ant <- Ant.step dt ant ;;
   if Ant.has_food ant then
     if at_nest self_x self_y ant then
       let ant := Ant.set_has_food false ant in
       let ant := Ant.set_home_pher 100 ant in
       ret (ant, food, (delivered + 1)%Z)
     else ret (ant, food, delivered)
   else
     present <- lift_res (Food.get_value food (PyInt (Ant.int_x ant)) (PyInt (Ant.int_y ant))) ;;
     if (present : bool) then
       let ant := Ant.set_has_food true ant in
       let ant := Ant.set_food_pher 100 ant in
       food <- lift_res (Food.bite food (PyInt (Ant.int_x ant)) (PyInt (Ant.int_y ant))) ;;
       ret (ant, food, delivered)
     else ret (ant, food, delivered))%M.

(** The loop of [update] over the ants, in list order. *)
Fixpoint update_ants (self_x self_y : Z) (dt : R)
         (l : list Ant.t) (food : Food.t) (delivered : Z)
  : M (list Ant.t * Food.t * Z) :=
  match l with
  | [] => ret ([], food, delivered)
  | ant :: l =>
      ('(ant, food, delivered) <- update_ant self_x self_y dt ant food delivered ;;
       '(l, food, delivered) <- update_ants self_x self_y dt l food delivered ;;
       ret (ant :: l, food, delivered))%M
  end.

Definition update (self : t) (food : Food.t) (dt : R) : M (t * Food.t) :=
  ('(l, food, delivered) <-
     update_ants (x self) (y self) dt (ants self) food (food_delivered self) ;;
   ret (mk l (x self) (y self) delivered, food))%M.

Local Open Scope R_scope.

Definition collision_distance : R := 8.

(** [math.hypot] *)
Definition hypot (a b : R) : R := sqrt (a * a + b * b).

(** The body of the two loops of [resolve_collisions], lines 207-232,
    for the pair [(ant1, ant2)]. *)
Definition collide (ant1 ant2 : Ant.t) : M (Ant.t * Ant.t) :=
  let dx := Ant.x ant1 - Ant.x ant2 in
  let dy := Ant.y ant1 - Ant.y ant2 in
  let dist := hypot dx dy in
  if Rlt_dec dist collision_distance then
    ('(normal, dist) <-
       (if Req_EM_T dist 0 then
          angle <- rng_uniform 0 (2 * PI) ;;
          ret ((cos angle, sin angle), 0.1)
        else ret ((dx / dist, dy / dist), dist)) ;;
     let penetration := collision_distance - dist in
     let correction := 0.5 * penetration in
     let ant1 := Ant.set_x (Ant.x ant1 + correction * fst normal) ant1 in
     let ant1 := Ant.set_y (Ant.y ant1 + correction * snd normal) ant1 in
     let ant2 := Ant.set_x (Ant.x ant2 - correction * fst normal) ant2 in
     let ant2 := Ant.set_y (Ant.y ant2 - correction * snd normal) ant2 in
     let rel_vx := Ant.dx ant1 - Ant.dx ant2 in
     let rel_vy := Ant.dy ant1 - Ant.dy ant2 in
     let rel_dot := rel_vx * fst normal + rel_vy * snd normal in
     if Rlt_dec rel_dot 0 then
       let e := 0.5 in
       let impulse := - (1 + e) * rel_dot / 2 in
       let ant1 := Ant.set_dx (Ant.dx ant1 + impulse * fst normal) ant1 in
       let ant1 := Ant.set_dy (Ant.dy ant1 + impulse * snd normal) ant1 in
       let ant2 := Ant.set_dx (Ant.dx ant2 - impulse * fst normal) ant2 in
       let ant2 := Ant.set_dy (Ant.dy ant2 - impulse * snd normal) ant2 in
       ret (ant1, ant2)
     else ret (ant1, ant2))%M
  else ret (ant1, ant2).

(** [self.ants[i]] *)
Definition ant_at (l : list Ant.t) (i : nat) : M Ant.t :=
  match nth_error l i with
  | Some ant => ret ant
  | None => fun _ => Raise IndexError
  end.

(** The ants are objects: what [collide] does to the pair is seen at
    positions [i] and [j] of the list. *)
Definition resolve_pair (i j : nat) (l : list Ant.t) : M (list Ant.t) :=
  (ant1 <- ant_at l i ;;
   ant2 <- ant_at l j ;;
   '(ant1, ant2) <- collide ant1 ant2 ;;
   ret (list_update j ant2 (list_update i ant1 l)))%M.

Definition resolve_collisions (self : t) : M t :=
  let n := length (ants self) in
  (l <- for_M (seq 0 n)
          (fun i l => for_M (seq (i + 1) (n - (i + 1))) (fun j l => resolve_pair i j l) l)
          (ants self) ;;
   ret (with_ants l self))%M.

End Colony.

(** ** main.py: the driver

    [main] builds the maps, the colony and the food grid, then loops: mouse
    clicks add food, and each frame updates the colony, resolves the
    collisions and steps both maps. *)

Module Main.

Record t : Type := mk {
  shared : Shared;
  colony : Colony.t;
  food : Food.t
}.

Inductive call : Type :=
| AdvanceTick (dt : R)
| PlaceFood (x y : pynum).

(** [rng = ManualRNG()] at the top of [simulation.py]: no seed is given,
    [now] is the clock at import time. *)
Definition module_rng (now : R) : ManualRNG.t := ManualRNG.init None now.

(** Lines 27-38 of [main]. *)
Definition setup (now : R) : res t :=
  (pher_home <- Map.init (600 / 4) (400 / 4) 100 0.999 ;;
   pher_food <- Map.init (600 / 4) (400 / 4) 100 0.999 ;;
   '(colony, sh) <- Colony.init (600 / 2) (400 / 2) 100
                      (mkShared (module_rng now) pher_home pher_food) ;;
   food <- Food.init (600 / 4) (400 / 4) ;;
   food <- Food.add_food food (PyInt 400) (PyInt 300) ;;
   food <- Food.add_food food (PyInt 150) (PyInt 250) ;;
   food <- Food.add_food food (PyInt 300) (PyInt 100) ;;
   food <- Food.add_food food (PyInt 500) (PyInt 200) ;;
   Ok (mk sh colony food))%res.

(** [food.add_food(x, y)] on a mouse click. *)
Definition place_food (x y : pynum) (s : t) : res t :=
  (food <- Food.add_food (food s) x y ;;
   Ok (mk (shared s) (colony s) food))%res.

(** [colony.update(food, dt); colony.resolve_collisions()] *)
Definition move_colony (dt : R) (s : t) : res t :=
  ('(colony, food, sh) <- Colony.update (colony s) (food s) dt (shared s) ;;
   '(colony, sh) <- Colony.resolve_collisions colony sh ;;
   Ok (mk sh colony food))%res.

(** [pher_home.step(dt); pher_food.step(dt)] *)
Definition step_maps (dt : R) (s s' : t) : Prop :=
  exists h f,
    Map.step (home_map (shared s)) dt h /\
    Map.step (food_map (shared s)) dt f /\
    s' = mk (mkShared (rng (shared s)) h f) (colony s) (food s).

(** One frame with time step [dt], and its outcome. *)
Definition advance_tick (dt : R) (s : t) (r : res t) : Prop :=
  match move_colony dt s with
  | Ok s1 => exists s2, step_maps dt s1 s2 /\ r = Ok s2
  | Raise e => r = Raise e
  end.

(** A sequence of calls, stopped by the first exception. *)
Fixpoint run (calls : list call) (s : t) (r : res t) : Prop :=
  match calls with
  | [] => r = Ok s
  | AdvanceTick dt :: calls =>
      exists r1, advance_tick dt s r1 /\
                 match r1 with
                 | Ok s1 => run calls s1 r
                 | Raise e => r = Raise e
                 end
  | PlaceFood x y :: calls =>
      match place_food x y s with
      | Ok s1 => run calls s1 r
      | Raise e => r = Raise e
      end
  end.

(** A whole run of the program started at clock reading [now]. *)
Definition run_from (now : R) (calls : list call) (r : res t) : Prop :=
  match setup now with
  | Ok s => run calls s r
  | Raise e => r = Raise e
  end.

End Main.

(** ** Sequences of calls on one map *)

(** [step(dt)] for each [dt] of a list, one after the other, with no write
    in between. *)
Fixpoint steps (dts : list R) (self self' : Map.t) : Prop :=
  match dts with
  | [] => self' = self
  | dt :: dts => exists mid, Map.step self dt mid /\ steps dts mid self'
  end.

Definition total_time (dts : list R) : R := fold_right Rplus 0%R dts.

(** The maps a program can hold: a fresh one, or one obtained from such a
    map by a write or a step. *)
Inductive reachable : Map.t -> Prop :=
| reachable_init (w h : Z) (max_val rate : R) (self : Map.t) :
    Map.init w h max_val rate = Ok self -> reachable self
| reachable_set_value (self self' : Map.t) (x y : pynum) (val : R) :
    reachable self -> Map.set_value self x y val = Ok self' -> reachable self'
| reachable_step (self self' : Map.t) (dt : R) :
    reachable self -> Map.step self dt self' -> reachable self'.

(** ** Bounds safety as a property of one coordinate pair *)

(** None of the six grid operations raises at [(x, y)]. *)
Definition bounds_safe (x y : pynum) : Prop :=
  forall (self : Map.t) (food : Food.t) (val : R),
    Map.well_formed self -> Food.well_formed food ->
    returns (Map.get_value self x y) /\
    returns (Map.set_value self x y val) /\
    returns (Map.get_weighted_direction self x y) /\
    returns (Food.get_value food x y) /\
    returns (Food.bite food x y) /\
    returns (Food.add_food food x y).

(** ** What a step of an ant leaves alone *)

(** Two states of an ant that differ at most in velocity and boredom. *)
Definition same_but_velocity (a b : Ant.t) : Prop :=
  Ant.x a = Ant.x b /\ Ant.y a = Ant.y b /\
  Ant.int_x a = Ant.int_x b /\ Ant.int_y a = Ant.int_y b /\
  Ant.last_x a = Ant.last_x b /\ Ant.last_y a = Ant.last_y b /\
  Ant.has_food a = Ant.has_food b /\
  Ant.home_pher a = Ant.home_pher b /\ Ant.food_pher a = Ant.food_pher b /\
  Ant.use_rate a = Ant.use_rate b /\ Ant.wander_chance a = Ant.wander_chance b.

(** Both velocity components within [-1, 1]. *)
Definition velocity_clamped (a : Ant.t) : Prop :=
  (-1 <= Ant.dx a <= 1)%R /\ (-1 <= Ant.dy a <= 1)%R.

(** ** Delivery events of one [update] *)

(** An ant that carried food before the call and does not after it. *)
Definition delivered (before after : Ant.t) : bool :=
  Ant.has_food before && negb (Ant.has_food after).

(** The number of such ants, position by position. *)
Definition deliveries (before after : list Ant.t) : nat :=
  length (filter (fun p => delivered (fst p) (snd p)) (combine before after)).

(** ** Objects used in the examples *)

(** The generator [ManualRNG(1)]. *)
Definition seed1 : ManualRNG.t := ManualRNG.init (Some 1%Z) 0.

(** A fresh 3 by 3 pheromone map, [Map(3, 3)]. *)
Definition fresh_map : Map.t := Map.mk 3 3 100 0.999 (ndarray.mk 3 3 (repeat 0%R 9)).

(** An empty 3 by 3 food grid, [Food(3, 3)]. *)
Definition no_food : Food.t := Food.mk 3 3 (ndarray.mk 3 3 (repeat false 9)).

(** An ant at [(px, py)] with velocity [(vx, vy)] that stays bored for
    [bored] more ticks; scents and rates as [__init__] sets them. *)
Definition ant_at_rest (px py : Z) (vx vy : R) (carrying : bool) (bored : Z) : Ant.t :=
  Ant.mk vx vy (IZR px) (IZR py) px py px py carrying 100 100 0.995 0.92 bored.

(** ** The deposit condition read on grid cells *)

(** The grid cell of the ant differs from the one it was in at the end of
    the previous step. *)
Definition grid_cell_changed (before after : Ant.t) : Prop :=
  (Ant.last_x before / 4 <> Ant.int_x after / 4)%Z \/
  (Ant.last_y before / 4 <> Ant.int_y after / 4)%Z.

(** A step changes a pheromone map only when the grid cell changed. *)
Definition deposits_only_on_cell_change (dt : R) (self : Ant.t) (s : Shared) : Prop :=
  forall self' s',
    Ant.step dt self s = Ok (self', s') ->
    home_map s' <> home_map s \/ food_map s' <> food_map s ->
    grid_cell_changed self self'.

(** A step that changes the home map leaves there, at the position of the
    ant, the home scent the ant had when the step began. *)
Definition deposits_scent_before_decay (dt : R) (self : Ant.t) (s : Shared) : Prop :=
  forall self' s',
    Ant.step dt self s = Ok (self', s') ->
    home_map s' <> home_map s ->
    Map.get_value (home_map s') (PyInt (Ant.int_x self')) (PyInt (Ant.int_y self'))
    = Ok (Ant.home_pher self).

(** ** Shared state from which nothing raises *)

(** The generator carries the constants of [__init__] and a state in
    [1, m), and both maps are well formed. *)
Definition shared_ok (s : Shared) : Prop :=
  ManualRNG.std_constants (rng s) /\
  (1 <= ManualRNG.state (rng s) < 2147483647)%Z /\
  Map.well_formed (home_map s) /\ Map.well_formed (food_map s).

(** [c] returns from [s], in a state that is good again, with a result
    that satisfies [Q]. *)
Definition total {A : Type} (c : M A) (s : Shared) (Q : A -> Prop) : Prop :=
  exists a s', c s = Ok (a, s') /\ shared_ok s' /\ Q a.

(** ** Calls a driver makes *)

(** A tick, or food placed at integer coordinates that are not negative
    (mouse positions inside the window). *)
Definition valid_call (c : Main.call) : Prop :=
  match c with
  | Main.AdvanceTick _ => True
  | Main.PlaceFood (PyInt x) (PyInt y) => (0 <= x)%Z /\ (0 <= y)%Z
  | Main.PlaceFood _ _ => False
  end.

(** A state of the program from which a frame cannot raise. *)
Definition state_ok (s : Main.t) : Prop :=
  shared_ok (Main.shared s) /\ Food.well_formed (Main.food s).

(** ** Quantities the driver reads off the state *)

(** [np.sum(food.map_vals)]: the number of cells that hold food. *)
Definition food_cells (food : Food.t) : nat :=
  length (filter (fun b : bool => b) (ndarray.data (Food.map_vals food))).

(** The number of ants that carry food. *)
Definition carrying (l : list Ant.t) : nat :=
  length (filter Ant.has_food l).

(** The end test of [main], line 77:
    [np.sum(food.map_vals) == 0 and all(not ant.has_food for ant in colony.ants)]. *)
Definition finished (s : Main.t) : bool :=
  (food_cells (Main.food s) =? 0)%nat
  && forallb (fun ant => negb (Ant.has_food ant)) (Colony.ants (Main.colony s)).

(** ** simulation.py: the colour of a cell in [render_pheromones] *)

Module Render.

(** [home_val > 0 or food_val > 0], line 253. *)
Definition painted (home_val food_val : R) : bool :=
  if Rgt_dec home_val 0 then true
  else if Rgt_dec food_val 0 then true else false.

(** Lines 251-267: [None] for a cell that is skipped, else the three
    channels handed to [pygame.draw.rect]. *)
Definition pheromone_color (home_val food_val max_val : R) : option (Z * Z * Z) :=
  if painted home_val food_val then
    let home_alpha := (home_val / max_val * 255)%R in
    let food_alpha := (food_val / max_val * 255)%R in
    let pixel_r := py_int (80 * (home_alpha / 255) + 160 * (1 - home_alpha / 255)) in
    let pixel_g := py_int (70 * (home_alpha / 255) + 82 * (1 - home_alpha / 255)) in
    let pixel_b := py_int (60 * (home_alpha / 255) + 45 * (1 - home_alpha / 255)) in
    let pixel_r := py_int (255 * (food_alpha / 255) + IZR pixel_r * (1 - food_alpha / 255)) in
    let pixel_g := py_int (255 * (food_alpha / 255) + IZR pixel_g * (1 - food_alpha / 255)) in
    let pixel_b := py_int (255 * (food_alpha / 255) + IZR pixel_b * (1 - food_alpha / 255)) in
    Some (pixel_r, pixel_g, pixel_b)
  else None.

(** One call of [pygame.draw.rect]: the colour, then the rectangle
    [(left, top, width, height)]. *)
Record rect : Type := mk_rect {
  color : Z * Z * Z;
  left : Z;
  top : Z;
  rect_width : Z;
  rect_height : Z
}.

(** [render_pheromones], lines 246-272: the rectangles drawn on the
    overlay, in order. The cells are read with the sizes of [home_map]. *)
Definition render_pheromones (home_map food_map : Map.t) (cell_size : Z) : res (list rect) :=
  for_each (py_range 0 (Map.height home_map))
    (fun gy drawn =>
       for_each (py_range 0 (Map.width home_map))
         (fun gx drawn =>
            let x_pixel := (gx * cell_size)%Z in
            let y_pixel := (gy * cell_size)%Z in
            (home_val <- ndarray.getitem (Map.map_vals home_map) gy gx ;;
             food_val <- ndarray.getitem (Map.map_vals food_map) gy gx ;;
             match pheromone_color home_val food_val (Map.max_val home_map) with
             | Some c => Ok (drawn ++ [mk_rect c x_pixel y_pixel cell_size cell_size])
             | None => Ok drawn
             end)%res)
         drawn)
    [].

(** A colour [pygame] accepts, drawn inside a surface of the given size. *)
Definition rect_ok (surface_width surface_height : Z) (r : rect) : Prop :=
  let '(cr, cg, cb) := color r in
  (0 <= cr <= 255 /\ 0 <= cg <= 255 /\ 0 <= cb <= 255 /\
   0 <= left r /\ left r + rect_width r <= surface_width /\
   0 <= top r /\ top r + rect_height r <= surface_height)%Z.

(** [draw_food], lines 276-284: the rectangles drawn, in order. *)
Definition draw_food (food : Food.t) (cell_size : Z) : res (list rect) :=
  for_each (py_range 0 (Food.height food))
    (fun gy drawn =>
       for_each (py_range 0 (Food.width food))
         (fun gx drawn =>
            (present <- ndarray.getitem (Food.map_vals food) gy gx ;;
             if (present : bool) then
               let x_pixel := (gx * cell_size)%Z in
               let y_pixel := (gy * cell_size)%Z in
               Ok (drawn ++ [mk_rect (218, 165, 32)%Z x_pixel y_pixel cell_size cell_size])
             else Ok drawn)%res)
         drawn)
    [].

(** The square drawn for the food cell [(gx, gy)] with cells of 4 pixels. *)
Definition food_rect (gx gy : Z) : rect :=
  mk_rect (218, 165, 32)%Z (gx * 4) (gy * 4) 4 4.

(** What has been drawn when the loops of [draw_food] reach the cell
    [(gx, gy)]: one square for each food cell before it, row by row. *)
Definition drawn_upto (food : Food.t) (gy gx : Z) (drawn : list rect) : Prop :=
  length drawn
  = length (filter (fun b : bool => b)
                   (firstn (Z.to_nat (gy * Food.width food + gx))
                           (ndarray.data (Food.map_vals food)))) /\
  forall r,
    In r drawn <->
    exists cx cy,
      (0 <= cx < Food.width food)%Z /\ (0 <= cy < Food.height food)%Z /\
      (cy < gy \/ (cy = gy /\ cx < gx))%Z /\
      ndarray.getitem (Food.map_vals food) cy cx = Ok true /\
      r = food_rect cx cy.

End Render.

(** ** What stays true of the scents over a run *)

(** The scents an ant carries lie in [0, 100] and wear off at a rate in
    [0, 1]. *)
Definition ant_ok (a : Ant.t) : Prop :=
  (0 <= Ant.home_pher a <= 100)%R /\ (0 <= Ant.food_pher a <= 100)%R /\
  (0 <= Ant.use_rate a <= 1)%R.

(** A well-formed map with the default normalisation, a retention in
    (0, 1], and every cell in [0, max_val]. *)
Definition map_ok (self : Map.t) : Prop :=
  Map.well_formed self /\
  Map.max_val self = 100%R /\ (0 < Map.evaporation_rate self <= 1)%R /\
  Forall (fun v => (0 <= v <= Map.max_val self)%R) (ndarray.data (Map.map_vals self)).

(** [GRID_WIDTH] and [GRID_HEIGHT] of [main.py], lines 9-12. *)
Definition GRID_WIDTH : Z := 600 / 4.
Definition GRID_HEIGHT : Z := 400 / 4.

Definition grid_sized (self : Map.t) : Prop :=
  Map.width self = GRID_WIDTH /\ Map.height self = GRID_HEIGHT.

(** Both maps are such maps, of the size of the grid. *)
Definition scents_ok (s : Shared) : Prop :=
  (map_ok (home_map s) /\ grid_sized (home_map s)) /\
  (map_ok (food_map s) /\ grid_sized (food_map s)).

(** A call that does not go back in time. *)
Definition forward_call (c : Main.call) : Prop :=
  match c with
  | Main.AdvanceTick dt => (0 <= dt)%R
  | Main.PlaceFood _ _ => True
  end.

(** ** What a collision leaves alone *)

(** Two states of an ant that differ at most in position and velocity. *)
Definition same_but_motion (a b : Ant.t) : Prop :=
  Ant.int_x a = Ant.int_x b /\ Ant.int_y a = Ant.int_y b /\
  Ant.last_x a = Ant.last_x b /\ Ant.last_y a = Ant.last_y b /\
  Ant.has_food a = Ant.has_food b /\
  Ant.home_pher a = Ant.home_pher b /\ Ant.food_pher a = Ant.food_pher b /\
  Ant.use_rate a = Ant.use_rate b /\ Ant.wander_chance a = Ant.wander_chance b /\
  Ant.bored a = Ant.bored b.

(** The sum of one quantity over the ants. *)
Definition sum_of (f : Ant.t -> R) (l : list Ant.t) : R :=
  fold_right (fun a acc => (f a + acc)%R) 0%R l.

(** What the loops of [resolve_collisions] keep, pair after pair. *)
Definition collisions_keep (l0 : list Ant.t) (s0 : Shared) (l : list Ant.t) (s : Shared)
  : Prop :=
  home_map s = home_map s0 /\ food_map s = food_map s0 /\
  Forall2 same_but_motion l0 l /\
  sum_of Ant.x l = sum_of Ant.x l0 /\ sum_of Ant.y l = sum_of Ant.y l0 /\
  sum_of Ant.dx l = sum_of Ant.dx l0 /\ sum_of Ant.dy l = sum_of Ant.dy l0.

(** The scents of a program state: both maps and every ant. *)
Definition state_scents_ok (s : Main.t) : Prop :=
  scents_ok (Main.shared s) /\ Forall ant_ok (Colony.ants (Main.colony s)).

(** ** Where the food is *)

(** The food of a program state: on the grid, carried, delivered. *)
Definition accounted (s : Main.t) : Z :=
  Z.of_nat (food_cells (Main.food s)) + Z.of_nat (carrying (Colony.ants (Main.colony s)))
  + Colony.food_delivered (Main.colony s).

(** A frame, as opposed to a mouse click. *)
Definition tick_only (c : Main.call) : Prop :=
  match c with
  | Main.AdvanceTick _ => True
  | Main.PlaceFood _ _ => False
  end.

(** The food grid built by lines 34-38 of [main]. *)
Definition initial_food : res Food.t :=
  (food <- Food.init GRID_WIDTH GRID_HEIGHT ;;
   food <- Food.add_food food (PyInt 400) (PyInt 300) ;;
   food <- Food.add_food food (PyInt 150) (PyInt 250) ;;
   food <- Food.add_food food (PyInt 300) (PyInt 100) ;;
   Food.add_food food (PyInt 500) (PyInt 200))%res.

(** ** What [get_weighted_direction] sees of the map *)

(** What the loop of [get_weighted_direction] adds for the neighbour at
    offset [d] of the grid cell [(gx, gy)]: the value of that cell, and
    nothing when it lies outside the grid. *)
Definition neighbour_value (self : Map.t) (gx gy : Z) (d : Z * Z) : R :=
  if Map.in_bounds self (PyInt (gx + fst d)) (PyInt (gy + snd d)) then
    match ndarray.getitem (Map.map_vals self) (gy + snd d) (gx + fst d) with
    | Ok v => v
    | Raise _ => 0%R
    end
  else 0%R.

(** The three sums of the loop, over a list of offsets. *)
Definition weigh (f : Z * Z -> R) (acc : R * R * R) (d : Z * Z) : R * R * R :=
  let '(sum_dx, sum_dy, total) := acc in
  (sum_dx + IZR (fst d) * f d, sum_dy + IZR (snd d) * f d, total + f d)%R.

(** ** The integrator as it runs

    [step] hands the decay equation to an integrator of an external
    library, sets no tolerance and never looks at
    [solver.successful()]: what comes back is an approximation of the
    solution, of the length of [y0]. How close it is on one call is not
    decided by the repository, so it is a parameter here: [tol] bounds
    the error of each entry of the result. With [tol = 0] this is
    [Map.integrate]. *)
Definition integrate_within (tol : R) (f : R -> list R -> list R) (y0 : list R)
           (dt : R) (y1 : list R) : Prop :=
  exists y, Map.ode_solution f y0 y /\
            length y1 = length y0 /\
            forall i, (Rabs (nth i y1 0 - nth i (y dt) 0) <= tol)%R.

(** [step] with such an integrator. *)
Definition step_within (tol : R) (self : Map.t) (dt : R) (self' : Map.t) : Prop :=
  let k := (- ln (Map.evaporation_rate self))%R in
  let y0 := ndarray.flatten (Map.map_vals self) in
  exists y1, integrate_within tol (Map.dP_dt k) y0 dt y1 /\
             self' = Map.with_map_vals self (ndarray.reshape_like y1 (Map.map_vals self)).

(** A map obtained from a fresh one by writes alone: no step yet. *)
Inductive written : Map.t -> Prop :=
| written_init (w h : Z) (max_val rate : R) (self : Map.t) :
    Map.init w h max_val rate = Ok self -> written self
| written_set_value (self self' : Map.t) (x y : pynum) (val : R) :
    written self -> Map.set_value self x y val = Ok self' -> written self'.

(** ** The pheromone map with its storage

    [Map.__init__] makes the array with [dtype=np.float32], and [step]
    replaces it by the array of doubles that the solver returns: a write
    rounds the value to the precision of the array, single before the
    first step and double after it.  [rnd] is that rounding (the identity
    on doubles once the array holds doubles).  The test
    [val > self.map[gy, gx]] compares a double with a cell: against a
    single, NumPy 2 rounds the double first ([weak = true]), older
    versions compare the two numbers as they are ([weak = false]). *)

Module MapF32.

Definition set_value (rnd : R -> R) (weak : bool) (self : Map.t) (x y : pynum) (val : R)
  : res Map.t :=
  let gx := Num.floordiv4 x in
  let gy := Num.floordiv4 y in
  if Map.in_bounds self gx gy then
    (cur <- index_get (Map.map_vals self) gy gx ;;
     if Rgt_dec (if weak then rnd val else val) cur then
       arr <- index_set (Map.map_vals self) gy gx (rnd val) ;;
       Ok (Map.with_map_vals self arr)
     else Ok self)%res
  else Ok self.

(** What is used of the rounding: it keeps the order, and it returns
    numbers that it leaves alone. *)
Definition rounding (rnd : R -> R) : Prop :=
  (forall a b : R, (a <= b)%R -> (rnd a <= rnd b)%R) /\
  (forall a : R, rnd (rnd a) = rnd a).

(** Every cell holds a number of the storage format. *)
Definition stored (rnd : R -> R) (self : Map.t) : Prop :=
  Forall (fun v => rnd v = v) (ndarray.data (Map.map_vals self)).

(** A rounding for the examples: down to the next integer. *)
Definition round_down (r : R) : R := IZR (Zfloor r).

End MapF32.

(** ** What no method changes on a map *)

(** The parameters [main] gives both maps: the default normalisation and
    retention, and the size of the grid. *)
Definition map_params (self : Map.t) : Prop :=
  Map.max_val self = 100%R /\ Map.evaporation_rate self = 0.999%R /\ grid_sized self.

Definition params_ok (s : Shared) : Prop :=
  map_params (home_map s) /\ map_params (food_map s).

(** Both maps have these parameters, and every ant carries scents within
    the normalisation range. *)
Definition state_params_ok (s : Main.t) : Prop :=
  params_ok (Main.shared s) /\ Forall ant_ok (Colony.ants (Main.colony s)).

(** * Properties *)

(** ** Numeric conversions *)

Lemma py_int_nonneg (r : R) :
  (0 <= r)%R -> (IZR (py_int r) <= r < IZR (py_int r) + 1)%R.
Proof.
  intros Hr. unfold py_int. destruct (Rle_dec 0 r) as [_|Hn]; [|contradiction].
  apply Zfloor_bound.
Qed.

Lemma py_int_IZR (z : Z) : py_int (IZR z) = z.
Proof.
  unfold py_int. destruct (Rle_dec 0 (IZR z)).
  - apply ZfloorZ.
  - unfold Zceil. rewrite ZfloorNZ. lia.
Qed.

Lemma py_int_between (r : R) (z : Z) :
  (0 <= IZR z)%R -> (IZR z <= r < IZR z + 1)%R -> py_int r = z.
Proof.
  intros Hz Hr. unfold py_int. destruct (Rle_dec 0 r) as [_|Hn]; [|lra].
  now apply Zfloor_eq.
Qed.

(** ** The generator *)

Section Generator.

Import ManualRNG.
Local Open Scope Z_scope.

Variable g : ManualRNG.t.
Hypothesis Hconst : std_constants g.

Lemma random_constants : std_constants (snd (random g)).
Proof. exact Hconst. Qed.

Lemma random_state_range : 0 <= state (snd (random g)) < 2147483647.
Proof.
  destruct Hconst as (Hm & _). simpl. rewrite Hm.
  apply Z.mod_pos_bound. lia.
Qed.

Lemma random_unit_interval : (0 <= fst (random g) < 1)%R.
Proof.
  pose proof random_state_range as Hs. simpl in Hs |- *.
  destruct Hconst as (Hm & _). rewrite Hm in *.
  set (s := (a g * state g + c g) mod 2147483647) in *.
  assert (H0 : (0 <= IZR s)%R) by (apply IZR_le; lia).
  assert (H1 : (IZR s < 2147483647)%R) by (apply IZR_lt; lia).
  split.
  - apply Rmult_le_pos; [exact H0 | lra].
  - apply Rmult_lt_reg_r with 2147483647%R; [lra|].
    unfold Rdiv. rewrite Rmult_assoc, Rinv_l by lra. lra.
Qed.

Lemma uniform_range (lo hi : R) :
  (lo < hi)%R -> (lo <= fst (uniform lo hi g) < hi)%R.
Proof.
  intros Hlt. unfold uniform.
  pose proof random_unit_interval as Hu.
  destruct (random g) as [u g']. simpl in *. nra.
Qed.

Lemma randint_range (lo hi : Z) :
  lo <= hi -> lo <= fst (randint lo hi g) <= hi.
Proof.
  intros Hle. unfold randint.
  pose proof random_unit_interval as Hu.
  destruct (random g) as [u g']. simpl in *.
  assert (Hn : (1 <= IZR (hi - lo + 1))%R) by (apply IZR_le; lia).
  assert (Hhi : hi = lo + (hi - lo + 1) - 1) by lia.
  revert Hn Hhi. generalize (hi - lo + 1). intros n Hn Hhi.
  assert (Hp : (0 <= u * IZR n)%R) by nra.
  pose proof (py_int_nonneg Hp) as [Hlow Hup].
  assert (Hk0 : 0 <= py_int (u * IZR n)).
  { apply le_IZR. unfold py_int. destruct (Rle_dec 0 (u * IZR n)); [|contradiction].
    apply IZR_le. apply Zfloor_lub. simpl. exact Hp. }
  assert (Hk1 : py_int (u * IZR n) < n).
  { apply lt_IZR. apply Rle_lt_trans with (u * IZR n)%R; [exact Hlow|].
    rewrite <- (Rmult_1_l (IZR n)) at 2. apply Rmult_lt_compat_r; lra. }
  lia.
Qed.

(** With a state in [1, m) the next state is in [1, m) again: the
    multiplier is coprime to the modulus. *)
Lemma random_state_nonzero :
  1 <= state g < 2147483647 -> 1 <= state (snd (random g)) < 2147483647.
Proof.
  intros Hs. pose proof random_state_range as Hr.
  assert (Hnz : state (snd (random g)) <> 0); [|lia].
  destruct Hconst as (Hm & Ha & Hc). simpl. rewrite Hm, Ha, Hc, Z.add_0_r.
  intros Hmod. apply Z.mod_divide in Hmod; [|lia].
  apply Z.gauss in Hmod; [|reflexivity].
  destruct Hmod as [q Hq]. nia.
Qed.

Lemma random_positive :
  1 <= state g < 2147483647 -> (0 < fst (random g) < 1)%R.
Proof.
  intros Hs. pose proof (random_state_nonzero Hs) as Hn.
  pose proof random_unit_interval as Hu. split; [|tauto].
  simpl in *. destruct Hconst as (Hm & _). rewrite Hm in *.
  apply Rmult_lt_0_compat; [apply IZR_lt; lia | lra].
Qed.

(** [normal] returns when its first draw is positive. *)
Lemma normal_returns (mean std : R) :
  1 <= state g < 2147483647 -> returns (normal mean std g).
Proof.
  intros Hs. pose proof (random_positive Hs) as Hu. unfold normal.
  destruct (random g) as [u1 g1]. simpl in Hu.
  destruct (random g1) as [u2 g2].
  unfold math_log. destruct (Rlt_dec 0 u1) as [_|Hn]; [|lra]. simpl.
  unfold math_sqrt.
  assert (Hln : (ln u1 < 0)%R) by (rewrite <- ln_1; apply ln_increasing; lra).
  destruct (Rle_dec 0 (-2.0 * ln u1)) as [_|Hn]; [|lra]. simpl.
  eexists. reflexivity.
Qed.

(** From a state that is a multiple of the modulus the next state is 0. *)
Lemma random_zero_state :
  state g mod m g = 0 -> state (snd (random g)) = 0 /\ fst (random g) = 0%R.
Proof.
  intros Hz. destruct Hconst as (Hm & Ha & Hc).
  assert (Hs : (a g * state g + c g) mod m g = 0).
  { rewrite Hc, Z.add_0_r, Hm in *. rewrite <- Z.mul_mod_idemp_r by lia.
    rewrite Hz, Z.mul_0_r. reflexivity. }
  simpl. rewrite Hs. split; [reflexivity|]. unfold Rdiv. apply Rmult_0_l.
Qed.

End Generator.

Lemma init_constants (seed : option Z) (now : R) :
  ManualRNG.std_constants (ManualRNG.init seed now).
Proof. repeat split. Qed.

Lemma draws_constants (n : nat) (g : ManualRNG.t) :
  ManualRNG.std_constants g -> ManualRNG.std_constants (ManualRNG.draws n g).
Proof.
  revert g. induction n as [|n IH]; intros g Hg; simpl; [exact Hg|].
  apply IH. exact Hg.
Qed.

Lemma draws_state_nonzero (n : nat) (g : ManualRNG.t) :
  ManualRNG.std_constants g ->
  (1 <= ManualRNG.state g < 2147483647)%Z ->
  (1 <= ManualRNG.state (ManualRNG.draws n g) < 2147483647)%Z.
Proof.
  revert g. induction n as [|n IH]; intros g Hg Hs; [exact Hs|].
  change (ManualRNG.draws (S n) g) with (ManualRNG.draws n (snd (ManualRNG.random g))).
  apply IH; [exact Hg | now apply random_state_nonzero].
Qed.

Lemma draws_state_zero (n : nat) (g : ManualRNG.t) :
  ManualRNG.std_constants g ->
  (ManualRNG.state g mod ManualRNG.m g = 0)%Z ->
  (ManualRNG.state (ManualRNG.draws n g) mod ManualRNG.m (ManualRNG.draws n g) = 0)%Z.
Proof.
  revert g. induction n as [|n IH]; intros g Hg Hs; [exact Hs|].
  change (ManualRNG.draws (S n) g) with (ManualRNG.draws n (snd (ManualRNG.random g))).
  apply IH; [exact Hg|].
  destruct (random_zero_state Hg Hs) as [H0 _]. rewrite H0. apply Z.mod_0_l.
  destruct Hg as (Hm & _). simpl. lia.
Qed.

(** The generator over the reals: a draw moves the state to
    [(a * state + c) mod m] and returns the exact quotient [state / m], a
    number of [[0, 1)]; with exact arithmetic [uniform(lo, hi)] makes one
    such draw and returns a number of [[lo, hi)] when [lo < hi], and
    [randint(lo, hi)] makes one such draw and returns an integer of
    [[lo, hi]] when [lo <= hi].  The state update is the code's own
    integer arithmetic; the two ranges are those of the exact
    operations; the evaluation in binary64 that follows shows that
    rounding breaks the first. *)
Lemma rng_contract (g : ManualRNG.t) :
  ManualRNG.std_constants g ->
  let g' := snd (ManualRNG.random g) in
  ManualRNG.state g'
  = ((ManualRNG.a g * ManualRNG.state g + ManualRNG.c g) mod ManualRNG.m g)%Z /\
  ManualRNG.std_constants g' /\
  fst (ManualRNG.random g) = (IZR (ManualRNG.state g') / IZR (ManualRNG.m g))%R /\
  (0 <= fst (ManualRNG.random g) < 1)%R /\
  (forall lo hi : R,
      (lo < hi)%R ->
      snd (ManualRNG.uniform lo hi g) = g' /\
      (lo <= fst (ManualRNG.uniform lo hi g) < hi)%R) /\
  (forall lo hi : Z,
      (lo <= hi)%Z ->
      snd (ManualRNG.randint lo hi g) = g' /\
      (lo <= fst (ManualRNG.randint lo hi g) <= hi)%Z).
Proof.
  intros Hg g'. repeat split.
  - exact (proj1 Hg).
  - exact (proj1 (proj2 Hg)).
  - exact (proj2 (proj2 Hg)).
  - apply (random_unit_interval Hg).
  - apply (random_unit_interval Hg).
  - apply (uniform_range Hg H).
  - apply (uniform_range Hg H).
  - apply (randint_range Hg H).
  - apply (randint_range Hg H).
Qed.

Lemma rng_contract_witness :
  let g := ManualRNG.init (Some 42%Z) 0 in
  ManualRNG.state (snd (ManualRNG.random g)) = 705894%Z /\
  (0 <= fst (ManualRNG.random g) < 1)%R /\
  (0 <= fst (ManualRNG.uniform 0 1.5 g) < 1.5)%R /\
  (0 <= fst (ManualRNG.randint 0 15 g) <= 15)%Z.
Proof.
  intros g.
  pose proof (@rng_contract g (init_constants (Some 42%Z) 0)) as (Hs & _ & _ & Hu & Hun & Hri).
  split; [exact Hs|]. split; [exact Hu|].
  split; [apply Hun; lra | apply Hri; lia].
Defined.

(** C9, evaluated in binary64: the generator seeded with 100000 draws
    [1680700000 / 2147483647], about 0.78; asked for a number of
    [[1.0, 1.0000000000000002)], the two neighbouring doubles,
    [uniform] computes [1.0 + 2^-52 * 0.78...], which rounds to the
    upper end: it returns [b] itself, outside the half-open range its
    comment promises. *)
Theorem uniform_returns_upper_end :
  let g := ManualRNG.init (Some 100000%Z) 0 in
  let lo := PrimFloat.one in
  let hi := PrimFloat.next_up PrimFloat.one in
  PrimFloat.ltb lo hi = true /\
  ManualRNG.state (snd (DoubleRNG.uniform lo hi g)) = 1680700000%Z /\
  PrimFloat.ltb (fst (DoubleRNG.random g)) PrimFloat.one = true /\
  fst (DoubleRNG.uniform lo hi g) = hi /\
  PrimFloat.ltb (fst (DoubleRNG.uniform lo hi g)) hi = false.
Proof.
  cbv zeta. repeat split; vm_compute; reflexivity.
Qed.

(** C10: from a seed [s] with [1 <= s < 2147483647] the state is never 0
    after a draw, [random] returns a number strictly between 0 and 1, and
    [normal] hands a positive number to [math.log] and returns.  From a
    state that is a multiple of the modulus every later draw returns 0,
    and [normal] hands 0 to [math.log], which raises. *)
Theorem rng_zero_state_safety :
  (forall (s : Z) (now : R) (n : nat) (mean std : R),
      (1 <= s < 2147483647)%Z ->
      let g := ManualRNG.draws n (ManualRNG.init (Some s) now) in
      ManualRNG.state (snd (ManualRNG.random g)) <> 0%Z /\
      (0 < fst (ManualRNG.random g) < 1)%R /\
      (0 < ManualRNG.normal_log_arg g)%R /\
      returns (ManualRNG.normal mean std g)) /\
  (forall (g : ManualRNG.t) (n : nat) (mean std : R),
      ManualRNG.std_constants g ->
      (ManualRNG.state g mod ManualRNG.m g = 0)%Z ->
      let g' := ManualRNG.draws n g in
      ManualRNG.state (snd (ManualRNG.random g')) = 0%Z /\
      fst (ManualRNG.random g') = 0%R /\
      ManualRNG.normal_log_arg g' = 0%R /\
      ManualRNG.normal mean std g' = Raise ValueError).
Proof.
  split.
  - intros s now n mean std Hs g.
    assert (Hg : ManualRNG.std_constants g) by apply draws_constants, init_constants.
    assert (Hst : (1 <= ManualRNG.state g < 2147483647)%Z).
    { apply draws_state_nonzero; [apply init_constants | exact Hs]. }
    pose proof (random_state_nonzero Hg Hst) as Hn.
    pose proof (random_positive Hg Hst) as Hp.
    split; [lia|]. split; [exact Hp|]. split; [apply Hp|].
    apply (normal_returns Hg mean std Hst).
  - intros g n mean std Hg Hz g'.
    assert (Hg' : ManualRNG.std_constants g') by now apply draws_constants.
    pose proof (draws_state_zero n Hg Hz) as Hz'. fold g' in Hz'.
    destruct (random_zero_state Hg' Hz') as [Hs Hu].
    split; [exact Hs|]. split; [exact Hu|]. split; [exact Hu|].
    unfold ManualRNG.normal.
    destruct (ManualRNG.random g') as [u1 g1]. simpl in Hu. subst u1.
    destruct (ManualRNG.random g1) as [u2 g2].
    unfold math_log. destruct (Rlt_dec 0 0) as [Hlt|_]; [lra|]. reflexivity.
Qed.

Lemma rng_zero_state_safety_witness :
  (ManualRNG.state (snd (ManualRNG.random (ManualRNG.draws 3 (ManualRNG.init (Some 42%Z) 0)))) <> 0%Z /\
   returns (ManualRNG.normal 0 1 (ManualRNG.draws 3 (ManualRNG.init (Some 42%Z) 0)))) /\
  ManualRNG.normal 0 1 (ManualRNG.draws 3 (ManualRNG.init (Some 0%Z) 0)) = Raise ValueError.
Proof.
  destruct rng_zero_state_safety as [Hpos Hzero]. split.
  - destruct (Hpos 42%Z 0%R 3%nat 0%R 1%R) as (Hs & _ & _ & Hr); [lia|].
    split; [exact Hs | exact Hr].
  - destruct (Hzero (ManualRNG.init (Some 0%Z) 0) 3%nat 0%R 1%R) as (_ & _ & _ & Hr).
    + apply init_constants.
    + reflexivity.
    + exact Hr.
Defined.

(** ** The decay equation

    A function with [f' = -k f] everywhere is [f 0 * exp (-k t)]:
    [f t * exp (k t)] has derivative 0, hence is constant. *)

Section Decay.

Local Open Scope R_scope.

Variable k : R.

Lemma derivable_pt_lim_exp_scal (t : R) :
  derivable_pt_lim (fun s => exp (k * s)) t (k * exp (k * t)).
Proof.
  change (fun s => exp (k * s)) with (comp exp (mult_real_fct k id)).
  replace (k * exp (k * t)) with (exp (mult_real_fct k id t) * (k * 1))
    by (unfold mult_real_fct, id; ring).
  apply derivable_pt_lim_comp.
  - apply derivable_pt_lim_scal, derivable_pt_lim_id.
  - apply derivable_pt_lim_exp.
Qed.

Lemma decay_solution (v : R) (t : R) :
  derivable_pt_lim (fun s => v * exp (- k * s)) t (- k * (v * exp (- k * t))).
Proof.
  change (fun s => v * exp (- k * s))
    with (mult_real_fct v (comp exp (mult_real_fct (- k) id))).
  replace (- k * (v * exp (- k * t)))
    with (v * (exp (mult_real_fct (- k) id t) * (- k * 1)))
    by (unfold mult_real_fct, id; ring).
  apply derivable_pt_lim_scal, derivable_pt_lim_comp.
  - apply derivable_pt_lim_scal, derivable_pt_lim_id.
  - apply derivable_pt_lim_exp.
Qed.

Variable f : R -> R.
Hypothesis Hf : forall t, derivable_pt_lim f t (- k * f t).

Lemma decay_weighted_derivative (t : R) :
  derivable_pt_lim (fun s => f s * exp (k * s)) t 0.
Proof.
  replace 0 with (- k * f t * exp (k * t) + f t * (k * exp (k * t))) by ring.
  apply (derivable_pt_lim_mult f (fun s => exp (k * s))).
  - apply Hf.
  - apply derivable_pt_lim_exp_scal.
Qed.

Lemma decay_unique (t : R) : f t = f 0 * exp (- k * t).
Proof.
  set (h := fun s => f s * exp (k * s)).
  assert (pr : derivable h).
  { intros s. exists 0. apply decay_weighted_derivative. }
  assert (Hc : constant h).
  { apply (null_derivative_1 h pr). intros s.
    apply derive_pt_eq_0. apply decay_weighted_derivative. }
  pose proof (Hc t 0) as Ht. unfold h in Ht.
  rewrite Rmult_0_r, exp_0, Rmult_1_r in Ht.
  rewrite <- Ht, Rmult_assoc, <- exp_plus.
  replace (k * t + - k * t) with 0 by ring.
  rewrite exp_0. ring.
Qed.

End Decay.

Lemma derivable_pt_lim_ext (f h : R -> R) (t l : R) :
  (forall s, f s = h s) -> derivable_pt_lim f t l -> derivable_pt_lim h t l.
Proof.
  intros Heq Hf eps Heps. destruct (Hf eps Heps) as [delta Hd].
  exists delta. intros d Hd0 Hdd. rewrite <- !Heq. now apply Hd.
Qed.

Lemma nth_map_linear (c : R) (l : list R) (i : nat) :
  nth i (map (fun v => (c * v)%R) l) 0%R = (c * nth i l 0)%R.
Proof.
  rewrite <- (Rmult_0_r c) at 1.
  apply (map_nth (fun v => (c * v)%R)).
Qed.

Lemma nth_map_scaled (c : R) (l : list R) (i : nat) :
  nth i (map (fun v => (v * c)%R) l) 0%R = (nth i l 0 * c)%R.
Proof.
  rewrite <- (Rmult_0_l c) at 1.
  apply (map_nth (fun v => (v * c)%R)).
Qed.

(** ** The pheromone map: [step] is the closed-form decay *)

Section MapStep.

Local Open Scope R_scope.

Variable k : R.
Variable y0 : list R.

Lemma closed_form_solves :
  Map.ode_solution (Map.dP_dt k) y0 (fun t => map (fun v => v * exp (- k * t)) y0).
Proof.
  repeat split.
  - rewrite Rmult_0_r, exp_0. rewrite <- (map_id y0) at 2.
    apply map_ext. intros v. ring.
  - intros t. apply length_map.
  - intros t i. unfold Map.dP_dt.
    rewrite nth_map_linear, nth_map_scaled.
    apply derivable_pt_lim_ext with (f := fun s => nth i y0 0 * exp (- k * s)).
    + intros s. now rewrite nth_map_scaled.
    + apply decay_solution.
Qed.

Lemma solution_is_closed_form (y : R -> list R) (t : R) :
  Map.ode_solution (Map.dP_dt k) y0 y ->
  y t = map (fun v => v * exp (- k * t)) y0.
Proof.
  intros (H0 & Hlen & Hd).
  apply nth_ext with (d := 0) (d' := 0).
  - rewrite Hlen. symmetry. apply length_map.
  - intros i _. rewrite nth_map_scaled, <- H0.
    apply (@decay_unique k (fun s => nth i (y s) 0)).
    intros s. specialize (Hd s i). unfold Map.dP_dt in Hd.
    now rewrite nth_map_linear in Hd.
Qed.

Lemma integrate_closed_form (dt : R) (y1 : list R) :
  Map.integrate (Map.dP_dt k) y0 dt y1 <-> y1 = map (fun v => v * exp (- k * dt)) y0.
Proof.
  split.
  - intros (y & Hy & <-). now apply solution_is_closed_form.
  - intros ->. exists (fun t => map (fun v => v * exp (- k * t)) y0).
    split; [apply closed_form_solves | reflexivity].
Qed.

End MapStep.

Lemma step_iff_decay (self : Map.t) (dt : R) (self' : Map.t) :
  Map.step self dt self' <-> self' = Map.decay self dt.
Proof.
  unfold Map.step, Map.decay. split.
  - intros (y1 & Hy & ->). apply integrate_closed_form in Hy. now subst y1.
  - intros ->. eexists. split; [|reflexivity]. now apply integrate_closed_form.
Qed.

Lemma step_total (self : Map.t) (dt : R) : exists self', Map.step self dt self'.
Proof. exists (Map.decay self dt). now apply step_iff_decay. Qed.

Lemma step_deterministic (self : Map.t) (dt : R) (s1 s2 : Map.t) :
  Map.step self dt s1 -> Map.step self dt s2 -> s1 = s2.
Proof.
  intros H1 H2. apply step_iff_decay in H1, H2. congruence.
Qed.

(** ** Cells of an array *)

Lemma axis_index_in_range (n i : Z) :
  (0 <= i < n)%Z -> ndarray.axis_index n i = Ok i.
Proof.
  intros Hi. unfold ndarray.axis_index.
  replace ((0 <=? i)%Z && (i <? n)%Z) with true; [reflexivity|].
  symmetry. apply andb_true_iff. split; [apply Z.leb_le | apply Z.ltb_lt]; lia.
Qed.

Lemma axis_index_ok (n i i' : Z) :
  ndarray.axis_index n i = Ok i' -> (0 <= i' < n)%Z.
Proof.
  unfold ndarray.axis_index.
  destruct ((0 <=? i)%Z && (i <? n)%Z) eqn:H1.
  - intros [= <-]. apply andb_true_iff in H1 as [Ha Hb].
    apply Z.leb_le in Ha. apply Z.ltb_lt in Hb. lia.
  - destruct ((- n <=? i)%Z && (i <? 0)%Z) eqn:H2; [|discriminate].
    intros [= <-]. apply andb_true_iff in H2 as [Ha Hb].
    apply Z.leb_le in Ha. apply Z.ltb_lt in Hb. lia.
Qed.

Lemma offset_in_data {A : Type} (arr : ndarray.t A) (i j : Z) (k : nat) :
  ndarray.well_formed arr -> ndarray.offset arr i j = Ok k ->
  (k < length (ndarray.data arr))%nat.
Proof.
  intros (Hr & Hc & Hlen). unfold ndarray.offset.
  destruct (ndarray.axis_index (ndarray.rows arr) i) as [i'|] eqn:Hi; [|discriminate].
  destruct (ndarray.axis_index (ndarray.cols arr) j) as [j'|] eqn:Hj; [|discriminate].
  simpl. intros [= <-]. apply axis_index_ok in Hi, Hj. rewrite Hlen. nia.
Qed.

Lemma offset_in_range {A : Type} (arr : ndarray.t A) (i j : Z) :
  (0 <= i < ndarray.rows arr)%Z -> (0 <= j < ndarray.cols arr)%Z ->
  ndarray.offset arr i j = Ok (Z.to_nat (i * ndarray.cols arr + j)).
Proof.
  intros Hi Hj. unfold ndarray.offset.
  rewrite (axis_index_in_range Hi), (axis_index_in_range Hj). reflexivity.
Qed.

Lemma list_update_length {A : Type} (n : nat) (v : A) (l : list A) :
  length (list_update n v l) = length l.
Proof.
  revert n. induction l as [|x l IH]; intros [|n]; simpl; auto.
Qed.

Lemma nth_error_list_update_eq {A : Type} (n : nat) (v : A) (l : list A) :
  (n < length l)%nat -> nth_error (list_update n v l) n = Some v.
Proof.
  revert n. induction l as [|x l IH]; intros [|n] Hn; simpl in *; try lia; auto.
  apply IH. lia.
Qed.

Lemma nth_error_list_update_neq {A : Type} (n p : nat) (v : A) (l : list A) :
  n <> p -> nth_error (list_update n v l) p = nth_error l p.
Proof.
  revert n p. induction l as [|x l IH]; intros [|n] [|p] Hn; simpl; auto.
  congruence.
Qed.

Lemma getitem_returns {A : Type} (arr : ndarray.t A) (i j : Z) :
  ndarray.well_formed arr ->
  (0 <= i < ndarray.rows arr)%Z -> (0 <= j < ndarray.cols arr)%Z ->
  returns (ndarray.getitem arr i j).
Proof.
  intros Hwf Hi Hj. unfold ndarray.getitem.
  pose proof (offset_in_range arr Hi Hj) as Ho. rewrite Ho. simpl.
  pose proof (offset_in_data _ _ Hwf Ho) as Hk.
  destruct (nth_error (ndarray.data arr) _) eqn:Hn.
  - eexists. reflexivity.
  - apply nth_error_None in Hn. lia.
Qed.

Lemma setitem_returns {A : Type} (arr : ndarray.t A) (i j : Z) (v : A) :
  ndarray.well_formed arr ->
  (0 <= i < ndarray.rows arr)%Z -> (0 <= j < ndarray.cols arr)%Z ->
  exists arr', ndarray.setitem arr i j v = Ok arr' /\ ndarray.well_formed arr' /\
               ndarray.rows arr' = ndarray.rows arr /\
               ndarray.cols arr' = ndarray.cols arr /\
               ndarray.getitem arr' i j = Ok v.
Proof.
  intros Hwf Hi Hj. unfold ndarray.setitem, ndarray.getitem.
  pose proof (offset_in_range arr Hi Hj) as Ho. rewrite Ho. simpl.
  pose proof (offset_in_data _ _ Hwf Ho) as Hk.
  apply Nat.ltb_lt in Hk. rewrite Hk. apply Nat.ltb_lt in Hk.
  eexists. split; [reflexivity|]. repeat split; try apply Hwf.
  - simpl. rewrite list_update_length. apply Hwf.
  - unfold ndarray.offset in *. simpl. rewrite Ho. simpl.
    now rewrite nth_error_list_update_eq.
Qed.

(** ** Decay over a total elapsed time *)

Lemma decay_zero (self : Map.t) : Map.decay self 0 = self.
Proof.
  destruct self as [w h mv rate [r c d]]. unfold Map.decay, Map.with_map_vals. simpl.
  do 2 f_equal. unfold ndarray.reshape_like. simpl. f_equal.
  rewrite <- (map_id d) at 2. apply map_ext. intros v.
  rewrite Rmult_0_r, exp_0. ring.
Qed.

Lemma decay_compose (self : Map.t) (t1 t2 : R) :
  Map.decay (Map.decay self t1) t2 = Map.decay self (t1 + t2).
Proof.
  unfold Map.decay, Map.with_map_vals, ndarray.reshape_like, ndarray.flatten. simpl.
  do 2 f_equal. rewrite map_map. apply map_ext. intros v.
  rewrite Rmult_assoc, <- exp_plus. do 2 f_equal. ring.
Qed.

Lemma steps_iff_decay (dts : list R) (self self' : Map.t) :
  steps dts self self' <-> self' = Map.decay self (total_time dts).
Proof.
  revert self. induction dts as [|dt dts IH]; intros self; simpl.
  - now rewrite decay_zero.
  - split.
    + intros (mid & Hs & Hr). apply step_iff_decay in Hs. subst mid.
      apply IH in Hr. now rewrite decay_compose in Hr.
    + intros ->. exists (Map.decay self dt). split.
      * now apply step_iff_decay.
      * apply IH. now rewrite decay_compose.
Qed.

Lemma decay_cell (self : Map.t) (dt : R) (i j : Z) (v : R) :
  ndarray.getitem (Map.map_vals self) i j = Ok v ->
  ndarray.getitem (Map.map_vals (Map.decay self dt)) i j
  = Ok (v * exp (- - ln (Map.evaporation_rate self) * dt))%R.
Proof.
  unfold ndarray.getitem, ndarray.offset. simpl.
  destruct (ndarray.axis_index _ i) as [i'|]; [|discriminate].
  destruct (ndarray.axis_index _ j) as [j'|]; [|discriminate]. simpl.
  unfold ndarray.flatten. rewrite nth_error_map.
  destruct (nth_error _ _); [|discriminate]. now intros [= ->].
Qed.

(** C6: with no write in between, a step over an elapsed time [T] exists
    and is unique, every cell holds its initial value times
    [evaporation_rate ^ T], which is [value * exp (- k * T)] for
    [k = - ln evaporation_rate], and any sequence of steps whose times add
    up to [T] ends in the same map. *)
Theorem decay_correctness (self : Map.t) (T : R) :
  (0 < Map.evaporation_rate self)%R ->
  let k := (- ln (Map.evaporation_rate self))%R in
  exists after : Map.t,
    Map.step self T after /\
    (forall self', Map.step self T self' -> self' = after) /\
    (forall i j v,
        ndarray.getitem (Map.map_vals self) i j = Ok v ->
        ndarray.getitem (Map.map_vals after) i j
        = Ok (v * Rpower (Map.evaporation_rate self) T)%R /\
        (v * Rpower (Map.evaporation_rate self) T = v * exp (- k * T))%R) /\
    (forall dts,
        total_time dts = T ->
        steps dts self after /\
        (forall self', steps dts self self' -> self' = after)).
Proof.
  intros Hrate k. exists (Map.decay self T).
  assert (Hpow : Rpower (Map.evaporation_rate self) T = exp (- k * T)).
  { unfold Rpower, k. f_equal. ring. }
  split; [now apply step_iff_decay|].
  split; [intros self' Hs; now apply step_iff_decay in Hs|].
  split.
  - intros i j v Hv. rewrite Hpow. split; [|reflexivity].
    now apply decay_cell.
  - intros dts <-. split.
    + now apply steps_iff_decay.
    + intros self' Hs. now apply steps_iff_decay in Hs.
Qed.

Lemma decay_correctness_witness :
  let self := Map.mk 2 1 100 0.999 (ndarray.mk 1 2 [100; 0]%R) in
  exists after : Map.t,
    Map.step self 1 after /\
    ndarray.getitem (Map.map_vals after) 0 0 = Ok (100 * Rpower 0.999 1)%R /\
    steps [0.25; 0.75]%R self after.
Proof.
  intros self.
  destruct (@decay_correctness self 1%R) as (after & Hstep & _ & Hcell & Hsplit).
  - simpl. lra.
  - exists after. split; [exact Hstep|]. split.
    + apply (Hcell 0%Z 0%Z 100%R). reflexivity.
    + apply (Hsplit [0.25; 0.75]%R). simpl. lra.
Defined.

(** ** Writes to the pheromone map *)

(** What a returning [set_value] has done: nothing, or one cell raised. *)
Lemma set_value_cases (self self' : Map.t) (x y : pynum) (val : R) :
  Map.set_value self x y val = Ok self' ->
  self' = self \/
  exists (i j : Z) (k : nat) (cur : R),
    ndarray.offset (Map.map_vals self) i j = Ok k /\
    nth_error (ndarray.data (Map.map_vals self)) k = Some cur /\
    (val > cur)%R /\
    self' = Map.with_map_vals self
              (ndarray.mk (ndarray.rows (Map.map_vals self)) (ndarray.cols (Map.map_vals self))
                          (list_update k val (ndarray.data (Map.map_vals self)))).
Proof.
  unfold Map.set_value.
  destruct (Map.in_bounds self _ _); [|intros [= <-]; now left].
  unfold index_get, index_set.
  destruct (Num.as_index (Num.floordiv4 y)) as [i|]; [simpl|discriminate].
  destruct (Num.as_index (Num.floordiv4 x)) as [j|]; [simpl|discriminate].
  unfold ndarray.getitem, ndarray.setitem.
  destruct (ndarray.offset (Map.map_vals self) i j) as [k|] eqn:Ho; [simpl|discriminate].
  destruct (nth_error _ k) as [cur|] eqn:Hn; [simpl|discriminate].
  destruct (Rgt_dec val cur) as [Hgt|Hle]; [|intros [= <-]; now left].
  destruct (k <? _)%nat; [simpl|discriminate].
  intros [= <-]. right. now exists i, j, k, cur.
Qed.

Lemma set_value_monotone (self self' : Map.t) (x y : pynum) (val : R) :
  Map.set_value self x y val = Ok self' ->
  forall i j v,
    ndarray.getitem (Map.map_vals self) i j = Ok v ->
    exists v', ndarray.getitem (Map.map_vals self') i j = Ok v' /\ (v <= v')%R.
Proof.
  intros Hs i j v Hv.
  destruct (set_value_cases _ _ _ _ Hs) as [->|(i0 & j0 & k & cur & Ho & Hn & Hgt & ->)].
  - exists v. split; [exact Hv | lra].
  - revert Hv. unfold ndarray.getitem, ndarray.offset. simpl.
    destruct (ndarray.axis_index _ i) as [i'|]; [simpl|discriminate].
    destruct (ndarray.axis_index _ j) as [j'|]; [simpl|discriminate].
    set (p := Z.to_nat _).
    destruct (Nat.eq_dec k p) as [<-|Hne].
    + rewrite Hn. intros [= <-].
      rewrite nth_error_list_update_eq by (apply nth_error_Some; congruence).
      exists val. split; [reflexivity | lra].
    + rewrite (nth_error_list_update_neq _ _ Hne).
      destruct (nth_error _ p) as [v0|]; [|discriminate]. intros [= ->].
      exists v. split; [reflexivity | lra].
Qed.

Lemma in_range_int (z n : Z) :
  Num.in_range (PyInt z) n = ((0 <=? z)%Z && (z <? n)%Z).
Proof. reflexivity. Qed.

Lemma in_bounds_int (self : Map.t) (gx gy : Z) :
  Map.in_bounds self (PyInt gx) (PyInt gy) = true <->
  (0 <= gx < Map.width self)%Z /\ (0 <= gy < Map.height self)%Z.
Proof.
  unfold Map.in_bounds. rewrite !in_range_int, !andb_true_iff, !Z.leb_le, !Z.ltb_lt.
  tauto.
Qed.

Lemma map_get_value_cell (self : Map.t) (x y : Z) :
  Map.get_value self (PyInt x) (PyInt y)
  = if Map.in_bounds self (PyInt (x / 4)) (PyInt (y / 4))
    then ndarray.getitem (Map.map_vals self) (y / 4) (x / 4)
    else Ok (-1)%R.
Proof. reflexivity. Qed.

Lemma set_value_int (self : Map.t) (x y : Z) (val : R) :
  Map.well_formed self ->
  exists self',
    Map.set_value self (PyInt x) (PyInt y) val = Ok self' /\
    Map.well_formed self' /\
    if Map.in_bounds self (PyInt (x / 4)) (PyInt (y / 4)) then
      exists cur,
        ndarray.getitem (Map.map_vals self) (y / 4) (x / 4) = Ok cur /\
        ((val > cur)%R -> ndarray.getitem (Map.map_vals self') (y / 4) (x / 4) = Ok val) /\
        ((val <= cur)%R -> self' = self)
    else self' = self.
Proof.
  intros Hself. pose proof Hself as (Hwf & Hrows & Hcols).
  unfold Map.set_value. simpl.
  destruct (Map.in_bounds self _ _) eqn:Hb.
  - apply in_bounds_int in Hb as [Hx Hy]. rewrite <- Hrows in Hy. rewrite <- Hcols in Hx.
    unfold index_get, index_set. simpl.
    destruct (getitem_returns Hwf Hy Hx) as [cur Hcur]. rewrite Hcur. simpl.
    destruct (Rgt_dec val cur) as [Hgt|Hle].
    + destruct (setitem_returns val Hwf Hy Hx) as (arr & Hset & Hwf' & Hr & Hc & Hget).
      rewrite Hset. simpl. eexists. split; [reflexivity|]. split.
      * repeat split; try apply Hwf'; simpl; congruence.
      * exists cur. split; [reflexivity|]. split; [intros _; exact Hget | lra].
    + exists self. split; [reflexivity|]. split; [exact Hself|].
      exists cur. split; [reflexivity|]. split; [intros; lra | reflexivity].
  - exists self. split; [reflexivity|]. split; [exact Hself | reflexivity].
Qed.

(** A reachable map is well formed and holds no negative value. *)
Lemma zeros_well_formed {A : Type} (zero : A) (rows cols : Z) (arr : ndarray.t A) :
  ndarray.zeros zero rows cols = Ok arr ->
  ndarray.well_formed arr /\ ndarray.rows arr = rows /\ ndarray.cols arr = cols /\
  ndarray.data arr = repeat zero (Z.to_nat (rows * cols)).
Proof.
  unfold ndarray.zeros. destruct ((rows <? 0)%Z || (cols <? 0)%Z) eqn:Hneg; [discriminate|].
  intros [= <-]. apply orb_false_iff in Hneg as [Hr Hc].
  apply Z.ltb_ge in Hr, Hc. repeat split; simpl; try lia. apply repeat_length.
Qed.

Lemma reachable_invariant (self : Map.t) :
  reachable self ->
  Map.well_formed self /\ Forall (fun v => (0 <= v)%R) (ndarray.data (Map.map_vals self)).
Proof.
  induction 1 as [w h mv rate self Hinit
                 |self self' x y val _ [IHwf IHpos] Hset
                 |self self' dt _ [IHwf IHpos] Hstep].
  - unfold Map.init in Hinit.
    destruct (ndarray.zeros 0%R h w) as [arr|] eqn:Hz; [|discriminate].
    injection Hinit as <-. apply zeros_well_formed in Hz as (Hwf & Hr & Hc & Hd).
    split; [split; [exact Hwf | now split]|]. simpl. rewrite Hd.
    apply Forall_forall. intros v Hv. apply repeat_spec in Hv. subst v. lra.
  - destruct (set_value_cases _ _ _ _ Hset) as [->|(i & j & k & cur & Ho & Hn & Hgt & ->)];
      [split; assumption|].
    destruct IHwf as ((Hr & Hc & Hlen) & Hrows & Hcols). split.
    + repeat split; simpl; try assumption. now rewrite list_update_length.
    + simpl. apply Forall_forall. intros v Hv.
      apply In_nth_error in Hv as [p Hp].
      assert (Hcur : (0 <= cur)%R).
      { rewrite Forall_forall in IHpos. apply IHpos. eapply nth_error_In; eauto. }
      destruct (Nat.eq_dec k p) as [<-|Hne].
      * rewrite nth_error_list_update_eq in Hp by (apply nth_error_Some; congruence).
        injection Hp as <-. lra.
      * rewrite (nth_error_list_update_neq _ _ Hne) in Hp.
        rewrite Forall_forall in IHpos. apply IHpos. eapply nth_error_In; eauto.
  - apply step_iff_decay in Hstep. subst self'.
    destruct IHwf as ((Hr & Hc & Hlen) & Hrows & Hcols). split.
    + repeat split; simpl; try assumption. unfold ndarray.flatten. now rewrite length_map.
    + simpl. unfold ndarray.flatten. apply Forall_forall. intros v Hv.
      apply in_map_iff in Hv as (v0 & <- & Hv0).
      rewrite Forall_forall in IHpos. specialize (IHpos _ Hv0).
      apply Rmult_le_pos; [exact IHpos | left; apply exp_pos].
Qed.

Lemma getitem_in_data {A : Type} (arr : ndarray.t A) (i j : Z) (v : A) :
  ndarray.getitem arr i j = Ok v -> In v (ndarray.data arr).
Proof.
  unfold ndarray.getitem. destruct (ndarray.offset arr i j) as [k|]; [simpl|discriminate].
  destruct (nth_error _ k) eqn:Hn; [|discriminate].
  intros [= <-]. eapply nth_error_In; eauto.
Qed.

(** With the exact solution, a step over [dt > 0] raises no cell. *)
Lemma step_not_above (self : Map.t) (dt : R) :
  reachable self ->
  (0 < Map.evaporation_rate self <= 1)%R -> (0 < dt)%R ->
  exists self',
    Map.step self dt self' /\
    forall i j v,
      ndarray.getitem (Map.map_vals self) i j = Ok v ->
      exists v', ndarray.getitem (Map.map_vals self') i j = Ok v' /\ (v' <= v)%R.
Proof.
  intros Hreach Hrate Hdt. exists (Map.decay self dt).
  split; [now apply step_iff_decay|].
  intros i j v Hv. eexists. split; [apply (decay_cell _ dt _ _ Hv)|].
  destruct (reachable_invariant Hreach) as [_ Hpos].
  rewrite Forall_forall in Hpos. specialize (Hpos _ (getitem_in_data _ _ _ Hv)).
  assert (Hln : (ln (Map.evaporation_rate self) <= 0)%R).
  { destruct Hrate as [H0 [Hlt|Heq]].
    - left. rewrite <- ln_1. now apply ln_increasing.
    - rewrite Heq, ln_1. lra. }
  assert (Hexp : (exp (- - ln (Map.evaporation_rate self) * dt) <= 1)%R).
  { rewrite <- exp_0.
    destruct (Req_dec (ln (Map.evaporation_rate self)) 0) as [Hz|Hnz].
    - rewrite Hz. right. f_equal. ring.
    - left. apply exp_increasing. nra. }
  pose proof (exp_pos (- - ln (Map.evaporation_rate self) * dt)). nra.
Qed.

(** ** A step with an integrator that is not exact *)

Lemma Rabs_le_bounds (a b : R) : (Rabs a <= b)%R -> (- b <= a <= b)%R.
Proof.
  intros H. pose proof (Rle_abs a) as H1. pose proof (Rle_abs (- a)) as H2.
  rewrite Rabs_Ropp in H2. lra.
Qed.

Lemma written_reachable (self : Map.t) : written self -> reachable self.
Proof.
  induction 1 as [w h mv rate self Hinit|self self' x y val _ IH Hset].
  - now apply (@reachable_init w h mv rate).
  - now apply (@reachable_set_value self self' x y val).
Qed.

(** With no error allowed the integrator is the exact one. *)
Lemma step_within_exact (self : Map.t) (dt : R) (self' : Map.t) :
  step_within 0 self dt self' <-> Map.step self dt self'.
Proof.
  unfold step_within, Map.step, integrate_within, Map.integrate. cbv zeta. split.
  - intros (y1 & (y & Hsol & Hlen & Hnear) & ->). exists y1. split; [|reflexivity].
    exists y. split; [exact Hsol|].
    destruct Hsol as (_ & Hl & _). specialize (Hl dt).
    apply (nth_ext _ _ 0%R 0%R); [congruence|]. intros i _.
    specialize (Hnear i). apply Rabs_le_bounds in Hnear. lra.
  - intros (y1 & (y & Hsol & <-) & ->). exists (y dt). split; [|reflexivity].
    exists y. split; [exact Hsol|]. split; [apply Hsol|].
    intros i. rewrite Rminus_diag, Rabs_R0. lra.
Qed.

(** Every cell of the result is within [tol] of the decayed cell. *)
Lemma step_within_cell (tol : R) (self self' : Map.t) (dt : R) (i j : Z) (v : R) :
  step_within tol self dt self' ->
  ndarray.getitem (Map.map_vals self) i j = Ok v ->
  exists v',
    ndarray.getitem (Map.map_vals self') i j = Ok v' /\
    (Rabs (v' - v * exp (- - ln (Map.evaporation_rate self) * dt)) <= tol)%R.
Proof.
  unfold step_within, integrate_within. cbv zeta.
  intros (y1 & (y & Hsol & Hlen & Hnear) & ->) Hv.
  rewrite (@solution_is_closed_form _ _ y dt Hsol) in Hnear.
  unfold ndarray.getitem, ndarray.offset in *.
  cbn [Map.with_map_vals Map.map_vals ndarray.reshape_like
       ndarray.rows ndarray.cols ndarray.data].
  destruct (ndarray.axis_index (ndarray.rows (Map.map_vals self)) i) as [i'|];
    [|discriminate].
  cbn [res_bind] in *.
  destruct (ndarray.axis_index (ndarray.cols (Map.map_vals self)) j) as [j'|];
    [|discriminate].
  cbn [res_bind] in *.
  set (n := Z.to_nat (i' * ndarray.cols (Map.map_vals self) + j')) in *.
  destruct (nth_error (ndarray.data (Map.map_vals self)) n) as [v0|] eqn:Hn; [|discriminate].
  injection Hv as ->.
  assert (Hlt : (n < length y1)%nat).
  { rewrite Hlen. unfold ndarray.flatten. apply nth_error_Some. congruence. }
  destruct (nth_error y1 n) as [v'|] eqn:Hn'; [|apply nth_error_None in Hn'; lia].
  exists v'. split; [reflexivity|].
  specialize (Hnear n). rewrite nth_map_scaled in Hnear. unfold ndarray.flatten in Hnear.
  rewrite (nth_error_nth _ _ 0%R Hn'), (nth_error_nth _ _ 0%R Hn) in Hnear.
  exact Hnear.
Qed.

Lemma step_within_exists (tol : R) (self : Map.t) (dt : R) :
  (0 <= tol)%R -> exists self', step_within tol self dt self'.
Proof.
  intros Htol. destruct (step_total self dt) as (self' & Hs). exists self'.
  apply step_within_exact in Hs.
  unfold step_within, integrate_within in *. cbv zeta in *.
  destruct Hs as (y1 & (y & Hsol & Hlen & Hnear) & ->). exists y1. split; [|reflexivity].
  exists y. split; [exact Hsol|]. split; [exact Hlen|].
  intros i. specialize (Hnear i). lra.
Qed.

Lemma decay_factor_le_1 (rate dt : R) :
  (0 < rate <= 1)%R -> (0 <= dt)%R -> (0 < exp (- - ln rate * dt) <= 1)%R.
Proof.
  intros Hrate Hdt. split; [apply exp_pos|].
  assert (Hln : (ln rate <= 0)%R).
  { destruct Hrate as [H0 [Hlt|Heq]].
    - left. rewrite <- ln_1. now apply ln_increasing.
    - rewrite Heq, ln_1. lra. }
  rewrite <- exp_0.
  destruct (Req_dec (ln rate * dt) 0) as [Hz|Hnz].
  - right. f_equal. lra.
  - left. apply exp_increasing. nra.
Qed.

(** C7, as the code has it: a returning [set_value] lowers no cell; on a
    well-formed map and integer coordinates it returns, writes [val] into
    the cell when the cell is in bounds and holds less than [val], and
    changes nothing otherwise; and on a map obtained from a fresh one by
    writes, a step over [dt > 0] (retention in (0, 1]) leaves every cell
    at or below its value before the step plus the error [tol] of the
    integrator on that call. *)
Theorem field_write_monotonicity :
  (forall (self self' : Map.t) (x y : pynum) (val : R),
      Map.set_value self x y val = Ok self' ->
      forall i j v,
        ndarray.getitem (Map.map_vals self) i j = Ok v ->
        exists v', ndarray.getitem (Map.map_vals self') i j = Ok v' /\ (v <= v')%R) /\
  (forall (self : Map.t) (x y : Z) (val : R),
      Map.well_formed self ->
      exists self',
        Map.set_value self (PyInt x) (PyInt y) val = Ok self' /\
        Map.well_formed self' /\
        if Map.in_bounds self (PyInt (x / 4)) (PyInt (y / 4)) then
          exists cur,
            ndarray.getitem (Map.map_vals self) (y / 4) (x / 4) = Ok cur /\
            ((val > cur)%R ->
             ndarray.getitem (Map.map_vals self') (y / 4) (x / 4) = Ok val) /\
            ((val <= cur)%R -> self' = self)
        else self' = self) /\
  (forall (tol : R) (self : Map.t) (dt : R),
      written self ->
      (0 < Map.evaporation_rate self <= 1)%R -> (0 < dt)%R -> (0 <= tol)%R ->
      (exists self', step_within tol self dt self') /\
      forall self',
        step_within tol self dt self' ->
        forall i j v,
          ndarray.getitem (Map.map_vals self) i j = Ok v ->
          exists v',
            ndarray.getitem (Map.map_vals self') i j = Ok v' /\ (v' <= v + tol)%R).
Proof.
  split; [exact set_value_monotone|]. split; [exact set_value_int|].
  intros tol self dt Hwritten Hrate Hdt Htol.
  split; [now apply step_within_exists|].
  intros self' Hstep i j v Hv.
  destruct (step_within_cell i j Hstep Hv) as (v' & Hv' & Hnear).
  exists v'. split; [exact Hv'|].
  destruct (reachable_invariant (written_reachable Hwritten)) as [_ Hpos].
  rewrite Forall_forall in Hpos. specialize (Hpos _ (getitem_in_data _ _ _ Hv)).
  destruct (@decay_factor_le_1 (Map.evaporation_rate self) dt Hrate) as [Hf0 Hf1]; [lra|].
  apply Rabs_le_bounds in Hnear.
  revert Hnear Hf0 Hf1. generalize (exp (- - ln (Map.evaporation_rate self) * dt)).
  intros f Hnear Hf0 Hf1. nra.
Qed.

Lemma fresh_map_2x1 :
  Map.init 2 1 100 0.999 = Ok (Map.mk 2 1 100 0.999 (ndarray.mk 1 2 [0; 0]%R)).
Proof. reflexivity. Qed.

Lemma field_write_monotonicity_witness :
  let fresh := Map.mk 2 1 100 0.999 (ndarray.mk 1 2 [0; 0]%R) in
  exists after_write,
    Map.set_value fresh (PyInt 5) (PyInt 0) 80 = Ok after_write /\
    ndarray.getitem (Map.map_vals after_write) 0 1 = Ok 80%R /\
    exists stepped,
      step_within 0.000000000001 after_write 0.45 stepped /\
      exists v', ndarray.getitem (Map.map_vals stepped) 0 1 = Ok v' /\
                 (v' <= 80 + 0.000000000001)%R.
Proof.
  intros fresh.
  destruct field_write_monotonicity as (_ & Hwrite & Hstep).
  assert (Hwf : Map.well_formed fresh) by (repeat split; simpl; lia).
  destruct (Hwrite fresh 5%Z 0%Z 80%R Hwf) as (after_write & Hset & _ & Hcell).
  change (Map.in_bounds fresh (PyInt (5 / 4)) (PyInt (0 / 4))) with true in Hcell.
  destruct Hcell as (cur & Hcur & Hgt & _).
  change (ndarray.getitem (Map.map_vals fresh) (0 / 4) (5 / 4)) with (Ok 0%R) in Hcur.
  injection Hcur as Hcur.
  assert (Hget : ndarray.getitem (Map.map_vals after_write) 0 1 = Ok 80%R)
    by (apply Hgt; lra).
  exists after_write. split; [exact Hset|]. split; [exact Hget|].
  assert (Hw : written after_write).
  { eapply written_set_value; [|exact Hset].
    eapply written_init. exact fresh_map_2x1. }
  assert (Hrate : (0 < Map.evaporation_rate after_write <= 1)%R).
  { destruct (set_value_cases _ _ _ _ Hset) as [Heq|(i & j & k & c & _ & _ & _ & Heq)];
      rewrite Heq; simpl; lra. }
  destruct (Hstep 0.000000000001%R after_write 0.45%R Hw Hrate ltac:(lra) ltac:(lra))
    as ((stepped & Hs) & Hcells).
  exists stepped. split; [exact Hs|]. exact (Hcells stepped Hs _ _ _ Hget).
Defined.

(** The claim as written fails: an integrator that is off by no more
    than 1e-12 on a cell can return more than the cell held. Here the
    cell holds [2^-50] before a step of [dt = 100000]. *)
Lemma field_write_monotonicity_counterexample :
  let fresh := Map.mk 2 1 100 0.999 (ndarray.mk 1 2 [0; 0]%R) in
  exists after_write stepped v v',
    Map.set_value fresh (PyInt 0) (PyInt 0) (/ 1125899906842624) = Ok after_write /\
    step_within 0.000000000001 after_write 100000 stepped /\
    ndarray.getitem (Map.map_vals after_write) 0 0 = Ok v /\
    ndarray.getitem (Map.map_vals stepped) 0 0 = Ok v' /\
    ~ (v' <= v)%R.
Proof.
  intros fresh.
  set (w := (/ 1125899906842624)%R).
  assert (Hw : (0 < w < 0.000000000001)%R).
  { unfold w. split; [apply Rinv_0_lt_compat; lra|].
    apply Rmult_lt_reg_r with 1125899906842624%R; [lra|].
    rewrite Rinv_l by lra. lra. }
  set (after_write := Map.mk 2 1 100 0.999 (ndarray.mk 1 2 [w; 0]%R)).
  assert (Hset : Map.set_value fresh (PyInt 0) (PyInt 0) w = Ok after_write).
  { unfold Map.set_value, fresh. cbn [Num.floordiv4].
    change (Map.in_bounds _ (PyInt (0 / 4)) (PyInt (0 / 4))) with true. cbv iota.
    change (index_get _ (PyInt (0 / 4)) (PyInt (0 / 4))) with (@Ok R 0%R).
    cbn [res_bind]. destruct (Rgt_dec w 0) as [_|Hn]; [|exfalso; apply Hn; lra].
    reflexivity. }
  set (f := exp (- - ln 0.999 * 100000)).
  assert (Hf : (0 < f)%R) by apply exp_pos.
  exists after_write, (Map.mk 2 1 100 0.999 (ndarray.mk 1 2 [w * f + 0.000000000001; 0 * f]%R)),
         w, (w * f + 0.000000000001)%R.
  split; [exact Hset|]. split; [|split; [reflexivity|]; split; [reflexivity|]; nra].
  unfold step_within, integrate_within. cbv zeta.
  exists [w * f + 0.000000000001; 0 * f]%R. split; [|reflexivity].
  eexists. split; [apply closed_form_solves|]. split; [reflexivity|].
  intros i. cbn [after_write Map.map_vals Map.evaporation_rate ndarray.flatten ndarray.data map].
  fold f.
  destruct i as [|[|i]]; cbn [nth].
  - replace (w * f + 0.000000000001 - w * f)%R with 0.000000000001%R by ring.
    rewrite Rabs_pos_eq; lra.
  - rewrite Rminus_diag, Rabs_R0. lra.
  - destruct i; rewrite Rminus_diag, Rabs_R0; lra.
Qed.

(** ** Bounds of the grid operations *)

Lemma for_each_invariant {A S : Type} (P : S -> Prop) (l : list A)
      (body : A -> S -> res S) (s : S) :
  (forall i s, In i l -> P s -> exists s', body i s = Ok s' /\ P s') ->
  P s -> exists s', for_each l body s = Ok s' /\ P s'.
Proof.
  revert s. induction l as [|i l IH]; intros s Hbody Hs; simpl.
  - now exists s.
  - destruct (Hbody i s (or_introl eq_refl) Hs) as (s1 & -> & Hs1). simpl.
    apply IH; [|exact Hs1]. intros j s2 Hj. apply Hbody. now right.
Qed.

Lemma for_each_nil_range {S : Type} (lo hi : Z) (body : Z -> S -> res S) (s : S) :
  (hi <= lo)%Z -> for_each (py_range lo hi) body s = Ok s.
Proof.
  intros Hle. unfold py_range. replace (Z.to_nat (hi - lo)) with O by lia. reflexivity.
Qed.

Lemma in_py_range (lo hi i : Z) : In i (py_range lo hi) -> (lo <= i < hi)%Z.
Proof.
  unfold py_range. intros Hi. apply in_map_iff in Hi as (k & <- & Hk).
  apply in_seq in Hk. lia.
Qed.

Lemma map_get_value_int (self : Map.t) (x y : Z) :
  Map.well_formed self -> returns (Map.get_value self (PyInt x) (PyInt y)).
Proof.
  intros (Hwf & Hrows & Hcols). unfold Map.get_value. simpl.
  destruct (Map.in_bounds self _ _) eqn:Hb; [|eexists; reflexivity].
  apply in_bounds_int in Hb as [Hx Hy]. rewrite <- Hrows in Hy. rewrite <- Hcols in Hx.
  exact (getitem_returns Hwf Hy Hx).
Qed.

Lemma map_weighted_direction_int (self : Map.t) (x y : Z) :
  Map.well_formed self -> returns (Map.get_weighted_direction self (PyInt x) (PyInt y)).
Proof.
  intros (Hwf & Hrows & Hcols). unfold Map.get_weighted_direction.
  match goal with
  | |- returns (res_bind (for_each ?l ?body ?s) _) =>
      destruct (@for_each_invariant _ _ (fun _ => True) l body s) as (acc & -> & _)
  end.
  - intros [dx dy] [[sum_dx sum_dy] total] _ _. simpl.
    destruct (Map.in_bounds self _ _) eqn:Hb; [|eexists; split; [reflexivity|exact I]].
    apply in_bounds_int in Hb as [Hx Hy]. rewrite <- Hrows in Hy. rewrite <- Hcols in Hx.
    unfold index_get. simpl.
    destruct (getitem_returns Hwf Hy Hx) as [v ->]. simpl.
    eexists. split; [reflexivity|exact I].
  - exact I.
  - destruct acc as [[sum_dx sum_dy] total]. simpl.
    destruct (Rgt_dec total 0); eexists; reflexivity.
Qed.

Lemma food_in_bounds_int (self : Food.t) (gx gy : Z) :
  Food.in_bounds self (PyInt gx) (PyInt gy) = true <->
  (0 <= gx < Food.width self)%Z /\ (0 <= gy < Food.height self)%Z.
Proof.
  unfold Food.in_bounds. rewrite !in_range_int, !andb_true_iff, !Z.leb_le, !Z.ltb_lt.
  tauto.
Qed.

Lemma food_get_value_int (self : Food.t) (x y : Z) :
  Food.well_formed self -> returns (Food.get_value self (PyInt x) (PyInt y)).
Proof.
  intros (Hwf & Hrows & Hcols). unfold Food.get_value. simpl.
  destruct (Food.in_bounds self _ _) eqn:Hb; [|eexists; reflexivity].
  apply food_in_bounds_int in Hb as [Hx Hy]. rewrite <- Hrows in Hy. rewrite <- Hcols in Hx.
  exact (getitem_returns Hwf Hy Hx).
Qed.

Lemma food_bite_int (self : Food.t) (x y : Z) :
  Food.well_formed self ->
  exists self', Food.bite self (PyInt x) (PyInt y) = Ok self' /\ Food.well_formed self'.
Proof.
  intros Hself. pose proof Hself as (Hwf & Hrows & Hcols). unfold Food.bite. simpl.
  destruct (Food.in_bounds self _ _) eqn:Hb; [|now exists self].
  apply food_in_bounds_int in Hb as [Hx Hy]. rewrite <- Hrows in Hy. rewrite <- Hcols in Hx.
  unfold index_set. simpl.
  destruct (setitem_returns false Hwf Hy Hx) as (arr & -> & Hwf' & Hr & Hc & _). simpl.
  eexists. split; [reflexivity|]. split; [exact Hwf'|]. simpl. split; congruence.
Qed.

(** [add_food] from a cell origin that is not negative: every write of
    the clipped block lands inside the array. *)
Lemma food_add_food_nonneg (self : Food.t) (x y : Z) :
  Food.well_formed self -> (0 <= x)%Z -> (0 <= y)%Z ->
  exists self', Food.add_food self (PyInt x) (PyInt y) = Ok self' /\ Food.well_formed self'.
Proof.
  intros (Hwf & Hrows & Hcols) Hx Hy. unfold Food.add_food. simpl.
  set (P := fun arr : ndarray.t bool =>
              ndarray.well_formed arr /\
              ndarray.rows arr = Food.height self /\ ndarray.cols arr = Food.width self).
  match goal with
  | |- exists _, res_bind (for_each ?l ?body ?s) _ = _ /\ _ =>
      destruct (@for_each_invariant _ _ P l body s) as (arr & -> & Harr)
  end.
  - intros i arr Hi Harr. apply in_py_range in Hi.
    apply for_each_invariant; [|exact Harr].
    intros j arr1 Hj (Hwf1 & Hr1 & Hc1). apply in_py_range in Hj.
    assert (Hi' : (0 <= i < ndarray.rows arr1)%Z).
    { rewrite Hr1. pose proof (Z.div_pos y 4). lia. }
    assert (Hj' : (0 <= j < ndarray.cols arr1)%Z).
    { rewrite Hc1. pose proof (Z.div_pos x 4). lia. }
    destruct (setitem_returns true Hwf1 Hi' Hj') as (arr2 & -> & Hwf2 & Hr2 & Hc2 & _).
    exists arr2. split; [reflexivity|]. split; [exact Hwf2|]. split; congruence.
  - now split.
  - simpl. eexists. split; [reflexivity|]. exact Harr.
Qed.

Lemma for_each_unchanged {A S : Type} (l : list A) (body : A -> S -> res S) (s : S) :
  (forall i, In i l -> body i s = Ok s) -> for_each l body s = Ok s.
Proof.
  induction l as [|i l IH]; intros Hbody; simpl; [reflexivity|].
  rewrite (Hbody i (or_introl eq_refl)). simpl. apply IH.
  intros j Hj. apply Hbody. now right.
Qed.

Lemma food_add_food_beyond (self : Food.t) (x y : Z) :
  (Food.width self <= x / 4)%Z \/ (Food.height self <= y / 4)%Z ->
  Food.add_food self (PyInt x) (PyInt y) = Ok self.
Proof.
  intros Hout. unfold Food.add_food. simpl.
  rewrite for_each_unchanged; [destruct self; reflexivity|].
  intros i Hi. apply in_py_range in Hi.
  apply for_each_nil_range. lia.
Qed.

Lemma map_out_of_bounds (self : Map.t) (x y : pynum) (val : R) :
  Map.in_bounds self (Num.floordiv4 x) (Num.floordiv4 y) = false ->
  Map.get_value self x y = Ok (-1)%R /\ Map.set_value self x y val = Ok self.
Proof.
  intros Hb. unfold Map.get_value, Map.set_value. now rewrite Hb.
Qed.

Lemma food_out_of_bounds (self : Food.t) (x y : pynum) :
  Food.in_bounds self (Num.floordiv4 x) (Num.floordiv4 y) = false ->
  Food.get_value self x y = Ok false /\ Food.bite self x y = Ok self.
Proof.
  intros Hb. unfold Food.get_value, Food.bite. now rewrite Hb.
Qed.

(** C2, as the code has it: on integer coordinates, however far out,
    [get_value], [set_value] and [get_weighted_direction] of the map and
    [get_value] and [bite] of the food grid return; [add_food] returns for
    coordinates that are not negative, and changes nothing when its block
    starts past the last column or row.  For any coordinates, integer or
    float, whose mapped cell is outside the grid, the reads return -1 and
    [False] and [set_value] and [bite] change nothing. *)
Theorem bounds_safety (self : Map.t) (food : Food.t) :
  Map.well_formed self -> Food.well_formed food ->
  (forall (x y : Z) (val : R),
      returns (Map.get_value self (PyInt x) (PyInt y)) /\
      returns (Map.set_value self (PyInt x) (PyInt y) val) /\
      returns (Map.get_weighted_direction self (PyInt x) (PyInt y)) /\
      returns (Food.get_value food (PyInt x) (PyInt y)) /\
      returns (Food.bite food (PyInt x) (PyInt y)) /\
      ((0 <= x)%Z -> (0 <= y)%Z -> returns (Food.add_food food (PyInt x) (PyInt y))) /\
      ((Food.width food <= x / 4)%Z \/ (Food.height food <= y / 4)%Z ->
       Food.add_food food (PyInt x) (PyInt y) = Ok food) /\
      (Map.in_bounds self (PyInt (x / 4)) (PyInt (y / 4)) = true <->
       (0 <= x / 4 < Map.width self)%Z /\ (0 <= y / 4 < Map.height self)%Z) /\
      (Food.in_bounds food (PyInt (x / 4)) (PyInt (y / 4)) = true <->
       (0 <= x / 4 < Food.width food)%Z /\ (0 <= y / 4 < Food.height food)%Z)) /\
  (forall (x y : pynum) (val : R),
      Map.in_bounds self (Num.floordiv4 x) (Num.floordiv4 y) = false ->
      Map.get_value self x y = Ok (-1)%R /\ Map.set_value self x y val = Ok self) /\
  (forall x y : pynum,
      Food.in_bounds food (Num.floordiv4 x) (Num.floordiv4 y) = false ->
      Food.get_value food x y = Ok false /\ Food.bite food x y = Ok food).
Proof.
  intros Hself Hfood. split; [|split].
  - intros x y val.
    split; [now apply map_get_value_int|].
    split; [destruct (set_value_int x y val Hself) as (s & Hs & _); now exists s|].
    split; [now apply map_weighted_direction_int|].
    split; [now apply food_get_value_int|].
    split; [destruct (food_bite_int x y Hfood) as (s & Hs & _); now exists s|].
    split.
    { intros Hx Hy. destruct (food_add_food_nonneg Hfood Hx Hy) as (s & Hs & _).
      now exists s. }
    split; [apply food_add_food_beyond|].
    split; [apply in_bounds_int | apply food_in_bounds_int].
  - intros x y val. apply map_out_of_bounds.
  - intros x y. apply food_out_of_bounds.
Qed.

Lemma bounds_safety_witness :
  let self := Map.mk 2 1 100 0.999 (ndarray.mk 1 2 [7; 0]%R) in
  let food := Food.mk 2 1 (ndarray.mk 1 2 [true; false]) in
  returns (Map.get_weighted_direction self (PyInt (-1000000)) (PyInt 1000000)) /\
  Map.get_value self (PyInt (-1000000)) (PyInt 1000000) = Ok (-1)%R /\
  Food.bite food (PyInt (-1000000)) (PyInt 1000000) = Ok food /\
  Food.add_food food (PyInt 1000000) (PyInt 1000000) = Ok food /\
  Map.get_value self (PyFloat (Inf true)) (PyFloat Nan) = Ok (-1)%R.
Proof.
  intros self food.
  assert (Hself : Map.well_formed self) by (repeat split; simpl; lia).
  assert (Hfood : Food.well_formed food) by (repeat split; simpl; lia).
  destruct (@bounds_safety self food Hself Hfood) as (Hint & Hmap & Hbite).
  destruct (Hint (-1000000)%Z 1000000%Z 0%R) as (_ & _ & Hwd & _).
  destruct (Hint 1000000%Z 1000000%Z 0%R) as (_ & _ & _ & _ & _ & _ & Hadd & _).
  split; [exact Hwd|].
  split; [apply (Hmap (PyInt (-1000000)) (PyInt 1000000) 0%R); reflexivity|].
  split; [apply (Hbite (PyInt (-1000000)) (PyInt 1000000)); reflexivity|].
  split; [|apply (Hmap (PyFloat (Inf true)) (PyFloat Nan) 0%R); reflexivity].
  apply Hadd. unfold food. simpl. Z.to_euclidean_division_equations. lia.
Defined.

(** Comparisons of reals that [lra] settles. *)
Ltac r_case d := destruct d as [?H|?H]; try (exfalso; lra).

Ltac r_decide :=
  repeat match goal with
         | |- context [Rle_dec ?a ?b] => r_case (Rle_dec a b)
         | |- context [Rlt_dec ?a ?b] => r_case (Rlt_dec a b)
         | |- context [Rgt_dec ?a ?b] => r_case (Rgt_dec a b)
         | |- context [Req_EM_T ?a ?b] => r_case (Req_EM_T a b)
         end.

Lemma floordiv4_float_5 :
  Num.floordiv4 (PyFloat (Finite 5)) = PyFloat (Finite 1).
Proof.
  simpl. do 2 f_equal. rewrite (@Zfloor_eq 1 (5 / 4)); [reflexivity | lra].
Qed.

Lemma floordiv4_float_0 :
  Num.floordiv4 (PyFloat (Finite 0)) = PyFloat (Finite 0).
Proof.
  simpl. do 2 f_equal. rewrite (@Zfloor_eq 0 (0 / 4)); [reflexivity | lra].
Qed.

(** A float that maps to a cell of the grid is refused as an index. *)
Lemma get_value_float_raises :
  Map.get_value (Map.mk 2 1 100 0.999 (ndarray.mk 1 2 [7; 0]%R))
                (PyFloat (Finite 5)) (PyFloat (Finite 0))
  = Raise IndexError.
Proof.
  unfold Map.get_value. rewrite floordiv4_float_5, floordiv4_float_0.
  unfold Map.in_bounds, Num.in_range, Num.int_le, Num.lt_int. simpl.
  r_decide. reflexivity.
Qed.

(** [add_food] clips its block at the last row and column only: a block
    that starts left of the grid is written through negative indices,
    which numpy counts from the end, or refuses when too far out. *)
Lemma add_food_far_negative_raises :
  Food.add_food (Food.mk 8 1 (ndarray.mk 1 8 (repeat false 8)))
                (PyInt (-4000)) (PyInt 0)
  = Raise IndexError.
Proof. reflexivity. Qed.

Lemma add_food_negative_wraps :
  Food.add_food (Food.mk 8 1 (ndarray.mk 1 8 (repeat false 8)))
                (PyInt (-4)) (PyInt 0)
  = Ok (Food.mk 8 1 (ndarray.mk 1 8 [true; true; true; true; false; false; false; true])).
Proof. reflexivity. Qed.

(** C2 as stated fails: a float coordinate inside the grid makes
    [get_value] raise, and a far negative integer coordinate makes
    [add_food] raise. *)
Lemma bounds_safety_counterexample :
  ~ bounds_safe (PyFloat (Finite 5)) (PyFloat (Finite 0)) /\
  ~ bounds_safe (PyInt (-4000)) (PyInt 0).
Proof.
  split; intros Hsafe.
  - destruct (Hsafe (Map.mk 2 1 100 0.999 (ndarray.mk 1 2 [7; 0]%R))
                    (Food.mk 2 1 (ndarray.mk 1 2 [true; false])) 0%R)
      as ([v Hv] & _).
    + repeat split; simpl; lia.
    + repeat split; simpl; lia.
    + rewrite get_value_float_raises in Hv. discriminate.
  - destruct (Hsafe (Map.mk 8 1 100 0.999 (ndarray.mk 1 8 (repeat 0%R 8)))
                    (Food.mk 8 1 (ndarray.mk 1 8 (repeat false 8))) 0%R)
      as (_ & _ & _ & _ & _ & [v Hv]).
    + repeat split; simpl; lia.
    + repeat split; simpl; lia.
    + rewrite add_food_far_negative_raises in Hv. discriminate.
Qed.

(** ** Running code over the shared state *)

Lemma bind_ok {A B : Type} (c : M A) (k : A -> M B) (s : Shared) (r : B * Shared) :
  bind c k s = Ok r -> exists a s1, c s = Ok (a, s1) /\ k a s1 = Ok r.
Proof.
  unfold bind. destruct (c s) as [[a s1]|e]; [|discriminate].
  intros Hk. now exists a, s1.
Qed.

Lemma ret_ok {A : Type} (a b : A) (s s' : Shared) :
  ret a s = Ok (b, s') -> b = a /\ s' = s.
Proof. unfold ret. now intros [= <- <-]. Qed.

Lemma with_rng_ok {A : Type} (draw : ManualRNG.t -> A * ManualRNG.t)
      (s s' : Shared) (v : A) :
  with_rng draw s = Ok (v, s') ->
  draw (rng s) = (v, rng s') /\ home_map s' = home_map s /\ food_map s' = food_map s.
Proof.
  unfold with_rng. destruct (draw (rng s)) as [v0 g]. now intros [= <- <-].
Qed.

Lemma with_rng_res_ok {A : Type} (draw : ManualRNG.t -> res (A * ManualRNG.t))
      (s s' : Shared) (v : A) :
  with_rng_res draw s = Ok (v, s') ->
  draw (rng s) = Ok (v, rng s') /\ home_map s' = home_map s /\ food_map s' = food_map s.
Proof.
  unfold with_rng_res. destruct (draw (rng s)) as [[v0 g]|e]; [|discriminate].
  now intros [= <- <-].
Qed.

Lemma home_map_read_ok {A : Type} (f : Map.t -> res A) (s s' : Shared) (v : A) :
  home_map_read f s = Ok (v, s') -> f (home_map s) = Ok v /\ s' = s.
Proof.
  unfold home_map_read. destruct (f (home_map s)); [|discriminate]. now intros [= <- <-].
Qed.

Lemma food_map_read_ok {A : Type} (f : Map.t -> res A) (s s' : Shared) (v : A) :
  food_map_read f s = Ok (v, s') -> f (food_map s) = Ok v /\ s' = s.
Proof.
  unfold food_map_read. destruct (f (food_map s)); [|discriminate]. now intros [= <- <-].
Qed.

Lemma home_map_write_ok (f : Map.t -> res Map.t) (s s' : Shared) (u : unit) :
  home_map_write f s = Ok (u, s') ->
  f (home_map s) = Ok (home_map s') /\ rng s' = rng s /\ food_map s' = food_map s.
Proof.
  unfold home_map_write. destruct (f (home_map s)); [|discriminate]. now intros [= <- <-].
Qed.

Lemma food_map_write_ok (f : Map.t -> res Map.t) (s s' : Shared) (u : unit) :
  food_map_write f s = Ok (u, s') ->
  f (food_map s) = Ok (food_map s') /\ rng s' = rng s /\ home_map s' = home_map s.
Proof.
  unfold food_map_write. destruct (f (food_map s)); [|discriminate]. now intros [= <- <-].
Qed.

Lemma lift_res_ok {A : Type} (r : res A) (s s' : Shared) (v : A) :
  lift_res r s = Ok (v, s') -> r = Ok v /\ s' = s.
Proof.
  unfold lift_res. destruct r; [|discriminate]. now intros [= <- <-].
Qed.

(** Take apart a hypothesis that says a computation returned. *)
Ltac m_inv :=
  repeat match goal with
         | H : bind _ _ _ = Ok _ |- _ =>
             let a := fresh "a" in
             let s := fresh "s" in
             let H1 := fresh "Hc" in
             let H2 := fresh "Hk" in
             apply bind_ok in H; destruct H as (a & s & H1 & H2)
         | H : ret _ _ = Ok (_, _) |- _ =>
             apply ret_ok in H; destruct H as [? ?]; subst
         | H : rng_random _ = Ok (_, _) |- _ =>
             apply with_rng_ok in H; destruct H as (? & ? & ?)
         | H : rng_uniform _ _ _ = Ok (_, _) |- _ =>
             apply with_rng_ok in H; destruct H as (? & ? & ?)
         | H : rng_randint _ _ _ = Ok (_, _) |- _ =>
             apply with_rng_ok in H; destruct H as (? & ? & ?)
         | H : rng_normal _ _ _ = Ok (_, _) |- _ =>
             apply with_rng_res_ok in H; destruct H as (? & ? & ?)
         | H : home_map_read _ _ = Ok (_, _) |- _ =>
             apply home_map_read_ok in H; destruct H as [? ?]; subst
         | H : food_map_read _ _ = Ok (_, _) |- _ =>
             apply food_map_read_ok in H; destruct H as [? ?]; subst
         | H : home_map_write _ _ = Ok (_, _) |- _ =>
             apply home_map_write_ok in H; destruct H as (? & ? & ?)
         | H : food_map_write _ _ = Ok (_, _) |- _ =>
             apply food_map_write_ok in H; destruct H as (? & ? & ?)
         | H : lift_res _ _ = Ok (_, _) |- _ =>
             apply lift_res_ok in H; destruct H as [? ?]; subst
         | H : (if ?b then _ else _) _ = Ok _ |- _ => destruct b
         end.

Ltac pair_inv :=
  repeat match goal with
         | H : (_, _) = (_, _) |- _ => inversion H; clear H; subst
         end.

Lemma same_but_velocity_refl (a : Ant.t) : same_but_velocity a a.
Proof. repeat split. Qed.

Lemma same_but_velocity_trans (a b c : Ant.t) :
  same_but_velocity a b -> same_but_velocity b c -> same_but_velocity a c.
Proof.
  unfold same_but_velocity. intros Hab Hbc.
  repeat match goal with H : _ /\ _ |- _ => destruct H end.
  repeat split; congruence.
Qed.

Lemma perturb_frame (dt : R) (self a : Ant.t) (s s' : Shared) :
  Ant.perturb dt self s = Ok (a, s') ->
  home_map s' = home_map s /\ food_map s' = food_map s /\ same_but_velocity self a.
Proof.
  unfold Ant.perturb. intros H. m_inv;
    (split; [congruence | split; [congruence | repeat split]]).
Qed.

Lemma steer_frame (dt : R) (self a : Ant.t) (s s' : Shared) :
  Ant.steer dt self s = Ok (a, s') ->
  home_map s' = home_map s /\ food_map s' = food_map s /\ same_but_velocity self a.
Proof.
  unfold Ant.steer. intros H.
  destruct (Ant.bored self >? 0)%Z.
  - m_inv. repeat split.
  - destruct (Ant.has_food self); m_inv;
      (split; [congruence | split; [congruence | repeat split]]).
Qed.

(** ** One step of an ant *)

Lemma step_phases (dt : R) (self self' : Ant.t) (s s' : Shared) :
  Ant.step dt self s = Ok (self', s') ->
  exists a1 s1 a2 s2,
    Ant.perturb dt self s = Ok (a1, s1) /\
    Ant.steer dt a1 s1 = Ok (a2, s2) /\
    Ant.deposit (Ant.move dt (Ant.clamp (Ant.boundary a2))) s2 = Ok (self', s').
Proof.
  unfold Ant.step. intros H.
  apply bind_ok in H as (a1 & s1 & H1 & H).
  apply bind_ok in H as (a2 & s2 & H2 & H).
  now exists a1, s1, a2, s2.
Qed.

Lemma boundary_frame (a : Ant.t) : same_but_velocity a (Ant.boundary a).
Proof.
  unfold Ant.boundary.
  repeat match goal with |- context [if ?d then _ else _] => destruct d end;
    repeat split.
Qed.

Lemma clamp_velocity (a : Ant.t) :
  velocity_clamped (Ant.clamp a) /\ same_but_velocity a (Ant.clamp a).
Proof.
  unfold velocity_clamped, Ant.clamp. simpl. split; [|repeat split].
  split; (split; [apply Rmax_r | apply Rmax_lub; [apply Rmin_r | lra]]).
Qed.

(** What [deposit] does to the ant and to the maps. *)
Lemma deposit_spec (a a' : Ant.t) (s s' : Shared) :
  Ant.deposit a s = Ok (a', s') ->
  rng s' = rng s /\
  Ant.dx a' = Ant.dx a /\ Ant.dy a' = Ant.dy a /\
  Ant.x a' = Ant.x a /\ Ant.y a' = Ant.y a /\
  Ant.int_x a' = Ant.int_x a /\ Ant.int_y a' = Ant.int_y a /\
  Ant.last_x a' = Ant.int_x a /\ Ant.last_y a' = Ant.int_y a /\
  Ant.has_food a' = Ant.has_food a /\ Ant.use_rate a' = Ant.use_rate a /\
  if Ant.position_changed a then
    if Ant.has_food a then
      Ant.food_pher a' = (Ant.food_pher a * Ant.use_rate a)%R /\
      Ant.home_pher a' = Ant.home_pher a /\
      Map.set_value (food_map s) (PyInt (Ant.int_x a)) (PyInt (Ant.int_y a)) (Ant.food_pher a')
      = Ok (food_map s') /\
      home_map s' = home_map s
    else
      Ant.home_pher a' = (Ant.home_pher a * Ant.use_rate a)%R /\
      Ant.food_pher a' = Ant.food_pher a /\
      Map.set_value (home_map s) (PyInt (Ant.int_x a)) (PyInt (Ant.int_y a)) (Ant.home_pher a')
      = Ok (home_map s') /\
      food_map s' = food_map s
  else
    home_map s' = home_map s /\ food_map s' = food_map s /\
    Ant.home_pher a' = Ant.home_pher a /\ Ant.food_pher a' = Ant.food_pher a.
Proof.
  unfold Ant.deposit. intros H.
  apply bind_ok in H as (a1 & s1 & H1 & H). apply ret_ok in H as [-> ->].
  destruct (Ant.position_changed a).
  - destruct (Ant.has_food a) eqn:Hfood; m_inv; simpl in *; repeat split; auto.
  - m_inv. repeat split.
Qed.

(** C4, as the code has it: when [step] returns, both velocity
    components of the ant lie in [-1, 1]. *)
Theorem velocity_clamped_after_step
        (dt : R) (self self' : Ant.t) (s s' : Shared) :
  Ant.step dt self s = Ok (self', s') -> velocity_clamped self'.
Proof.
  intros H. apply step_phases in H as (a1 & s1 & a2 & s2 & _ & _ & Hd).
  apply deposit_spec in Hd as (_ & Hdx & Hdy & _).
  destruct (clamp_velocity (Ant.boundary a2)) as [[Hx Hy] _].
  unfold velocity_clamped. rewrite Hdx, Hdy. simpl. split; assumption.
Qed.

(** ** Collisions *)

Lemma hypot_zero : Colony.hypot 0 0 = 0%R.
Proof.
  unfold Colony.hypot. rewrite Rmult_0_l, Rplus_0_l. apply sqrt_0.
Qed.

Lemma hypot_on_circle (r angle : R) :
  (0 <= r)%R -> Colony.hypot (r * cos angle) (r * sin angle) = r.
Proof.
  intros Hr. unfold Colony.hypot.
  replace (r * cos angle * (r * cos angle) + r * sin angle * (r * sin angle))%R
    with (r * r * ((sin angle)² + (cos angle)²))%R by (unfold Rsqr; ring).
  rewrite sin2_cos2, Rmult_1_r. now apply sqrt_square.
Qed.

(** Two ants on the same spot: one draw for the contact normal, each ant
    pushed 3.95 along it, velocities touched only if they close in. *)
Lemma collide_overlap (ant1 ant2 : Ant.t) (s : Shared) :
  Ant.x ant1 = Ant.x ant2 -> Ant.y ant1 = Ant.y ant2 ->
  exists b1 b2,
    Colony.collide ant1 ant2 s
    = Ok ((b1, b2),
          mkShared (snd (ManualRNG.uniform 0 (2 * PI) (rng s))) (home_map s) (food_map s)) /\
    Colony.hypot (Ant.x b1 - Ant.x b2) (Ant.y b1 - Ant.y b2) = 7.9%R /\
    ((Ant.dx ant1 - Ant.dx ant2 = 0)%R -> (Ant.dy ant1 - Ant.dy ant2 = 0)%R ->
     Ant.dx b1 = Ant.dx ant1 /\ Ant.dy b1 = Ant.dy ant1 /\
     Ant.dx b2 = Ant.dx ant2 /\ Ant.dy b2 = Ant.dy ant2).
Proof.
  intros Hx Hy. unfold Colony.collide.
  rewrite Hx, Hy, !Rminus_diag, hypot_zero.
  unfold Colony.collision_distance.
  destruct (Rlt_dec 0 8) as [_|Hn]; [|exfalso; lra].
  destruct (Req_EM_T 0 0) as [_|Hn]; [|exfalso; lra].
  unfold bind at 1. unfold bind at 1. unfold rng_uniform, with_rng.
  destruct (ManualRNG.uniform 0 (2 * PI) (rng s)) as [angle g] eqn:Hu.
  cbn [fst snd ret].
  set (c := cos angle). set (sn := sin angle).
  assert (Hdist : forall p q : R,
             Colony.hypot (p + 0.5 * (8 - 0.1) * c - (p - 0.5 * (8 - 0.1) * c))
                          (q + 0.5 * (8 - 0.1) * sn - (q - 0.5 * (8 - 0.1) * sn)) = 7.9%R).
  { intros p q.
    replace (p + 0.5 * (8 - 0.1) * c - (p - 0.5 * (8 - 0.1) * c))%R with (7.9 * c)%R by lra.
    replace (q + 0.5 * (8 - 0.1) * sn - (q - 0.5 * (8 - 0.1) * sn))%R with (7.9 * sn)%R by lra.
    apply hypot_on_circle. lra. }
  match goal with
  | |- context [Rlt_dec ?d 0] => destruct (Rlt_dec d 0) as [Hlt|Hge]
  end.
  - eexists. eexists. split; [reflexivity|]. cbn. rewrite ?Hx, ?Hy. split; [apply Hdist|].
    intros Hvx Hvy. exfalso. cbn in Hlt. rewrite Hvx, Hvy in Hlt. lra.
  - eexists. eexists. split; [reflexivity|]. cbn. rewrite ?Hx, ?Hy. split; [apply Hdist|].
    intros _ _. repeat split.
Qed.

Lemma resolve_two_overlapping (ant1 ant2 : Ant.t) (cx cy fd : Z) (s : Shared) :
  Ant.x ant1 = Ant.x ant2 -> Ant.y ant1 = Ant.y ant2 ->
  exists b1 b2 s',
    Colony.resolve_collisions (Colony.mk [ant1; ant2] cx cy fd) s
    = Ok (Colony.mk [b1; b2] cx cy fd, s') /\
    rng s' = snd (ManualRNG.uniform 0 (2 * PI) (rng s)) /\
    home_map s' = home_map s /\ food_map s' = food_map s /\
    Colony.hypot (Ant.x b1 - Ant.x b2) (Ant.y b1 - Ant.y b2) = 7.9%R /\
    ((Ant.dx ant1 - Ant.dx ant2 = 0)%R -> (Ant.dy ant1 - Ant.dy ant2 = 0)%R ->
     Ant.dx b1 = Ant.dx ant1 /\ Ant.dy b1 = Ant.dy ant1 /\
     Ant.dx b2 = Ant.dx ant2 /\ Ant.dy b2 = Ant.dy ant2).
Proof.
  intros Hx Hy.
  destruct (collide_overlap ant1 ant2 s Hx Hy) as (b1 & b2 & Hc & Hdist & Hvel).
  exists b1, b2. eexists. split.
  - unfold Colony.resolve_collisions, Colony.resolve_pair, Colony.ant_at.
    cbn [length Colony.ants seq for_M Nat.add Nat.sub nth_error].
    unfold bind, ret. rewrite Hc. reflexivity.
  - do 3 (split; [reflexivity|]). split; [exact Hdist | exact Hvel].
Qed.

(** C5, as the code has it: two ants on the same spot with zero velocity
    make [resolve_collisions] return after one draw for the contact
    normal; the ants end 7.9 apart, which is the collision distance 8
    less the effective distance 0.1, and still have zero velocity. *)
Theorem zero_distance_collision
        (ant1 ant2 : Ant.t) (cx cy fd : Z) (s : Shared) :
  Ant.x ant1 = Ant.x ant2 -> Ant.y ant1 = Ant.y ant2 ->
  Ant.dx ant1 = 0%R -> Ant.dy ant1 = 0%R ->
  Ant.dx ant2 = 0%R -> Ant.dy ant2 = 0%R ->
  exists b1 b2 s',
    Colony.resolve_collisions (Colony.mk [ant1; ant2] cx cy fd) s
    = Ok (Colony.mk [b1; b2] cx cy fd, s') /\
    rng s' = snd (ManualRNG.uniform 0 (2 * PI) (rng s)) /\
    Colony.hypot (Ant.x b1 - Ant.x b2) (Ant.y b1 - Ant.y b2) = 7.9%R /\
    (Colony.hypot (Ant.x b1 - Ant.x b2) (Ant.y b1 - Ant.y b2) < Colony.collision_distance)%R /\
    Ant.dx b1 = 0%R /\ Ant.dy b1 = 0%R /\ Ant.dx b2 = 0%R /\ Ant.dy b2 = 0%R.
Proof.
  intros Hx Hy Hdx1 Hdy1 Hdx2 Hdy2.
  destruct (resolve_two_overlapping ant1 ant2 cx cy fd s Hx Hy)
    as (b1 & b2 & s' & Hr & Hrng & _ & _ & Hdist & Hvel).
  exists b1, b2, s'. split; [exact Hr|]. split; [exact Hrng|]. split; [exact Hdist|].
  split; [rewrite Hdist; unfold Colony.collision_distance; lra|].
  destruct Hvel as (H1 & H2 & H3 & H4); [lra | lra |].
  repeat split; congruence.
Qed.

Lemma zero_distance_collision_witness :
  let ant := Ant.mk 0 0 10 10 10 10 10 10 false 100 100 0.995 0.92 0 in
  let none := Map.mk 0 0 100 0.999 (ndarray.mk 0 0 []) in
  exists b1 b2 s',
    Colony.resolve_collisions (Colony.mk [ant; ant] 300 200 0)
                              (mkShared (ManualRNG.init (Some 1%Z) 0) none none)
    = Ok (Colony.mk [b1; b2] 300 200 0, s') /\
    Colony.hypot (Ant.x b1 - Ant.x b2) (Ant.y b1 - Ant.y b2) = 7.9%R.
Proof.
  intros ant none.
  destruct (@zero_distance_collision ant ant 300%Z 200%Z 0%Z
              (mkShared (ManualRNG.init (Some 1%Z) 0) none none))
    as (b1 & b2 & s' & Hr & _ & Hdist & _); try reflexivity.
  exists b1, b2, s'. split; [exact Hr | exact Hdist].
Defined.

(** C5 as stated fails: after the call the two ants are closer than the
    collision distance. *)
Lemma zero_distance_collision_counterexample :
  let ant := Ant.mk 0 0 10 10 10 10 10 10 false 100 100 0.995 0.92 0 in
  let none := Map.mk 0 0 100 0.999 (ndarray.mk 0 0 []) in
  exists b1 b2 s',
    Colony.resolve_collisions (Colony.mk [ant; ant] 300 200 0)
                              (mkShared (ManualRNG.init (Some 1%Z) 0) none none)
    = Ok (Colony.mk [b1; b2] 300 200 0, s') /\
    ~ (Colony.collision_distance
       <= Colony.hypot (Ant.x b1 - Ant.x b2) (Ant.y b1 - Ant.y b2))%R.
Proof.
  intros ant none.
  destruct (resolve_two_overlapping ant ant 300%Z 200%Z 0%Z
              (mkShared (ManualRNG.init (Some 1%Z) 0) none none) eq_refl eq_refl)
    as (b1 & b2 & s' & Hr & _ & _ & _ & Hdist & _).
  exists b1, b2, s'. split; [exact Hr|].
  rewrite Hdist. unfold Colony.collision_distance. lra.
Qed.

(** ** Deliveries *)

Lemma move_frame (dt : R) (a : Ant.t) :
  Ant.has_food (Ant.move dt a) = Ant.has_food a /\
  Ant.home_pher (Ant.move dt a) = Ant.home_pher a /\
  Ant.food_pher (Ant.move dt a) = Ant.food_pher a /\
  Ant.use_rate (Ant.move dt a) = Ant.use_rate a /\
  Ant.last_x (Ant.move dt a) = Ant.last_x a /\
  Ant.last_y (Ant.move dt a) = Ant.last_y a /\
  Ant.dx (Ant.move dt a) = Ant.dx a /\
  Ant.dy (Ant.move dt a) = Ant.dy a /\
  Ant.int_x (Ant.move dt a) = py_int (Ant.x (Ant.move dt a)) /\
  Ant.int_y (Ant.move dt a) = py_int (Ant.y (Ant.move dt a)).
Proof. repeat split. Qed.

(** Everything before [deposit] leaves scents, flag and last position. *)
Lemma before_deposit_frame (dt : R) (self a2 : Ant.t) (s s1 s2 : Shared) (a1 : Ant.t) :
  Ant.perturb dt self s = Ok (a1, s1) ->
  Ant.steer dt a1 s1 = Ok (a2, s2) ->
  let a3 := Ant.move dt (Ant.clamp (Ant.boundary a2)) in
  home_map s2 = home_map s /\ food_map s2 = food_map s /\
  Ant.has_food a3 = Ant.has_food self /\
  Ant.home_pher a3 = Ant.home_pher self /\ Ant.food_pher a3 = Ant.food_pher self /\
  Ant.use_rate a3 = Ant.use_rate self /\
  Ant.last_x a3 = Ant.last_x self /\ Ant.last_y a3 = Ant.last_y self /\
  Ant.int_x a3 = py_int (Ant.x a3) /\ Ant.int_y a3 = py_int (Ant.y a3).
Proof.
  intros Hp Hs a3.
  apply perturb_frame in Hp as (Hh1 & Hf1 & F1).
  apply steer_frame in Hs as (Hh2 & Hf2 & F2).
  pose proof (boundary_frame a2) as F3.
  destruct (clamp_velocity (Ant.boundary a2)) as [_ F4].
  pose proof (same_but_velocity_trans F1 (same_but_velocity_trans F2
               (same_but_velocity_trans F3 F4))) as F.
  destruct (move_frame dt (Ant.clamp (Ant.boundary a2)))
    as (M1 & M2 & M3 & M4 & M5 & M6 & _ & _ & M7 & M8).
  fold a3 in M1, M2, M3, M4, M5, M6, M7, M8.
  unfold same_but_velocity in F.
  repeat match goal with H : _ /\ _ |- _ => destruct H end.
  repeat split; congruence.
Qed.

Lemma step_has_food (dt : R) (self self' : Ant.t) (s s' : Shared) :
  Ant.step dt self s = Ok (self', s') -> Ant.has_food self' = Ant.has_food self.
Proof.
  intros H. apply step_phases in H as (a1 & s1 & a2 & s2 & Hp & Hs & Hd).
  destruct (before_deposit_frame _ _ _ Hp Hs) as (_ & _ & Hf & _).
  apply deposit_spec in Hd as (_ & _ & _ & _ & _ & _ & _ & _ & _ & Hf' & _).
  congruence.
Qed.

(** The loop body of [update] for one ant. *)
Lemma update_ant_spec (cx cy : Z) (dt : R) (ant ant' : Ant.t) (food food' : Food.t)
      (d d' : Z) (s s' : Shared) :
  Colony.update_ant cx cy dt ant food d s = Ok ((ant', food', d'), s') ->
  d' = (d + if delivered ant ant' then 1 else 0)%Z /\
  (Ant.has_food ant = true ->
   (Ant.has_food ant' = false <-> Colony.at_nest cx cy ant' = true) /\
   (Ant.has_food ant' = false -> Ant.home_pher ant' = 100%R) /\
   food' = food).
Proof.
  unfold Colony.update_ant. intros H.
  apply bind_ok in H as (stepped & s1 & Hstep & H).
  pose proof (step_has_food _ _ _ Hstep) as Hf. unfold delivered.
  destruct (Ant.has_food stepped) eqn:Hcarry; rewrite <- Hf.
  - destruct (Colony.at_nest cx cy stepped) eqn:Hnest; m_inv; pair_inv.
    + simpl. split; [reflexivity|]. intros _. repeat split; auto.
    + rewrite Hcarry. simpl. split; [lia|]. intros _.
      split; [split; congruence|]. split; [congruence | reflexivity].
  - m_inv; pair_inv; (split; [simpl; lia | discriminate]).
Qed.

Lemma update_ants_spec (cx cy : Z) (dt : R) (l l' : list Ant.t) (food food' : Food.t)
      (d d' : Z) (s s' : Shared) :
  Colony.update_ants cx cy dt l food d s = Ok ((l', food', d'), s') ->
  length l' = length l /\
  d' = (d + Z.of_nat (deliveries l l'))%Z /\
  Forall2 (fun before after =>
             Ant.has_food before = true ->
             (Ant.has_food after = false <-> Colony.at_nest cx cy after = true) /\
             (Ant.has_food after = false -> Ant.home_pher after = 100%R))
          l l'.
Proof.
  revert l' food food' d d' s s'.
  induction l as [|ant l IH]; intros l' food food' d d' s s' H; simpl in H.
  - apply ret_ok in H as [[= -> -> ->] _]. repeat split; [simpl; lia | constructor].
  - apply bind_ok in H as ([[ant1 food1] d1] & s1 & Hant & H).
    apply bind_ok in H as ([[l1 food2] d2] & s2 & Hrest & H).
    apply ret_ok in H as [[= -> -> ->] _].
    apply update_ant_spec in Hant as (Hd1 & Hone).
    apply IH in Hrest as (Hlen & Hd2 & Hall).
    split; [simpl; congruence|]. split.
    + unfold deliveries in *. simpl.
      destruct (delivered ant ant1); simpl; lia.
    + constructor; [|exact Hall]. intros Hc. destruct (Hone Hc) as (Hiff & Hpher & _).
      now split.
Qed.

Lemma deliveries_bound (l l' : list Ant.t) : (deliveries l l' <= length l)%nat.
Proof.
  unfold deliveries.
  etransitivity; [apply filter_length_le|].
  rewrite length_combine. apply Nat.le_min_l.
Qed.

Lemma update_spec (self self' : Colony.t) (food food' : Food.t) (dt : R) (s s' : Shared) :
  Colony.update self food dt s = Ok ((self', food'), s') ->
  Colony.x self' = Colony.x self /\ Colony.y self' = Colony.y self /\
  length (Colony.ants self') = length (Colony.ants self) /\
  Colony.food_delivered self'
  = (Colony.food_delivered self
     + Z.of_nat (deliveries (Colony.ants self) (Colony.ants self')))%Z /\
  Forall2 (fun before after =>
             Ant.has_food before = true ->
             (Ant.has_food after = false
              <-> Colony.at_nest (Colony.x self) (Colony.y self) after = true) /\
             (Ant.has_food after = false -> Ant.home_pher after = 100%R))
          (Colony.ants self) (Colony.ants self').
Proof.
  unfold Colony.update. intros H.
  apply bind_ok in H as ([[l food1] d] & s1 & Hl & H).
  apply ret_ok in H as [[= -> ->] _].
  apply update_ants_spec in Hl as (Hlen & Hd & Hall). simpl.
  repeat split; assumption.
Qed.

Lemma resolve_collisions_frame (self self' : Colony.t) (s s' : Shared) :
  Colony.resolve_collisions self s = Ok (self', s') ->
  Colony.food_delivered self' = Colony.food_delivered self /\
  Colony.x self' = Colony.x self /\ Colony.y self' = Colony.y self.
Proof.
  unfold Colony.resolve_collisions. intros H.
  apply bind_ok in H as (l & s1 & _ & H). apply ret_ok in H as [-> _].
  repeat split.
Qed.

Lemma move_colony_delivered (dt : R) (s s1 : Main.t) :
  Main.move_colony dt s = Ok s1 ->
  (Colony.food_delivered (Main.colony s) <= Colony.food_delivered (Main.colony s1))%Z.
Proof.
  unfold Main.move_colony.
  destruct (Colony.update _ _ _ _) as [[[c food] sh]|] eqn:Hu; [simpl|discriminate].
  destruct (Colony.resolve_collisions c sh) as [[c1 sh1]|] eqn:Hr; [simpl|discriminate].
  intros [= <-]. simpl.
  apply update_spec in Hu as (_ & _ & _ & Hd & _).
  apply resolve_collisions_frame in Hr as (Hd1 & _). lia.
Qed.

Lemma run_delivered (calls : list Main.call) (s s' : Main.t) :
  Main.run calls s (Ok s') ->
  (Colony.food_delivered (Main.colony s) <= Colony.food_delivered (Main.colony s'))%Z.
Proof.
  revert s. induction calls as [|[dt|x y] calls IH]; intros s; simpl.
  - intros [= <-]. lia.
  - intros (r1 & Htick & Hrest). unfold Main.advance_tick in Htick.
    destruct (Main.move_colony dt s) as [s1|e] eqn:Hm.
    + destruct Htick as (s2 & (h & f & _ & _ & ->) & ->).
      apply IH in Hrest. apply move_colony_delivered in Hm. simpl in Hrest. lia.
    + subst r1. discriminate.
  - unfold Main.place_food.
    destruct (Food.add_food (Main.food s) x y) as [food|]; simpl; [|discriminate].
    intros Hrest. apply IH in Hrest. exact Hrest.
Qed.

(** C8: one [update] adds to [food_delivered] the number of ants that
    carried food before the call and do not after it, one per such ant and
    at most one per ant; an ant that carried food is such an ant exactly
    when its stepped position is within 20 of the nest on both axes, and
    then its home scent is 100; over any run of the driver the counter
    never goes down. *)
Theorem conservation_under_delivery :
  (forall (self self' : Colony.t) (food food' : Food.t) (dt : R) (s s' : Shared),
      Colony.update self food dt s = Ok ((self', food'), s') ->
      Colony.food_delivered self'
      = (Colony.food_delivered self
         + Z.of_nat (deliveries (Colony.ants self) (Colony.ants self')))%Z /\
      (deliveries (Colony.ants self) (Colony.ants self') <= length (Colony.ants self))%nat /\
      (Colony.food_delivered self <= Colony.food_delivered self')%Z /\
      Forall2 (fun before after =>
                 Ant.has_food before = true ->
                 (Ant.has_food after = false
                  <-> Colony.at_nest (Colony.x self) (Colony.y self) after = true) /\
                 (Ant.has_food after = false -> Ant.home_pher after = 100%R))
              (Colony.ants self) (Colony.ants self')) /\
  (forall (calls : list Main.call) (s s' : Main.t),
      Main.run calls s (Ok s') ->
      (Colony.food_delivered (Main.colony s)
       <= Colony.food_delivered (Main.colony s'))%Z).
Proof.
  split; [|exact run_delivered].
  intros self self' food food' dt s s' H.
  apply update_spec in H as (_ & _ & _ & Hd & Hall).
  split; [exact Hd|]. split; [apply deliveries_bound|]. split; [lia | exact Hall].
Qed.

(** ** Evaluating a step *)

Lemma random_at (st st' : Z) :
  st' = ((16807 * st + 0) mod 2147483647)%Z ->
  ManualRNG.random (ManualRNG.mk 2147483647 16807 0 st)
  = ((IZR st' / 2147483647)%R, ManualRNG.mk 2147483647 16807 0 st').
Proof. intros ->. reflexivity. Qed.

(** The first six states from seed 1. *)
Lemma seed1_states :
  ManualRNG.draws 1 seed1 = ManualRNG.mk 2147483647 16807 0 16807 /\
  ManualRNG.draws 2 seed1 = ManualRNG.mk 2147483647 16807 0 282475249 /\
  ManualRNG.draws 3 seed1 = ManualRNG.mk 2147483647 16807 0 1622650073 /\
  ManualRNG.draws 4 seed1 = ManualRNG.mk 2147483647 16807 0 984943658 /\
  ManualRNG.draws 5 seed1 = ManualRNG.mk 2147483647 16807 0 1144108930 /\
  ManualRNG.draws 6 seed1 = ManualRNG.mk 2147483647 16807 0 470211272.
Proof. repeat split. Qed.

(** Three draws below the thresholds: no noise, no new boredom. *)
Lemma perturb_quiet (dt : R) (self : Ant.t) (s : Shared) :
  (fst (ManualRNG.random (rng s)) <= Ant.wander_chance self)%R ->
  (fst (ManualRNG.random (ManualRNG.draws 1 (rng s))) <= Ant.wander_chance self)%R ->
  (fst (ManualRNG.random (ManualRNG.draws 2 (rng s))) <= 0.99)%R ->
  Ant.perturb dt self s
  = Ok (self, mkShared (ManualRNG.draws 3 (rng s)) (home_map s) (food_map s)).
Proof.
  intros H1 H2 H3. unfold Ant.perturb, bind, rng_random, with_rng.
  change (ManualRNG.draws 1 (rng s)) with (snd (ManualRNG.random (rng s))) in H2.
  change (ManualRNG.draws 2 (rng s))
    with (snd (ManualRNG.random (snd (ManualRNG.random (rng s))))) in H3.
  change (ManualRNG.draws 3 (rng s))
    with (snd (ManualRNG.random (snd (ManualRNG.random (snd (ManualRNG.random (rng s))))))).
  destruct (ManualRNG.random (rng s)) as [u1 g1]. cbn [fst snd rng home_map food_map] in *.
  destruct (Rgt_dec u1 (Ant.wander_chance self)) as [Hgt|_]; [exfalso; lra|].
  unfold ret at 1. cbn [fst snd rng home_map food_map].
  destruct (ManualRNG.random g1) as [u2 g2]. cbn [fst snd rng home_map food_map] in *.
  destruct (Rgt_dec u2 (Ant.wander_chance self)) as [Hgt|_]; [exfalso; lra|].
  unfold ret at 1. cbn [fst snd rng home_map food_map].
  destruct (ManualRNG.random g2) as [u3 g3]. cbn [fst snd rng home_map food_map] in *.
  destruct (Rgt_dec u3 0.99) as [Hgt|_]; [exfalso; lra|].
  reflexivity.
Qed.

Lemma steer_bored (dt : R) (self : Ant.t) (s : Shared) :
  (0 < Ant.bored self)%Z ->
  Ant.steer dt self s = Ok (Ant.set_bored (Ant.bored self - 1)%Z self, s).
Proof.
  intros Hb. unfold Ant.steer.
  replace (Ant.bored self >? 0)%Z with true; [reflexivity|].
  symmetry. apply Z.gtb_lt. exact Hb.
Qed.

Lemma step_quiet (dt : R) (self : Ant.t) (s : Shared) :
  (fst (ManualRNG.random (rng s)) <= Ant.wander_chance self)%R ->
  (fst (ManualRNG.random (ManualRNG.draws 1 (rng s))) <= Ant.wander_chance self)%R ->
  (fst (ManualRNG.random (ManualRNG.draws 2 (rng s))) <= 0.99)%R ->
  (0 < Ant.bored self)%Z ->
  Ant.step dt self s
  = Ant.deposit
      (Ant.move dt (Ant.clamp (Ant.boundary (Ant.set_bored (Ant.bored self - 1)%Z self))))
      (mkShared (ManualRNG.draws 3 (rng s)) (home_map s) (food_map s)).
Proof.
  intros H1 H2 H3 Hb. unfold Ant.step.
  unfold bind at 1. rewrite (perturb_quiet dt self s H1 H2 H3).
  unfold bind at 1. rewrite (steer_bored dt self _ Hb).
  reflexivity.
Qed.

(** From seed 1 the first six draws are below 0.92. *)
Lemma seed1_quiet (n : nat) :
  (n < 6)%nat -> (fst (ManualRNG.random (ManualRNG.draws n seed1)) <= 0.92)%R.
Proof.
  intros Hn.
  destruct seed1_states as (E1 & E2 & E3 & E4 & E5 & E6).
  assert (Hcases : (n = 0 \/ n = 1 \/ n = 2 \/ n = 3 \/ n = 4 \/ n = 5)%nat) by lia.
  clear Hn. destruct Hcases as [->|[->|[->|[->|[->| ->]]]]].
  - change (ManualRNG.draws 0 seed1) with (ManualRNG.mk 2147483647 16807 0 1).
    rewrite (@random_at 1 16807) by reflexivity. cbn [fst]. lra.
  - rewrite E1, (@random_at _ 282475249) by reflexivity. cbn [fst]. lra.
  - rewrite E2, (@random_at _ 1622650073) by reflexivity. cbn [fst]. lra.
  - rewrite E3, (@random_at _ 984943658) by reflexivity. cbn [fst]. lra.
  - rewrite E4, (@random_at _ 1144108930) by reflexivity. cbn [fst]. lra.
  - rewrite E5, (@random_at _ 470211272) by reflexivity. cbn [fst]. lra.
Qed.

Lemma clamp_id (v : R) : (-1 <= v <= 1)%R -> Rmax (Rmin v 1) (-1) = v.
Proof.
  intros [Hlo Hhi]. rewrite Rmin_left by exact Hhi. now apply Rmax_left.
Qed.

(** Away from the walls and with a clamped velocity, the phases between
    steering and deposit only move the ant. *)
Lemma pure_phase_interior (dt : R) (a : Ant.t) :
  (2 <= Ant.x a <= 598)%R -> (2 <= Ant.y a <= 398)%R -> velocity_clamped a ->
  Ant.move dt (Ant.clamp (Ant.boundary a))
  = Ant.mk (Ant.dx a) (Ant.dy a)
           (Ant.x a + Ant.dx a * dt) (Ant.y a + Ant.dy a * dt)
           (py_int (Ant.x a + Ant.dx a * dt)) (py_int (Ant.y a + Ant.dy a * dt))
           (Ant.last_x a) (Ant.last_y a) (Ant.has_food a)
           (Ant.home_pher a) (Ant.food_pher a) (Ant.use_rate a) (Ant.wander_chance a)
           (Ant.bored a).
Proof.
  intros Hx Hy [Hdx Hdy].
  assert (Hb : Ant.boundary a = a).
  { unfold Ant.boundary.
    destruct (Rlt_dec (Ant.x a) 2) as [H|_]; [exfalso; lra|].
    destruct (Rgt_dec (Ant.x a) (600 - 2)) as [H|_]; [exfalso; lra|].
    destruct (Rlt_dec (Ant.y a) 2) as [H|_]; [exfalso; lra|].
    destruct (Rgt_dec (Ant.y a) (400 - 2)) as [H|_]; [exfalso; lra|].
    reflexivity. }
  rewrite Hb. unfold Ant.move, Ant.clamp.
  cbn [Ant.dx Ant.dy Ant.x Ant.y Ant.int_x Ant.int_y Ant.last_x Ant.last_y Ant.has_food
       Ant.home_pher Ant.food_pher Ant.use_rate Ant.wander_chance Ant.bored
       Ant.set_dx Ant.set_dy Ant.set_x Ant.set_y Ant.set_int_x Ant.set_int_y].
  rewrite !(clamp_id Hdx), !(clamp_id Hdy). reflexivity.
Qed.

(** [deposit] returns on well-formed maps. *)
Lemma deposit_returns (a : Ant.t) (s : Shared) :
  Map.well_formed (home_map s) -> Map.well_formed (food_map s) ->
  exists a' s', Ant.deposit a s = Ok (a', s') /\
                Map.well_formed (home_map s') /\ Map.well_formed (food_map s').
Proof.
  intros Hh Hf. unfold Ant.deposit.
  destruct (Ant.position_changed a).
  - destruct (Ant.has_food a).
    + destruct (set_value_int (Ant.int_x a) (Ant.int_y a)
                  (Ant.food_pher a * Ant.use_rate a) Hf) as (m' & Hset & Hwf & _).
      unfold bind, food_map_write. cbn [Ant.int_x Ant.int_y Ant.food_pher Ant.set_food_pher].
      rewrite Hset. cbn. eexists. eexists. split; [reflexivity|]. now split.
    + destruct (set_value_int (Ant.int_x a) (Ant.int_y a)
                  (Ant.home_pher a * Ant.use_rate a) Hh) as (m' & Hset & Hwf & _).
      unfold bind, home_map_write. cbn [Ant.int_x Ant.int_y Ant.home_pher Ant.set_home_pher].
      rewrite Hset. cbn. eexists. eexists. split; [reflexivity|]. now split.
  - cbn. eexists. eexists. split; [reflexivity|]. now split.
Qed.

(** ** A worked step

    An ant at (5, 5) moving right at speed 1, not carrying, bored; fresh 3
    by 3 maps; generator seeded with 1; [dt = 1].  The ant ends at (6, 5):
    a new integer position inside the same grid cell (1, 1). *)

Lemma worked_step :
  let self := ant_at_rest 5 5 1 0 false 3 in
  let s := mkShared seed1 fresh_map fresh_map in
  exists self' s',
    Ant.step 1 self s = Ok (self', s') /\
    Ant.x self' = 6%R /\ Ant.y self' = 5%R /\
    Ant.int_x self' = 6%Z /\ Ant.int_y self' = 5%Z /\
    Ant.home_pher self' = 99.5%R /\
    Map.get_value (home_map s) (PyInt 6) (PyInt 5) = Ok 0%R /\
    Map.get_value (home_map s') (PyInt 6) (PyInt 5) = Ok 99.5%R.
Proof.
  intros self s.
  assert (Hq : forall n, (n < 3)%nat ->
                 (fst (ManualRNG.random (ManualRNG.draws n (rng s))) <= 0.92)%R).
  { intros n Hn. apply seed1_quiet. lia. }
  assert (Hstep := @step_quiet 1 self s (Hq 0%nat ltac:(lia)) (Hq 1%nat ltac:(lia))).
  rewrite Hstep; [|pose proof (Hq 2%nat ltac:(lia)); lra | unfold self; simpl; lia].
  rewrite pure_phase_interior;
    [|unfold self; simpl; lra | unfold self; simpl; lra
     |unfold self, velocity_clamped; simpl; lra].
  unfold self, ant_at_rest.
  cbn [Ant.dx Ant.dy Ant.x Ant.y Ant.int_x Ant.int_y Ant.last_x Ant.last_y Ant.has_food
       Ant.home_pher Ant.food_pher Ant.use_rate Ant.wander_chance Ant.bored Ant.set_bored].
  replace (5 + 1 * 1)%R with (IZR 6) by lra.
  replace (5 + 0 * 1)%R with (IZR 5) by lra.
  rewrite !py_int_IZR.
  match goal with
  | |- exists _ _, Ant.deposit ?a ?sh = _ /\ _ =>
      destruct (@deposit_returns a sh) as (a' & s' & Hd & _)
  end.
  { repeat split; simpl; lia. }
  { repeat split; simpl; lia. }
  exists a', s'. split; [exact Hd|].
  apply deposit_spec in Hd
    as (_ & _ & _ & Hx & Hy & Hix & Hiy & _ & _ & _ & _ & Hdep).
  unfold Ant.position_changed in Hdep.
  cbn [Ant.x Ant.y Ant.int_x Ant.int_y Ant.last_x Ant.last_y Ant.has_food Ant.home_pher
       Ant.use_rate Ant.food_pher Z.eqb Pos.eqb negb orb home_map food_map rng]
    in Hx, Hy, Hix, Hiy, Hdep.
  destruct Hdep as (Hpher & _ & Hset & _).
  assert (H995 : Ant.home_pher a' = 99.5%R) by (rewrite Hpher; lra).
  repeat split; try assumption.
  rewrite H995 in Hset.
  destruct (@set_value_int fresh_map 6 5 99.5%R) as (m' & Hset' & _ & Hcell).
  { repeat split; simpl; lia. }
  assert (Hm : Ok (home_map s') = Ok m') by (rewrite <- Hset; exact Hset').
  injection Hm as <-.
  change (Map.in_bounds fresh_map (PyInt (6 / 4)) (PyInt (5 / 4))) with true in Hcell.
  destruct Hcell as (cur & Hcur & Hgt & _).
  change (ndarray.getitem (Map.map_vals fresh_map) (5 / 4) (6 / 4)) with (Ok 0%R) in Hcur.
  injection Hcur as Hcur.
  unfold Map.get_value, index_get.
  destruct (set_value_cases _ _ _ _ Hset) as [Heq|(i & j & k & c & _ & _ & _ & Heq)];
    rewrite Heq in *; apply Hgt; lra.
Qed.

(** ** The deposit condition *)

(** What [step] does with the scents and the maps, by the test of line
    166 on the integer position. *)
Lemma step_deposit (dt : R) (self self' : Ant.t) (s s' : Shared) :
  Ant.use_rate self = 0.995%R ->
  Ant.step dt self s = Ok (self', s') ->
  Ant.int_x self' = py_int (Ant.x self') /\ Ant.int_y self' = py_int (Ant.y self') /\
  Ant.last_x self' = Ant.int_x self' /\ Ant.last_y self' = Ant.int_y self' /\
  Ant.has_food self' = Ant.has_food self /\
  if negb (Ant.last_x self =? Ant.int_x self')%Z || negb (Ant.last_y self =? Ant.int_y self')%Z
  then
    if Ant.has_food self then
      Ant.food_pher self' = (Ant.food_pher self * 0.995)%R /\
      Ant.home_pher self' = Ant.home_pher self /\
      Map.set_value (food_map s) (PyInt (Ant.int_x self')) (PyInt (Ant.int_y self'))
                    (Ant.food_pher self') = Ok (food_map s') /\
      home_map s' = home_map s
    else
      Ant.home_pher self' = (Ant.home_pher self * 0.995)%R /\
      Ant.food_pher self' = Ant.food_pher self /\
      Map.set_value (home_map s) (PyInt (Ant.int_x self')) (PyInt (Ant.int_y self'))
                    (Ant.home_pher self') = Ok (home_map s') /\
      food_map s' = food_map s
  else
    home_map s' = home_map s /\ food_map s' = food_map s /\
    Ant.home_pher self' = Ant.home_pher self /\ Ant.food_pher self' = Ant.food_pher self.
Proof.
  intros Hrate H. apply step_phases in H as (a1 & s1 & a2 & s2 & Hp & Hs & Hd).
  pose proof (before_deposit_frame _ _ _ Hp Hs) as Hframe. cbv zeta in Hframe.
  revert Hd Hframe. generalize (Ant.move dt (Ant.clamp (Ant.boundary a2))).
  intros a3 Hd (Hh & Hf & Hfood & Hhp & Hfp & Hur & Hlx & Hly & Hix & Hiy).
  apply deposit_spec in Hd
    as (_ & _ & _ & Hx' & Hy' & Hix' & Hiy' & Hlx' & Hly' & Hfood' & _ & Hdep).
  unfold Ant.position_changed in Hdep.
  rewrite Hlx, Hly, <- Hix', <- Hiy', Hfood, Hhp, Hfp, Hur, Hrate, Hh, Hf in Hdep.
  split; [rewrite Hix', Hx'; exact Hix|].
  split; [rewrite Hiy', Hy'; exact Hiy|].
  split; [rewrite Hlx', Hix'; reflexivity|].
  split; [rewrite Hly', Hiy'; reflexivity|].
  split; [rewrite Hfood'; exact Hfood | exact Hdep].
Qed.

(** C3, as the code has it by design: when the grid cell of the ant (its
    integer position divided by 4) differs from the one at the end of
    the previous step, [step] deposits: the scent of the current carrying
    state (food scent when carrying, home scent otherwise) is multiplied
    by 0.995 first, and the product is written with [set_value] into the
    matching map at the new position, the other map being left alone;
    when the integer position is the one of the previous step, maps and
    scents are left as they were. What happens when the integer position
    changed inside one grid cell is not stated. *)
Theorem deposit_condition (dt : R) (self self' : Ant.t) (s s' : Shared) :
  Ant.use_rate self = 0.995%R ->
  Ant.step dt self s = Ok (self', s') ->
  Ant.has_food self' = Ant.has_food self /\
  (grid_cell_changed self self' ->
   if Ant.has_food self then
     Ant.food_pher self' = (Ant.food_pher self * 0.995)%R /\
     Ant.home_pher self' = Ant.home_pher self /\
     Map.set_value (food_map s) (PyInt (Ant.int_x self')) (PyInt (Ant.int_y self'))
                   (Ant.food_pher self') = Ok (food_map s') /\
     home_map s' = home_map s
   else
     Ant.home_pher self' = (Ant.home_pher self * 0.995)%R /\
     Ant.food_pher self' = Ant.food_pher self /\
     Map.set_value (home_map s) (PyInt (Ant.int_x self')) (PyInt (Ant.int_y self'))
                   (Ant.home_pher self') = Ok (home_map s') /\
     food_map s' = food_map s) /\
  (Ant.last_x self = Ant.int_x self' -> Ant.last_y self = Ant.int_y self' ->
   home_map s' = home_map s /\ food_map s' = food_map s /\
   Ant.home_pher self' = Ant.home_pher self /\ Ant.food_pher self' = Ant.food_pher self).
Proof.
  intros Hrate H.
  destruct (@step_deposit dt self self' s s' Hrate H) as (_ & _ & _ & _ & Hfood & Hdep).
  split; [exact Hfood|]. split.
  - intros Hcell.
    assert (Htest : negb (Ant.last_x self =? Ant.int_x self')%Z
                    || negb (Ant.last_y self =? Ant.int_y self')%Z = true).
    { apply orb_true_iff. destruct Hcell as [Hc|Hc]; [left | right];
        apply negb_true_iff, Z.eqb_neq; intros Heq; apply Hc; now rewrite Heq. }
    rewrite Htest in Hdep. exact Hdep.
  - intros Hx Hy. rewrite Hx, Hy, !Z.eqb_refl in Hdep. exact Hdep.
Qed.

(** The test of line 166 against the comment of line 165: the worked
    step writes into the home map although the ant stays in grid cell
    (1, 1), since the test compares integer positions where the comment
    speaks of cells; and what it writes is the scent after the decay,
    99.5, not the scent 100 it had. *)
Lemma deposit_within_a_cell :
  ~ deposits_only_on_cell_change 1 (ant_at_rest 5 5 1 0 false 3)
      (mkShared seed1 fresh_map fresh_map) /\
  ~ deposits_scent_before_decay 1 (ant_at_rest 5 5 1 0 false 3)
      (mkShared seed1 fresh_map fresh_map).
Proof.
  destruct worked_step as (self' & s' & Hstep & _ & _ & Hix & Hiy & _ & Hbefore & Hafter).
  assert (Hmap : home_map s' <> home_map (mkShared seed1 fresh_map fresh_map)).
  { intros Heq. rewrite Heq, Hbefore in Hafter. injection Hafter. lra. }
  split; intros Hclaim.
  - destruct (Hclaim self' s' Hstep) as [Hc|Hc].
    + left. exact Hmap.
    + rewrite Hix in Hc. apply Hc. reflexivity.
    + rewrite Hiy in Hc. apply Hc. reflexivity.
  - specialize (Hclaim self' s' Hstep Hmap).
    rewrite Hix, Hiy, Hafter in Hclaim. injection Hclaim.
    unfold ant_at_rest. cbn [Ant.home_pher]. lra.
Qed.

(** C4 holds at the worked step. *)
Lemma velocity_clamped_after_step_witness :
  let self := ant_at_rest 5 5 1 0 false 3 in
  let s := mkShared seed1 fresh_map fresh_map in
  exists self' s', Ant.step 1 self s = Ok (self', s') /\ velocity_clamped self'.
Proof.
  intros self s. destruct worked_step as (self' & s' & Hstep & _).
  exists self', s'. split; [exact Hstep|].
  exact (@velocity_clamped_after_step 1 self self' s s' Hstep).
Defined.

(** ** A worked tick: a collision after the clamp *)

(** A quiet, bored ant away from the walls: the step moves it by its
    velocity and leaves the velocity alone. *)
Lemma step_quiet_interior (dt : R) (self : Ant.t) (s : Shared) :
  (forall n, (n < 3)%nat ->
             (fst (ManualRNG.random (ManualRNG.draws n (rng s))) <= 0.92)%R) ->
  Ant.wander_chance self = 0.92%R ->
  (0 < Ant.bored self)%Z ->
  (2 <= Ant.x self <= 598)%R -> (2 <= Ant.y self <= 398)%R ->
  velocity_clamped self ->
  Map.well_formed (home_map s) -> Map.well_formed (food_map s) ->
  exists self' s',
    Ant.step dt self s = Ok (self', s') /\
    rng s' = ManualRNG.draws 3 (rng s) /\
    Map.well_formed (home_map s') /\ Map.well_formed (food_map s') /\
    Ant.dx self' = Ant.dx self /\ Ant.dy self' = Ant.dy self /\
    Ant.x self' = (Ant.x self + Ant.dx self * dt)%R /\
    Ant.y self' = (Ant.y self + Ant.dy self * dt)%R /\
    Ant.int_x self' = py_int (Ant.x self + Ant.dx self * dt) /\
    Ant.int_y self' = py_int (Ant.y self + Ant.dy self * dt) /\
    Ant.has_food self' = Ant.has_food self.
Proof.
  intros Hq Hw Hb Hx Hy Hv Hh Hf.
  rewrite step_quiet;
    [|rewrite Hw; apply (Hq 0%nat); lia | rewrite Hw; apply (Hq 1%nat); lia
     |pose proof (Hq 2%nat ltac:(lia)); lra | exact Hb].
  rewrite pure_phase_interior; [|exact Hx | exact Hy | exact Hv].
  cbn [Ant.dx Ant.dy Ant.x Ant.y Ant.int_x Ant.int_y Ant.last_x Ant.last_y Ant.has_food
       Ant.home_pher Ant.food_pher Ant.use_rate Ant.wander_chance Ant.bored Ant.set_bored].
  match goal with
  | |- exists _ _, Ant.deposit ?a ?sh = _ /\ _ =>
      destruct (@deposit_returns a sh Hh Hf) as (a' & s' & Hd & Hh' & Hf')
  end.
  exists a', s'. split; [exact Hd|].
  apply deposit_spec in Hd
    as (Hrng & Hdx & Hdy & Hx' & Hy' & Hix & Hiy & _ & _ & Hfood & _).
  cbn [Ant.dx Ant.dy Ant.x Ant.y Ant.int_x Ant.int_y Ant.has_food rng]
    in Hrng, Hdx, Hdy, Hx', Hy', Hix, Hiy, Hfood.
  split; [exact Hrng|]. split; [exact Hh'|]. split; [exact Hf'|].
  repeat split; assumption.
Qed.

(** C3 at a step that takes the ant from grid cell 1 to grid cell 2. *)
Lemma deposit_condition_witness :
  let self := ant_at_rest 7 5 1 0 false 3 in
  let s := mkShared seed1 fresh_map fresh_map in
  exists self' s',
    Ant.step 1 self s = Ok (self', s') /\
    Ant.home_pher self' = (100 * 0.995)%R /\
    Map.set_value fresh_map (PyInt 8) (PyInt 5) (Ant.home_pher self') = Ok (home_map s').
Proof.
  intros self s.
  assert (Hwf : Map.well_formed fresh_map) by (repeat split; simpl; lia).
  destruct (@step_quiet_interior 1 self s)
    as (self' & s' & Hstep & _ & _ & _ & _ & _ & _ & _ & Hix & Hiy & _).
  - intros n Hn. apply seed1_quiet. lia.
  - reflexivity.
  - simpl. lia.
  - simpl. lra.
  - simpl. lra.
  - split; simpl; lra.
  - exact Hwf.
  - exact Hwf.
  - assert (Hix' : Ant.int_x self' = 8%Z).
    { rewrite Hix. simpl. replace (7 + 1 * 1)%R with (IZR 8) by lra. apply py_int_IZR. }
    assert (Hiy' : Ant.int_y self' = 5%Z).
    { rewrite Hiy. simpl. replace (5 + 0 * 1)%R with (IZR 5) by lra. apply py_int_IZR. }
    pose proof (@deposit_condition 1 self self' s s' eq_refl Hstep) as (_ & Hchanged & _).
    rewrite Hix', Hiy' in Hchanged.
    destruct Hchanged as (Hp & _ & Hset & _).
    { left. rewrite Hix'. discriminate. }
    exists self', s'. split; [exact Hstep|]. split; [exact Hp | exact Hset].
Defined.

(** C3 as stated fails where the deposit is due: the ant of the example
    above moves from grid cell (1, 1) to grid cell (2, 1), the home map
    changes, and what is written there is the scent after the
    multiplication, 99.5, not the scent 100 the ant had when the step
    began. *)
Lemma deposit_condition_counterexample :
  ~ deposits_scent_before_decay 1 (ant_at_rest 7 5 1 0 false 3)
      (mkShared seed1 fresh_map fresh_map).
Proof.
  intros Hclaim.
  assert (Hwf : Map.well_formed fresh_map) by (repeat split; simpl; lia).
  destruct (@step_quiet_interior 1 (ant_at_rest 7 5 1 0 false 3)
                                 (mkShared seed1 fresh_map fresh_map))
    as (self' & s' & Hstep & _ & _ & _ & _ & _ & _ & _ & Hix & Hiy & _).
  - intros n Hn. apply seed1_quiet. lia.
  - reflexivity.
  - simpl. lia.
  - simpl. lra.
  - simpl. lra.
  - split; simpl; lra.
  - exact Hwf.
  - exact Hwf.
  - assert (Hix' : Ant.int_x self' = 8%Z).
    { rewrite Hix. simpl. replace (7 + 1 * 1)%R with (IZR 8) by lra. apply py_int_IZR. }
    assert (Hiy' : Ant.int_y self' = 5%Z).
    { rewrite Hiy. simpl. replace (5 + 0 * 1)%R with (IZR 5) by lra. apply py_int_IZR. }
    destruct (@step_deposit 1 (ant_at_rest 7 5 1 0 false 3) self' _ s' eq_refl Hstep)
      as (_ & _ & _ & _ & _ & Hcase).
    rewrite Hix', Hiy' in Hcase.
    change (Ant.home_pher self' = (100 * 0.995)%R /\
            Ant.food_pher self' = 100%R /\
            Map.set_value fresh_map (PyInt 8) (PyInt 5) (Ant.home_pher self')
            = Ok (home_map s') /\
            food_map s' = fresh_map) in Hcase.
    destruct Hcase as (Hp & _ & Hset & _).
    destruct (@set_value_int fresh_map 8 5 (Ant.home_pher self') Hwf)
      as (m' & Hset' & _ & Hcell).
    rewrite Hset in Hset'. injection Hset' as <-.
    change (exists cur,
               ndarray.getitem (Map.map_vals fresh_map) (5 / 4) (8 / 4) = Ok cur /\
               ((Ant.home_pher self' > cur)%R ->
                ndarray.getitem (Map.map_vals (home_map s')) (5 / 4) (8 / 4)
                = Ok (Ant.home_pher self')) /\
               ((Ant.home_pher self' <= cur)%R -> home_map s' = fresh_map)) in Hcell.
    destruct Hcell as (cur & Hcur & Hwritten & _).
    injection Hcur as <-.
    assert (Hget : ndarray.getitem (Map.map_vals (home_map s')) (5 / 4) (8 / 4)
                   = Ok (Ant.home_pher self')) by (apply Hwritten; rewrite Hp; lra).
    assert (Hmap : home_map s' <> home_map (mkShared seed1 fresh_map fresh_map)).
    { intros Heq. rewrite Heq in Hget. injection Hget. rewrite Hp. lra. }
    specialize (Hclaim self' s' Hstep Hmap).
    rewrite Hix', Hiy', map_get_value_cell in Hclaim.
    assert (Hb : Map.in_bounds (home_map s') (PyInt (8 / 4)) (PyInt (5 / 4)) = true).
    { destruct (set_value_cases _ _ _ _ Hset) as [->|(i & j & k & c & _ & _ & _ & ->)];
        reflexivity. }
    rewrite Hb, Hget in Hclaim. injection Hclaim. rewrite Hp.
    unfold ant_at_rest. cbn [Ant.home_pher]. lra.
Qed.

(** An ant that carries nothing and stands on no food: the loop body of
    [update] is the step. *)
Lemma update_ant_searching (cx cy : Z) (dt : R) (ant ant' : Ant.t) (food : Food.t)
      (d : Z) (s s' : Shared) :
  Ant.step dt ant s = Ok (ant', s') ->
  Ant.has_food ant' = false ->
  Food.get_value food (PyInt (Ant.int_x ant')) (PyInt (Ant.int_y ant')) = Ok false ->
  Colony.update_ant cx cy dt ant food d s = Ok ((ant', food, d), s').
Proof.
  intros Hstep Hfood Hcell. unfold Colony.update_ant, bind.
  rewrite Hstep, Hfood. unfold lift_res. rewrite Hcell. reflexivity.
Qed.

Lemma hypot_3_4 : Colony.hypot 3 4 = 5%R.
Proof.
  unfold Colony.hypot. replace (3 * 3 + 4 * 4)%R with (5 * 5)%R by lra.
  apply sqrt_square. lra.
Qed.

(** Two distinct ants closer than the collision distance and closing in:
    no draw, and the first ant's velocity gets the impulse along the
    contact normal. *)
Lemma collide_closing (ant1 ant2 : Ant.t) (s : Shared) (dist nx ny rel_dot : R) :
  Colony.hypot (Ant.x ant1 - Ant.x ant2) (Ant.y ant1 - Ant.y ant2) = dist ->
  (0 < dist < 8)%R ->
  nx = ((Ant.x ant1 - Ant.x ant2) / dist)%R ->
  ny = ((Ant.y ant1 - Ant.y ant2) / dist)%R ->
  rel_dot = ((Ant.dx ant1 - Ant.dx ant2) * nx + (Ant.dy ant1 - Ant.dy ant2) * ny)%R ->
  (rel_dot < 0)%R ->
  exists b1 b2,
    Colony.collide ant1 ant2 s = Ok ((b1, b2), s) /\
    Ant.dx b1 = (Ant.dx ant1 + - (1 + 0.5) * rel_dot / 2 * nx)%R.
Proof.
  intros Hdist Hrange Hnx Hny Hdot Hneg. unfold Colony.collide.
  rewrite Hdist. unfold Colony.collision_distance.
  destruct (Rlt_dec dist 8) as [_|Hn]; [|exfalso; lra].
  destruct (Req_EM_T dist 0) as [Hz|_]; [exfalso; lra|].
  unfold bind at 1. unfold ret at 1.
  cbn [fst snd Ant.dx Ant.dy Ant.x Ant.y Ant.set_x Ant.set_y].
  rewrite <- Hnx, <- Hny, <- Hdot.
  destruct (Rlt_dec rel_dot 0) as [_|Hn]; [|exfalso; lra].
  eexists. eexists. split; reflexivity.
Qed.

Lemma draws_add (k n : nat) (g : ManualRNG.t) :
  ManualRNG.draws n (ManualRNG.draws k g) = ManualRNG.draws (k + n) g.
Proof.
  revert g. induction k as [|k IH]; intros g; [reflexivity|].
  simpl. apply IH.
Qed.

(** Two bored ants that carry nothing, three units apart in [x] and four
    in [y] after their steps, the first moving down and the second up:
    [update] then [resolve_collisions] leaves the first ant with
    [dx = 1.72]. *)
Lemma worked_tick :
  let ant1 := ant_at_rest 102 106 1 (-1) false 5 in
  let ant2 := ant_at_rest 99 100 1 1 false 5 in
  let st := Main.mk (mkShared seed1 fresh_map fresh_map)
                    (Colony.mk [ant1; ant2] 300 200 0) no_food in
  exists s' b1 b2,
    Main.move_colony 1 st = Ok s' /\
    Colony.ants (Main.colony s') = [b1; b2] /\
    Ant.dx b1 = 1.72%R.
Proof.
  intros ant1 ant2 st.
  set (sh := mkShared seed1 fresh_map fresh_map).
  assert (Hwf : Map.well_formed fresh_map) by (repeat split; simpl; lia).
  (* the first ant *)
  destruct (@step_quiet_interior 1 ant1 sh)
    as (a1 & s1 & Hst1 & Hrng1 & Hh1 & Hf1 & Hdx1 & Hdy1 & Hx1 & Hy1 & Hix1 & Hiy1 & Hfood1);
    try exact Hwf; try reflexivity.
  { intros n Hn. apply seed1_quiet. lia. }
  { unfold ant1, ant_at_rest. cbn [Ant.x]. lra. }
  { unfold ant1, ant_at_rest. cbn [Ant.y]. lra. }
  { unfold ant1, ant_at_rest, velocity_clamped. cbn [Ant.dx Ant.dy]. lra. }
  unfold ant1, ant_at_rest in Hdx1, Hdy1, Hx1, Hy1, Hix1, Hiy1, Hfood1.
  cbn [Ant.dx Ant.dy Ant.x Ant.y Ant.has_food] in Hdx1, Hdy1, Hx1, Hy1, Hix1, Hiy1, Hfood1.
  replace (102 + 1 * 1)%R with (IZR 103) in Hx1, Hix1 by lra.
  replace (106 + -1 * 1)%R with (IZR 105) in Hy1, Hiy1 by lra.
  rewrite py_int_IZR in Hix1, Hiy1.
  assert (Hup1 : Colony.update_ant 300 200 1 ant1 no_food 0 sh = Ok ((a1, no_food, 0%Z), s1)).
  { apply update_ant_searching; [exact Hst1 | exact Hfood1|].
    rewrite Hix1, Hiy1. reflexivity. }
  (* the second ant *)
  destruct (@step_quiet_interior 1 ant2 s1)
    as (a2 & s2 & Hst2 & Hrng2 & Hh2 & Hf2 & Hdx2 & Hdy2 & Hx2 & Hy2 & Hix2 & Hiy2 & Hfood2);
    try assumption; try reflexivity.
  { intros n Hn. rewrite Hrng1. change (rng sh) with seed1. rewrite draws_add.
    apply seed1_quiet. lia. }
  { unfold ant2, ant_at_rest. cbn [Ant.x]. lra. }
  { unfold ant2, ant_at_rest. cbn [Ant.y]. lra. }
  { unfold ant2, ant_at_rest, velocity_clamped. cbn [Ant.dx Ant.dy]. lra. }
  unfold ant2, ant_at_rest in Hdx2, Hdy2, Hx2, Hy2, Hix2, Hiy2, Hfood2.
  cbn [Ant.dx Ant.dy Ant.x Ant.y Ant.has_food] in Hdx2, Hdy2, Hx2, Hy2, Hix2, Hiy2, Hfood2.
  replace (99 + 1 * 1)%R with (IZR 100) in Hx2, Hix2 by lra.
  replace (100 + 1 * 1)%R with (IZR 101) in Hy2, Hiy2 by lra.
  rewrite py_int_IZR in Hix2, Hiy2.
  assert (Hup2 : Colony.update_ant 300 200 1 ant2 no_food 0 s1 = Ok ((a2, no_food, 0%Z), s2)).
  { apply update_ant_searching; [exact Hst2 | exact Hfood2|].
    rewrite Hix2, Hiy2. reflexivity. }
  (* the collision *)
  destruct (@collide_closing a1 a2 s2 5 (3 / 5) (4 / 5) (- (8 / 5)))
    as (b1 & b2 & Hcol & Hb1).
  { rewrite Hx1, Hx2, Hy1, Hy2.
    replace (103 - 100)%R with 3%R by lra. replace (105 - 101)%R with 4%R by lra.
    apply hypot_3_4. }
  { lra. }
  { rewrite Hx1, Hx2. lra. }
  { rewrite Hy1, Hy2. lra. }
  { rewrite Hdx1, Hdx2, Hdy1, Hdy2. lra. }
  { lra. }
  exists (Main.mk s2 (Colony.mk [b1; b2] 300 200 0) no_food), b1, b2.
  split; [|split; [reflexivity | rewrite Hb1, Hdx1; lra]].
  unfold Main.move_colony, st.
  cbn [Main.colony Main.food Main.shared].
  assert (Hupdate : Colony.update (Colony.mk [ant1; ant2] 300 200 0) no_food 1 sh
                    = Ok ((Colony.mk [a1; a2] 300 200 0, no_food), s2)).
  { unfold Colony.update.
    cbn [Colony.update_ants Colony.ants Colony.x Colony.y Colony.food_delivered].
    unfold bind. rewrite Hup1. cbv beta iota. rewrite Hup2. reflexivity. }
  assert (Hresolve : Colony.resolve_collisions (Colony.mk [a1; a2] 300 200 0) s2
                     = Ok (Colony.mk [b1; b2] 300 200 0, s2)).
  { unfold Colony.resolve_collisions, Colony.resolve_pair, Colony.ant_at.
    cbn [length Colony.ants seq for_M Nat.add Nat.sub nth_error].
    unfold bind, ret. rewrite Hcol. reflexivity. }
  fold sh. rewrite Hupdate. cbn [res_bind]. rewrite Hresolve. reflexivity.
Qed.

(** C4 as stated fails: the two ants of the worked tick have clamped
    velocities before the tick, and after [update], [resolve_collisions]
    and the step of both maps the first ant has [dx = 1.72]. *)
Lemma velocity_clamp_counterexample :
  let ant1 := ant_at_rest 102 106 1 (-1) false 5 in
  let ant2 := ant_at_rest 99 100 1 1 false 5 in
  let st := Main.mk (mkShared seed1 fresh_map fresh_map)
                    (Colony.mk [ant1; ant2] 300 200 0) no_food in
  velocity_clamped ant1 /\ velocity_clamped ant2 /\
  exists s' b1 b2,
    Main.advance_tick 1 st (Ok s') /\
    Colony.ants (Main.colony s') = [b1; b2] /\
    ~ velocity_clamped b1.
Proof.
  intros ant1 ant2 st.
  split; [unfold ant1, ant_at_rest, velocity_clamped; cbn [Ant.dx Ant.dy]; lra|].
  split; [unfold ant2, ant_at_rest, velocity_clamped; cbn [Ant.dx Ant.dy]; lra|].
  destruct worked_tick as (s1 & b1 & b2 & Hmove & Hants & Hdx).
  fold ant1 ant2 st in Hmove.
  destruct (step_total (home_map (Main.shared s1)) 1) as (h & Hh).
  destruct (step_total (food_map (Main.shared s1)) 1) as (f & Hf).
  exists (Main.mk (mkShared (rng (Main.shared s1)) h f) (Main.colony s1) (Main.food s1)),
    b1, b2.
  split; [|split; [exact Hants|]].
  - unfold Main.advance_tick. rewrite Hmove. eexists. split; [|reflexivity].
    exists h, f. now repeat split.
  - unfold velocity_clamped. rewrite Hdx. lra.
Qed.

(** ** A worked delivery *)

Lemma update_ant_delivering (cx cy : Z) (dt : R) (ant ant' : Ant.t) (food : Food.t)
      (d : Z) (s s' : Shared) :
  Ant.step dt ant s = Ok (ant', s') ->
  Ant.has_food ant' = true ->
  Colony.at_nest cx cy ant' = true ->
  Colony.update_ant cx cy dt ant food d s
  = Ok ((Ant.set_home_pher 100 (Ant.set_has_food false ant'), food, (d + 1)%Z), s').
Proof.
  intros Hstep Hfood Hnest. unfold Colony.update_ant, bind.
  rewrite Hstep, Hfood, Hnest. reflexivity.
Qed.

(** An ant carrying food ten units left of the nest walks one unit
    towards it: [update] counts one delivery. *)
Lemma worked_delivery :
  let ant := ant_at_rest 290 195 1 0 true 3 in
  let sh := mkShared seed1 fresh_map fresh_map in
  exists ant' s',
    Colony.update (Colony.mk [ant] 300 200 0) no_food 1 sh
    = Ok ((Colony.mk [ant'] 300 200 1, no_food), s') /\
    Ant.has_food ant' = false.
Proof.
  intros ant sh.
  assert (Hwf : Map.well_formed fresh_map) by (repeat split; simpl; lia).
  destruct (@step_quiet_interior 1 ant sh)
    as (a1 & s1 & Hst1 & _ & _ & _ & _ & _ & _ & _ & Hix1 & Hiy1 & Hfood1);
    try exact Hwf; try reflexivity.
  { intros n Hn. apply seed1_quiet. lia. }
  { unfold ant, ant_at_rest. cbn [Ant.x]. lra. }
  { unfold ant, ant_at_rest. cbn [Ant.y]. lra. }
  { unfold ant, ant_at_rest, velocity_clamped. cbn [Ant.dx Ant.dy]. lra. }
  unfold ant, ant_at_rest in Hix1, Hiy1, Hfood1.
  cbn [Ant.dx Ant.dy Ant.x Ant.y Ant.has_food] in Hix1, Hiy1, Hfood1.
  replace (290 + 1 * 1)%R with (IZR 291) in Hix1 by lra.
  replace (195 + 0 * 1)%R with (IZR 195) in Hiy1 by lra.
  rewrite py_int_IZR in Hix1, Hiy1.
  assert (Hnest : Colony.at_nest 300 200 a1 = true).
  { unfold Colony.at_nest. rewrite Hix1, Hiy1. reflexivity. }
  exists (Ant.set_home_pher 100 (Ant.set_has_food false a1)), s1.
  split; [|reflexivity].
  unfold Colony.update.
  cbn [Colony.update_ants Colony.ants Colony.x Colony.y Colony.food_delivered].
  unfold bind. rewrite (@update_ant_delivering 300 200 1 ant a1 no_food 0 sh s1 Hst1 Hfood1 Hnest).
  reflexivity.
Qed.

Lemma conservation_under_delivery_witness :
  let ant := ant_at_rest 290 195 1 0 true 3 in
  let sh := mkShared seed1 fresh_map fresh_map in
  exists ant' s',
    Colony.update (Colony.mk [ant] 300 200 0) no_food 1 sh
    = Ok ((Colony.mk [ant'] 300 200 1, no_food), s') /\
    deliveries [ant] [ant'] = 1%nat /\
    Ant.home_pher ant' = 100%R /\
    (Colony.food_delivered (Colony.mk [ant] 300 200 0)
     <= Colony.food_delivered (Colony.mk [ant'] 300 200 1))%Z.
Proof.
  intros ant sh.
  destruct worked_delivery as (ant' & s' & Hup & Hfood).
  fold ant sh in Hup.
  destruct conservation_under_delivery as [Hone _].
  destruct (Hone _ _ _ _ _ _ _ Hup) as (Hcount & _ & Hmono & Hall).
  exists ant', s'. split; [exact Hup|].
  cbn [Colony.ants Colony.food_delivered Colony.x Colony.y] in Hcount, Hmono, Hall.
  split; [|split; [|exact Hmono]].
  - unfold deliveries, delivered. cbn [combine filter fst snd].
    rewrite Hfood. reflexivity.
  - inversion Hall as [|? ? ? ? Hant _]; subst.
    destruct (Hant eq_refl) as [_ Hpher]. exact (Hpher Hfood).
Defined.

(** ** The run relation has one outcome

    In the model the integrator is known by the solution it computes, so
    a sequence of calls from a state has exactly one outcome.  This is a
    fact about the relation [Main.run]; it does not compare two
    executions of the program. *)

Lemma advance_tick_deterministic (dt : R) (s : Main.t) (r1 r2 : res Main.t) :
  Main.advance_tick dt s r1 -> Main.advance_tick dt s r2 -> r1 = r2.
Proof.
  unfold Main.advance_tick. destruct (Main.move_colony dt s) as [s1|e].
  - intros (a & (h1 & f1 & Hh1 & Hf1 & ->) & ->) (b & (h2 & f2 & Hh2 & Hf2 & ->) & ->).
    rewrite (step_deterministic Hh1 Hh2), (step_deterministic Hf1 Hf2). reflexivity.
  - intros -> ->. reflexivity.
Qed.

Lemma advance_tick_total (dt : R) (s : Main.t) : exists r, Main.advance_tick dt s r.
Proof.
  unfold Main.advance_tick. destruct (Main.move_colony dt s) as [s1|e].
  - destruct (step_total (home_map (Main.shared s1)) dt) as (h & Hh).
    destruct (step_total (food_map (Main.shared s1)) dt) as (f & Hf).
    eexists. eexists. split; [|reflexivity]. exists h, f. now repeat split.
  - now exists (Raise e).
Qed.

Lemma run_deterministic (calls : list Main.call) (s : Main.t) (r1 r2 : res Main.t) :
  Main.run calls s r1 -> Main.run calls s r2 -> r1 = r2.
Proof.
  revert s. induction calls as [|[dt|x y] calls IH]; intros s; simpl.
  - intros -> ->. reflexivity.
  - intros (a & Ha & Hr1) (b & Hb & Hr2).
    rewrite (@advance_tick_deterministic dt s a b Ha Hb) in Hr1.
    destruct b as [s1|e]; [now apply (IH s1) | congruence].
  - destruct (Main.place_food x y s) as [s1|e]; [apply IH | congruence].
Qed.

Lemma run_total (calls : list Main.call) (s : Main.t) : exists r, Main.run calls s r.
Proof.
  revert s. induction calls as [|[dt|x y] calls IH]; intros s; simpl.
  - now exists (Ok s).
  - destruct (advance_tick_total dt s) as ([s1|e] & Ht).
    + destruct (IH s1) as (r & Hr). exists r, (Ok s1). now split.
    + exists (Raise e), (Raise e). now split.
  - destruct (Main.place_food x y s) as [s1|e]; [apply IH | now exists (Raise e)].
Qed.

Lemma same_seed_same_rng (now1 now2 : R) :
  ManualRNG.state (Main.module_rng now1) = ManualRNG.state (Main.module_rng now2) ->
  Main.module_rng now1 = Main.module_rng now2.
Proof.
  unfold Main.module_rng, ManualRNG.init. simpl. now intros ->.
Qed.


(** ** Nothing raises from a good state *)

Lemma total_ret {A : Type} (a : A) (s : Shared) (Q : A -> Prop) :
  shared_ok s -> Q a -> total (ret a) s Q.
Proof. intros Hs Ha. now exists a, s. Qed.

Lemma total_bind {A B : Type} (c : M A) (k : A -> M B) (s : Shared)
      (P : A -> Prop) (Q : B -> Prop) :
  total c s P ->
  (forall a s1, shared_ok s1 -> P a -> total (k a) s1 Q) ->
  total (bind c k) s Q.
Proof.
  intros (a & s1 & Hc & Hs1 & Ha) Hk.
  destruct (Hk a s1 Hs1 Ha) as (b & s2 & Hkb & Hs2 & Hb).
  exists b, s2. unfold bind. rewrite Hc. now split.
Qed.

Lemma total_weaken {A : Type} (c : M A) (s : Shared) (P Q : A -> Prop) :
  total c s P -> (forall a, P a -> Q a) -> total c s Q.
Proof.
  intros (a & s' & Hc & Hs & Ha) HPQ. exists a, s'. auto.
Qed.

Lemma rng_random_total (s : Shared) :
  shared_ok s -> total rng_random s (fun _ => True).
Proof.
  intros (Hc & Hst & Hh & Hf). unfold total, rng_random, with_rng.
  pose proof (random_state_nonzero Hc Hst) as Hn.
  pose proof (random_constants Hc) as Hc'.
  destruct (ManualRNG.random (rng s)) as [u g]. cbn [snd] in *.
  exists u. eexists. split; [reflexivity|]. split; [|exact I].
  split; [exact Hc'|]. split; [exact Hn|]. split; assumption.
Qed.

Lemma rng_uniform_total (lo hi : R) (s : Shared) :
  shared_ok s -> total (rng_uniform lo hi) s (fun _ => True).
Proof.
  intros (Hc & Hst & Hh & Hf). unfold total, rng_uniform, with_rng, ManualRNG.uniform.
  pose proof (random_state_nonzero Hc Hst) as Hn.
  pose proof (random_constants Hc) as Hc'.
  destruct (ManualRNG.random (rng s)) as [u g]. cbn [snd] in *.
  eexists. eexists. split; [reflexivity|]. split; [|exact I].
  split; [exact Hc'|]. split; [exact Hn|]. split; assumption.
Qed.

Lemma rng_randint_total (lo hi : Z) (s : Shared) :
  shared_ok s -> total (rng_randint lo hi) s (fun _ => True).
Proof.
  intros (Hc & Hst & Hh & Hf). unfold total, rng_randint, with_rng, ManualRNG.randint.
  pose proof (random_state_nonzero Hc Hst) as Hn.
  pose proof (random_constants Hc) as Hc'.
  destruct (ManualRNG.random (rng s)) as [u g]. cbn [snd] in *.
  eexists. eexists. split; [reflexivity|]. split; [|exact I].
  split; [exact Hc'|]. split; [exact Hn|]. split; assumption.
Qed.

Lemma rng_normal_total (mean std : R) (s : Shared) :
  shared_ok s -> total (rng_normal mean std) s (fun _ => True).
Proof.
  intros (Hc & Hst & Hh & Hf). unfold total, rng_normal, with_rng_res.
  destruct (normal_returns Hc mean std Hst) as ([v g] & Hn). rewrite Hn.
  exists v. eexists. split; [reflexivity|]. split; [|exact I].
  assert (Hg : g = ManualRNG.draws 2 (rng s)).
  { revert Hn. unfold ManualRNG.normal. simpl.
    destruct (math_log _); [simpl|discriminate].
    destruct (math_sqrt _); [simpl|discriminate]. now intros [= _ <-]. }
  subst g. split; [now apply draws_constants|].
  split; [now apply draws_state_nonzero|]. split; assumption.
Qed.

Lemma total_bind_any {A B : Type} (c : M A) (k : A -> M B) (s : Shared) (Q : B -> Prop) :
  total c s (fun _ => True) ->
  (forall a s1, shared_ok s1 -> total (k a) s1 Q) ->
  total (bind c k) s Q.
Proof.
  intros Hc Hk. apply total_bind with (P := fun _ => True); [exact Hc|].
  intros a s1 Hs1 _. now apply Hk.
Qed.

(** Solve a goal [total c s (fun _ => True)] for code built from draws,
    [ret], [bind] and conditionals. *)
Ltac total_step :=
  match goal with
  | |- total (ret _) _ _ => apply total_ret; [assumption | exact I]
  | |- total rng_random _ _ => apply rng_random_total; assumption
  | |- total (rng_uniform _ _) _ _ => apply rng_uniform_total; assumption
  | |- total (rng_randint _ _) _ _ => apply rng_randint_total; assumption
  | |- total (rng_normal _ _) _ _ => apply rng_normal_total; assumption
  | |- total (bind _ _) _ _ =>
      apply total_bind_any; [|let Hs := fresh "Hs" in intros ? ? Hs]
  | |- total (if ?d then _ else _) _ _ => destruct d
  end.

Lemma perturb_total (dt : R) (self : Ant.t) (s : Shared) :
  shared_ok s -> total (Ant.perturb dt self) s (fun _ => True).
Proof.
  intros Hs. unfold Ant.perturb. repeat total_step.
Qed.

Lemma home_map_read_total {A : Type} (f : Map.t -> res A) (s : Shared) :
  shared_ok s -> returns (f (home_map s)) -> total (home_map_read f) s (fun _ => True).
Proof.
  intros Hs [v Hv]. exists v, s. unfold home_map_read. rewrite Hv.
  split; [reflexivity|]. split; [exact Hs | exact I].
Qed.

Lemma food_map_read_total {A : Type} (f : Map.t -> res A) (s : Shared) :
  shared_ok s -> returns (f (food_map s)) -> total (food_map_read f) s (fun _ => True).
Proof.
  intros Hs [v Hv]. exists v, s. unfold food_map_read. rewrite Hv.
  split; [reflexivity|]. split; [exact Hs | exact I].
Qed.

Lemma steer_total (dt : R) (self : Ant.t) (s : Shared) :
  shared_ok s -> total (Ant.steer dt self) s (fun _ => True).
Proof.
  intros Hs. unfold Ant.steer.
  destruct (Ant.bored self >? 0)%Z; [total_step|].
  apply total_bind_any.
  - pose proof Hs as (Hc & Hst & Hh & Hf).
    destruct (Ant.has_food self).
    + apply home_map_read_total; [exact Hs|].
      now apply map_weighted_direction_int.
    + apply food_map_read_total; [exact Hs|].
      now apply map_weighted_direction_int.
  - intros direction s1 Hs1. repeat total_step.
Qed.

Lemma deposit_total (a : Ant.t) (s : Shared) :
  shared_ok s -> total (Ant.deposit a) s (fun _ => True).
Proof.
  intros (Hc & Hst & Hh & Hf).
  destruct (deposit_returns a s Hh Hf) as (a' & s' & Hd & Hh' & Hf').
  exists a', s'. split; [exact Hd|]. split; [|exact I].
  apply deposit_spec in Hd as (Hrng & _).
  split; [rewrite Hrng; exact Hc|]. split; [rewrite Hrng; exact Hst|]. split; assumption.
Qed.

(** From a good state [step] returns, in a good state. *)
Lemma ant_step_total (dt : R) (self : Ant.t) (s : Shared) :
  shared_ok s -> total (Ant.step dt self) s (fun _ => True).
Proof.
  intros Hs. unfold Ant.step.
  apply total_bind_any; [now apply perturb_total|]. intros a1 s1 Hs1.
  apply total_bind_any; [now apply steer_total|]. intros a2 s2 Hs2.
  now apply deposit_total.
Qed.

Lemma lift_res_total {A : Type} (r : res A) (s : Shared) (Q : A -> Prop) :
  shared_ok s -> (exists v, r = Ok v /\ Q v) -> total (lift_res r) s Q.
Proof.
  intros Hs (v & -> & Hv). exists v, s.
  split; [reflexivity|]. split; [exact Hs | exact Hv].
Qed.

Lemma update_ant_total (cx cy : Z) (dt : R) (ant : Ant.t) (food : Food.t) (d : Z)
      (s : Shared) :
  shared_ok s -> Food.well_formed food ->
  total (Colony.update_ant cx cy dt ant food d) s
        (fun r => Food.well_formed (snd (fst r))).
Proof.
  intros Hs Hfood. unfold Colony.update_ant.
  apply total_bind_any; [now apply ant_step_total|]. intros a s1 Hs1.
  destruct (Ant.has_food a).
  - destruct (Colony.at_nest cx cy a); now apply total_ret.
  - apply total_bind with (P := fun _ => True).
    + apply lift_res_total; [exact Hs1|].
      destruct (food_get_value_int (Ant.int_x a) (Ant.int_y a) Hfood) as [v Hv].
      now exists v.
    + intros [|] s2 Hs2 _; [|now apply total_ret].
      apply total_bind with (P := Food.well_formed).
      * apply lift_res_total; [exact Hs2|]. apply food_bite_int. exact Hfood.
      * intros food' s3 Hs3 Hfood'. now apply total_ret.
Qed.

Lemma update_ants_total (cx cy : Z) (dt : R) (l : list Ant.t) (food : Food.t) (d : Z)
      (s : Shared) :
  shared_ok s -> Food.well_formed food ->
  total (Colony.update_ants cx cy dt l food d) s
        (fun r => Food.well_formed (snd (fst r))).
Proof.
  revert food d s. induction l as [|ant l IH]; intros food d s Hs Hfood; simpl.
  - now apply total_ret.
  - eapply total_bind; [now apply update_ant_total|].
    intros [[ant1 food1] d1] s1 Hs1 Hfood1. simpl in Hfood1.
    eapply total_bind; [now apply IH|].
    intros [[l1 food2] d2] s2 Hs2 Hfood2. now apply total_ret.
Qed.

Lemma update_total (self : Colony.t) (food : Food.t) (dt : R) (s : Shared) :
  shared_ok s -> Food.well_formed food ->
  total (Colony.update self food dt) s (fun r => Food.well_formed (snd r)).
Proof.
  intros Hs Hfood. unfold Colony.update.
  eapply total_bind; [now apply update_ants_total|].
  intros [[l food1] d] s1 Hs1 Hfood1. now apply total_ret.
Qed.

Lemma collide_total (ant1 ant2 : Ant.t) (s : Shared) :
  shared_ok s -> total (Colony.collide ant1 ant2) s (fun _ => True).
Proof.
  intros Hs. unfold Colony.collide.
  destruct (Rlt_dec _ Colony.collision_distance); [|total_step].
  apply total_bind_any.
  - repeat total_step.
  - intros [normal dist] s1 Hs1. cbv zeta. repeat total_step.
Qed.

Lemma for_M_total {A B : Type} (P : B -> Prop) (l : list A) (body : A -> B -> M B)
      (b : B) (s : Shared) :
  (forall i b s, In i l -> shared_ok s -> P b -> total (body i b) s P) ->
  shared_ok s -> P b -> total (for_M l body b) s P.
Proof.
  revert b s. induction l as [|i l IH]; intros b s Hbody Hs Hb; simpl.
  - now apply total_ret.
  - eapply total_bind; [apply Hbody; [now left | exact Hs | exact Hb]|].
    intros b1 s1 Hs1 Hb1. apply IH; [|exact Hs1 | exact Hb1].
    intros j b2 s2 Hj. apply Hbody. now right.
Qed.

Lemma resolve_pair_total (i j n : nat) (l : list Ant.t) (s : Shared) :
  (i < n)%nat -> (j < n)%nat -> shared_ok s -> length l = n ->
  total (Colony.resolve_pair i j l) s (fun l' => length l' = n).
Proof.
  intros Hi Hj Hs Hlen. unfold Colony.resolve_pair, Colony.ant_at.
  destruct (nth_error l i) as [ant1|] eqn:H1; [|apply nth_error_None in H1; lia].
  destruct (nth_error l j) as [ant2|] eqn:H2; [|apply nth_error_None in H2; lia].
  apply total_bind_any; [now apply total_ret|]. intros a1 s1 Hs1.
  apply total_bind_any; [now apply total_ret|]. intros a2 s2 Hs2.
  apply total_bind_any; [now apply collide_total|]. intros [b1 b2] s3 Hs3.
  apply total_ret; [exact Hs3|]. now rewrite !list_update_length.
Qed.

Lemma resolve_collisions_total (self : Colony.t) (s : Shared) :
  shared_ok s -> total (Colony.resolve_collisions self) s (fun _ => True).
Proof.
  intros Hs. unfold Colony.resolve_collisions.
  set (n := length (Colony.ants self)).
  apply total_bind with (P := fun l => length l = n).
  - apply for_M_total; [|exact Hs | reflexivity].
    intros i l s1 Hi Hs1 Hl. apply in_seq in Hi.
    apply for_M_total; [|exact Hs1 | exact Hl].
    intros j l1 s2 Hj Hs2 Hl1. apply in_seq in Hj.
    apply resolve_pair_total; [lia | lia | exact Hs2 | exact Hl1].
  - intros l s1 Hs1 _. now apply total_ret.
Qed.

Lemma step_well_formed (self self' : Map.t) (dt : R) :
  Map.well_formed self -> Map.step self dt self' -> Map.well_formed self'.
Proof.
  intros ((Hr & Hc & Hlen) & Hrows & Hcols) Hstep.
  apply step_iff_decay in Hstep. subst self'.
  repeat split; simpl; try assumption. unfold ndarray.flatten. now rewrite length_map.
Qed.

Lemma move_colony_returns (dt : R) (s : Main.t) :
  state_ok s -> exists s1, Main.move_colony dt s = Ok s1 /\ state_ok s1.
Proof.
  intros [Hs Hfood]. unfold Main.move_colony.
  destruct (update_total (Main.colony s) dt Hs Hfood)
    as ([c food] & s1 & Hu & Hs1 & Hfood1).
  rewrite Hu. simpl.
  destruct (resolve_collisions_total c Hs1) as (c1 & s2 & Hr & Hs2 & _).
  rewrite Hr. simpl. eexists. split; [reflexivity|]. now split.
Qed.

Lemma advance_tick_returns (dt : R) (s : Main.t) :
  state_ok s -> exists s', Main.advance_tick dt s (Ok s') /\ state_ok s'.
Proof.
  intros Hs. unfold Main.advance_tick.
  destruct (move_colony_returns dt Hs) as (s1 & -> & (Hc & Hst & Hh & Hf) & Hfood).
  destruct (step_total (home_map (Main.shared s1)) dt) as (h & Hh').
  destruct (step_total (food_map (Main.shared s1)) dt) as (f & Hf').
  exists (Main.mk (mkShared (rng (Main.shared s1)) h f) (Main.colony s1) (Main.food s1)).
  split.
  - eexists. split; [|reflexivity]. exists h, f. now repeat split.
  - split; [|exact Hfood]. split; [exact Hc|]. split; [exact Hst|].
    split; [exact (step_well_formed Hh Hh') | exact (step_well_formed Hf Hf')].
Qed.

Lemma run_returns (calls : list Main.call) (s : Main.t) :
  state_ok s -> Forall valid_call calls ->
  exists s', Main.run calls s (Ok s') /\ state_ok s'.
Proof.
  revert s. induction calls as [|c calls IH]; intros s Hs Hvalid.
  - now exists s.
  - inversion Hvalid as [|? ? Hc Hrest]; subst.
    destruct c as [dt|[x|fx] [y|fy]]; simpl in Hc; try contradiction.
    + destruct (advance_tick_returns dt Hs) as (s1 & Ht & Hs1).
      destruct (IH s1 Hs1 Hrest) as (s' & Hr & Hs').
      exists s'. split; [|exact Hs']. simpl. now exists (Ok s1).
    + destruct Hs as [Hsh Hfood]. destruct Hc as [Hx Hy].
      destruct (food_add_food_nonneg Hfood Hx Hy) as (food' & Hadd & Hfood').
      destruct (IH (Main.mk (Main.shared s) (Main.colony s) food')) as (s' & Hr & Hs');
        [now split | exact Hrest|].
      exists s'. split; [|exact Hs']. simpl. unfold Main.place_food. now rewrite Hadd.
Qed.

Lemma ant_init_total (x0 y0 : Z) (s : Shared) :
  shared_ok s -> total (Ant.init x0 y0) s (fun _ => True).
Proof. intros Hs. unfold Ant.init. repeat total_step. Qed.

Lemma make_ants_total (x0 y0 : Z) (count : nat) (s : Shared) :
  shared_ok s -> total (Colony.make_ants x0 y0 count) s (fun _ => True).
Proof.
  revert s. induction count as [|count IH]; intros s Hs; simpl; [total_step|].
  apply total_bind_any; [now apply ant_init_total|]. intros ant s1 Hs1.
  apply total_bind_any; [now apply IH|]. intros l s2 Hs2. total_step.
Qed.

Lemma map_init_returns (w h : Z) (max_val rate : R) :
  (0 <= w)%Z -> (0 <= h)%Z ->
  exists self, Map.init w h max_val rate = Ok self /\ Map.well_formed self.
Proof.
  intros Hw Hh. unfold Map.init.
  destruct (ndarray.zeros 0%R h w) as [arr|] eqn:Hz.
  - apply zeros_well_formed in Hz as (Hwf & Hr & Hc & _).
    simpl. eexists. split; [reflexivity|]. split; [exact Hwf|]. now split.
  - exfalso. revert Hz. unfold ndarray.zeros.
    replace ((h <? 0)%Z || (w <? 0)%Z) with false; [discriminate|].
    symmetry. apply orb_false_iff. split; apply Z.ltb_ge; assumption.
Qed.

Lemma food_init_returns (w h : Z) :
  (0 <= w)%Z -> (0 <= h)%Z ->
  exists self, Food.init w h = Ok self /\ Food.well_formed self.
Proof.
  intros Hw Hh. unfold Food.init.
  destruct (ndarray.zeros false h w) as [arr|] eqn:Hz.
  - apply zeros_well_formed in Hz as (Hwf & Hr & Hc & _).
    simpl. eexists. split; [reflexivity|]. split; [exact Hwf|]. now split.
  - exfalso. revert Hz. unfold ndarray.zeros.
    replace ((h <? 0)%Z || (w <? 0)%Z) with false; [discriminate|].
    symmetry. apply orb_false_iff. split; apply Z.ltb_ge; assumption.
Qed.

(** [main] builds its state without raising when the clock gives a seed
    in [1, m). *)
Lemma setup_returns (now : R) :
  (1 <= ManualRNG.state (Main.module_rng now) < 2147483647)%Z ->
  exists s, Main.setup now = Ok s /\ state_ok s.
Proof.
  intros Hseed. unfold Main.setup.
  destruct (@map_init_returns (600 / 4) (400 / 4) 100 0.999) as (h & -> & Hh);
    [discriminate | discriminate|].
  cbn [res_bind].
  destruct (@make_ants_total (600 / 2) (400 / 2) (Z.to_nat 100)
              (mkShared (Main.module_rng now) h h))
    as (l & s1 & Hl & Hs1 & _).
  { split; [apply init_constants|]. split; [exact Hseed|]. now split. }
  unfold Colony.init, bind. rewrite Hl. unfold ret. cbn [res_bind].
  destruct (@food_init_returns (600 / 4) (400 / 4)) as (f0 & -> & Hf0);
    [discriminate | discriminate|].
  cbn [res_bind].
  destruct (@food_add_food_nonneg f0 400 300 Hf0) as (f1 & -> & Hf1); [lia | lia|].
  cbn [res_bind].
  destruct (@food_add_food_nonneg f1 150 250 Hf1) as (f2 & -> & Hf2); [lia | lia|].
  cbn [res_bind].
  destruct (@food_add_food_nonneg f2 300 100 Hf2) as (f3 & -> & Hf3); [lia | lia|].
  cbn [res_bind].
  destruct (@food_add_food_nonneg f3 500 200 Hf3) as (f4 & -> & Hf4); [lia | lia|].
  cbn [res_bind].
  eexists. split; [reflexivity|]. now split.
Qed.

(** X15: the whole program never raises. When the generator of the
    module starts from a state in [1, m), [main] sets up, and any
    sequence of frames (with any time step) and of food placed at integer
    positions that are not negative runs to its end without an exception,
    in a state from which the same holds again. *)
Lemma run_never_raises (now : R) (calls : list Main.call) :
  (1 <= ManualRNG.state (Main.module_rng now) < 2147483647)%Z ->
  Forall valid_call calls ->
  exists s', Main.run_from now calls (Ok s') /\ state_ok s'.
Proof.
  intros Hseed Hvalid. unfold Main.run_from.
  destruct (setup_returns now Hseed) as (s & -> & Hs).
  now apply run_returns.
Qed.

(** * Further properties of the grids *)

(** ** One cell written, the others kept *)

Lemma offset_injective (cols i j i' j' : Z) :
  (0 <= i)%Z -> (0 <= j < cols)%Z -> (0 <= i')%Z -> (0 <= j' < cols)%Z ->
  Z.to_nat (i * cols + j) = Z.to_nat (i' * cols + j') -> i = i' /\ j = j'.
Proof.
  intros Hi Hj Hi' Hj' Heq.
  apply Z2Nat.inj in Heq; [|apply Z.add_nonneg_nonneg; [apply Z.mul_nonneg_nonneg|]; lia ..].
  assert (Hii : i = i').
  { destruct (Z.lt_trichotomy i i') as [Hlt|[Heq'|Hgt]]; [|exact Heq'|].
    - assert ((i + 1) * cols <= i' * cols)%Z by (apply Z.mul_le_mono_nonneg_r; lia). lia.
    - assert ((i' + 1) * cols <= i * cols)%Z by (apply Z.mul_le_mono_nonneg_r; lia). lia. }
  subst i'. split; [reflexivity | lia].
Qed.

(** [arr[i, j] = v] inside the array: that cell reads [v], every other
    cell reads what it did. *)
Lemma setitem_getitem {A : Type} (arr : ndarray.t A) (i j : Z) (v : A) :
  ndarray.well_formed arr ->
  (0 <= i < ndarray.rows arr)%Z -> (0 <= j < ndarray.cols arr)%Z ->
  exists arr',
    ndarray.setitem arr i j v = Ok arr' /\ ndarray.well_formed arr' /\
    ndarray.rows arr' = ndarray.rows arr /\ ndarray.cols arr' = ndarray.cols arr /\
    ndarray.data arr'
    = list_update (Z.to_nat (i * ndarray.cols arr + j)) v (ndarray.data arr) /\
    forall a b,
      (0 <= a < ndarray.rows arr)%Z -> (0 <= b < ndarray.cols arr)%Z ->
      ndarray.getitem arr' a b
      = if ((a =? i) && (b =? j))%Z then Ok v else ndarray.getitem arr a b.
Proof.
  intros Hwf Hi Hj.
  pose proof (offset_in_range arr Hi Hj) as Ho.
  pose proof (offset_in_data _ _ Hwf Ho) as Hk.
  unfold ndarray.setitem. rewrite Ho. simpl.
  apply Nat.ltb_lt in Hk. rewrite Hk. apply Nat.ltb_lt in Hk.
  eexists. split; [reflexivity|].
  split; [repeat split; try apply Hwf; simpl; rewrite list_update_length; apply Hwf|].
  split; [reflexivity|]. split; [reflexivity|]. split; [reflexivity|].
  intros a b Ha Hb. unfold ndarray.getitem, ndarray.offset. simpl.
  rewrite (axis_index_in_range Ha), (axis_index_in_range Hb). simpl.
  destruct ((a =? i)%Z && (b =? j)%Z) eqn:Hab.
  - apply andb_true_iff in Hab as [Ea Eb].
    apply Z.eqb_eq in Ea, Eb. subst a b.
    now rewrite nth_error_list_update_eq.
  - rewrite nth_error_list_update_neq; [reflexivity|].
    intros Heq. apply offset_injective in Heq; [|lia ..].
    destruct Heq as [-> ->]. rewrite !Z.eqb_refl in Hab. discriminate.
Qed.

Lemma food_get_value_cell (self : Food.t) (x y : Z) :
  Food.get_value self (PyInt x) (PyInt y)
  = if Food.in_bounds self (PyInt (x / 4)) (PyInt (y / 4))
    then ndarray.getitem (Food.map_vals self) (y / 4) (x / 4)
    else Ok false.
Proof. reflexivity. Qed.

(** ** Food: [bite] clears one cell *)

Lemma bite_spec (self : Food.t) (x y : Z) :
  Food.well_formed self ->
  Food.in_bounds self (PyInt (x / 4)) (PyInt (y / 4)) = true ->
  exists self',
    Food.bite self (PyInt x) (PyInt y) = Ok self' /\ Food.well_formed self' /\
    Food.width self' = Food.width self /\ Food.height self' = Food.height self /\
    ndarray.data (Food.map_vals self')
    = list_update (Z.to_nat (y / 4 * Food.width self + x / 4)) false
                  (ndarray.data (Food.map_vals self)) /\
    forall x' y',
      Food.get_value self' (PyInt x') (PyInt y')
      = if ((x' / 4 =? x / 4) && (y' / 4 =? y / 4))%Z then Ok false
        else Food.get_value self (PyInt x') (PyInt y').
Proof.
  intros Hself Hb. pose proof Hself as (Hwf & Hrows & Hcols).
  pose proof Hb as Hb'. apply food_in_bounds_int in Hb' as [Hx Hy].
  rewrite <- Hrows in Hy. rewrite <- Hcols in Hx.
  destruct (setitem_getitem false Hwf Hy Hx) as (arr & Hset & Hwf' & Hr & Hc & Hd & Hget).
  unfold Food.bite. simpl. rewrite Hb. unfold index_set. simpl. rewrite Hset. simpl.
  eexists. split; [reflexivity|].
  split; [split; [exact Hwf'|]; simpl; split; congruence|].
  split; [reflexivity|]. split; [reflexivity|].
  split; [simpl; rewrite Hd, Hcols; reflexivity|].
  intros x' y'. rewrite !food_get_value_cell.
  unfold Food.in_bounds. simpl.
  destruct (Num.in_range (PyInt (x' / 4)) (Food.width self)
            && Num.in_range (PyInt (y' / 4)) (Food.height self)) eqn:Hb2.
  - assert (Hb3 : Food.in_bounds self (PyInt (x' / 4)) (PyInt (y' / 4)) = true) by exact Hb2.
    apply food_in_bounds_int in Hb3 as [Hx' Hy'].
    rewrite <- Hrows in Hy'. rewrite <- Hcols in Hx'.
    rewrite (Hget _ _ Hy' Hx'). rewrite andb_comm. reflexivity.
  - destruct ((x' / 4 =? x / 4)%Z && (y' / 4 =? y / 4)%Z); reflexivity.
Qed.

Lemma filter_true_update_false (k : nat) (l : list bool) :
  nth_error l k = Some true ->
  S (length (filter (fun b : bool => b) (list_update k false l)))
  = length (filter (fun b : bool => b) l).
Proof.
  revert k. induction l as [|b l IH]; intros [|k] Hk; simpl in *; try discriminate.
  - injection Hk as ->. reflexivity.
  - destruct b; simpl; rewrite <- (IH k Hk); reflexivity.
Qed.

Lemma filter_true_update_same (k : nat) (l : list bool) :
  nth_error l k = Some false ->
  list_update k false l = l.
Proof.
  revert k. induction l as [|b l IH]; intros [|k] Hk; simpl in *; try discriminate.
  - injection Hk as ->. reflexivity.
  - f_equal. now apply IH.
Qed.

(** X1: [bite] at coordinates that map into the grid returns, the cell
    reads [False] afterwards and every other cell reads what it did; the
    number of food cells drops by one if the cell held food and stays
    otherwise.  Outside the grid [bite] changes nothing. *)
Theorem bite_clears_one_cell (self : Food.t) (x y : Z) :
  Food.well_formed self ->
  exists self',
    Food.bite self (PyInt x) (PyInt y) = Ok self' /\ Food.well_formed self' /\
    (forall x' y',
        Food.get_value self' (PyInt x') (PyInt y')
        = if ((x' / 4 =? x / 4) && (y' / 4 =? y / 4))%Z
          then Ok false
          else Food.get_value self (PyInt x') (PyInt y')) /\
    (food_cells self'
     + match Food.get_value self (PyInt x) (PyInt y) with Ok true => 1 | _ => 0 end
     = food_cells self)%nat.
Proof.
  intros Hself. pose proof Hself as (Hwf & Hrows & Hcols).
  destruct (Food.in_bounds self (PyInt (x / 4)) (PyInt (y / 4))) eqn:Hb.
  - destruct (bite_spec x y Hself Hb) as (self' & Hbite & Hwf' & _ & _ & Hd & Hget).
    exists self'. split; [exact Hbite|]. split; [exact Hwf'|]. split; [exact Hget|].
    unfold food_cells. rewrite Hd, food_get_value_cell, Hb.
    pose proof Hb as Hb'. apply food_in_bounds_int in Hb' as [Hx Hy].
    rewrite <- Hrows in Hy. rewrite <- Hcols in Hx.
    unfold ndarray.getitem. rewrite (offset_in_range _ Hy Hx). simpl. rewrite Hcols.
    destruct (nth_error _ _) as [[|]|] eqn:Hn.
    + rewrite <- (filter_true_update_false _ _ Hn). lia.
    + rewrite (filter_true_update_same _ _ Hn). lia.
    + exfalso. apply nth_error_None in Hn.
      pose proof (offset_in_data _ _ Hwf (offset_in_range _ Hy Hx)) as Hk.
      rewrite Hcols in Hk. lia.
  - exists self. unfold Food.bite. simpl. rewrite Hb.
    split; [reflexivity|]. split; [exact Hself|]. split.
    + intros x' y'. destruct ((x' / 4 =? x / 4)%Z && (y' / 4 =? y / 4)%Z) eqn:E; [|reflexivity].
      apply andb_true_iff in E as [Ex Ey]. apply Z.eqb_eq in Ex, Ey.
      rewrite food_get_value_cell, Ex, Ey, Hb. reflexivity.
    + rewrite food_get_value_cell, Hb. lia.
Qed.

Lemma bite_clears_one_cell_witness :
  let food := Food.mk 2 1 (ndarray.mk 1 2 [true; true]) in
  exists food',
    Food.bite food (PyInt 5) (PyInt 0) = Ok food' /\
    Food.get_value food' (PyInt 5) (PyInt 0) = Ok false /\
    Food.get_value food' (PyInt 0) (PyInt 0) = Ok true /\
    food_cells food' = 1%nat.
Proof.
  intros food.
  assert (Hfood : Food.well_formed food) by (repeat split; simpl; lia).
  destruct (@bite_clears_one_cell food 5 0 Hfood) as (food' & Hbite & _ & Hget & Hcount).
  exists food'. split; [exact Hbite|].
  split; [rewrite Hget; reflexivity|]. split; [rewrite Hget; reflexivity|].
  change (Food.get_value food (PyInt 5) (PyInt 0)) with (Ok true) in Hcount.
  change (food_cells food) with 2%nat in Hcount. cbv beta iota in Hcount. lia.
Defined.

(** ** Food: [add_food] marks a block *)

Lemma existsb_py_range (b lo hi : Z) :
  existsb (Z.eqb b) (py_range lo hi) = ((lo <=? b) && (b <? hi))%Z.
Proof.
  destruct ((lo <=? b)%Z && (b <? hi)%Z) eqn:Hin.
  - apply andb_true_iff in Hin as [H1 H2]. apply Z.leb_le in H1. apply Z.ltb_lt in H2.
    apply existsb_exists. exists b. split; [|apply Z.eqb_refl].
    unfold py_range. apply in_map_iff. exists (Z.to_nat (b - lo)).
    split; [lia|]. apply in_seq. lia.
  - destruct (existsb (Z.eqb b) (py_range lo hi)) eqn:Hex; [|reflexivity].
    apply existsb_exists in Hex as (c & Hc & Heq). apply Z.eqb_eq in Heq. subst c.
    apply in_py_range in Hc.
    apply andb_false_iff in Hin as [H|H]; [apply Z.leb_gt in H | apply Z.ltb_ge in H]; lia.
Qed.

(** The inner loop: row [i], columns [js]. *)
Lemma mark_row (i : Z) (js : list Z) (arr : ndarray.t bool) :
  ndarray.well_formed arr ->
  (0 <= i < ndarray.rows arr)%Z ->
  (forall j, In j js -> (0 <= j < ndarray.cols arr)%Z) ->
  exists arr',
    for_each js (fun j arr => ndarray.setitem arr i j true) arr = Ok arr' /\
    ndarray.well_formed arr' /\
    ndarray.rows arr' = ndarray.rows arr /\ ndarray.cols arr' = ndarray.cols arr /\
    forall a b,
      (0 <= a < ndarray.rows arr)%Z -> (0 <= b < ndarray.cols arr)%Z ->
      ndarray.getitem arr' a b
      = if ((a =? i)%Z && existsb (Z.eqb b) js) then Ok true else ndarray.getitem arr a b.
Proof.
  revert arr. induction js as [|j js IH]; intros arr Hwf Hi Hjs; simpl.
  - exists arr. repeat split; try apply Hwf. intros a b _ _. now rewrite andb_false_r.
  - destruct (setitem_getitem true Hwf Hi (Hjs j (or_introl eq_refl)))
      as (arr1 & -> & Hwf1 & Hr1 & Hc1 & _ & Hget1). simpl.
    destruct (IH arr1 Hwf1) as (arr' & Hfor & Hwf' & Hr' & Hc' & Hget').
    { now rewrite Hr1. }
    { intros j' Hj'. rewrite Hc1. apply Hjs. now right. }
    exists arr'. split; [exact Hfor|]. split; [exact Hwf'|].
    split; [congruence|]. split; [congruence|].
    intros a b Ha Hb. rewrite Hget' by (rewrite ?Hr1, ?Hc1; assumption).
    rewrite (Hget1 _ _ Ha Hb).
    destruct (a =? i)%Z, (b =? j)%Z, (existsb (Z.eqb b) js); reflexivity.
Qed.

(** The outer loop: rows [rs], each with the columns [js]. *)
Lemma mark_rows (rs js : list Z) (arr : ndarray.t bool) :
  ndarray.well_formed arr ->
  (forall i, In i rs -> (0 <= i < ndarray.rows arr)%Z) ->
  (forall j, In j js -> (0 <= j < ndarray.cols arr)%Z) ->
  exists arr',
    for_each rs (fun i arr => for_each js (fun j arr => ndarray.setitem arr i j true) arr) arr
    = Ok arr' /\
    ndarray.well_formed arr' /\
    ndarray.rows arr' = ndarray.rows arr /\ ndarray.cols arr' = ndarray.cols arr /\
    forall a b,
      (0 <= a < ndarray.rows arr)%Z -> (0 <= b < ndarray.cols arr)%Z ->
      ndarray.getitem arr' a b
      = if (existsb (Z.eqb a) rs && existsb (Z.eqb b) js) then Ok true
        else ndarray.getitem arr a b.
Proof.
  revert arr. induction rs as [|i rs IH]; intros arr Hwf Hrs Hjs; simpl.
  - exists arr. repeat split; apply Hwf.
  - destruct (mark_row js Hwf (Hrs i (or_introl eq_refl)) Hjs)
      as (arr1 & -> & Hwf1 & Hr1 & Hc1 & Hget1). simpl.
    destruct (IH arr1 Hwf1) as (arr' & Hfor & Hwf' & Hr' & Hc' & Hget').
    { intros i' Hi'. rewrite Hr1. apply Hrs. now right. }
    { intros j Hj. rewrite Hc1. now apply Hjs. }
    exists arr'. split; [exact Hfor|]. split; [exact Hwf'|].
    split; [congruence|]. split; [congruence|].
    intros a b Ha Hb. rewrite Hget' by (rewrite ?Hr1, ?Hc1; assumption).
    rewrite (Hget1 _ _ Ha Hb).
    destruct (a =? i)%Z, (existsb (Z.eqb b) js), (existsb (Z.eqb a) rs); reflexivity.
Qed.

(** X2: [add_food] at coordinates that are not negative returns, and
    afterwards a cell of the grid reads [True] exactly when it is in the
    5 by 5 block that starts at the mapped cell or read [True] before;
    the part of the block beyond the last row or column is dropped. *)
Theorem add_food_marks_block (self : Food.t) (x y : Z) :
  Food.well_formed self -> (0 <= x)%Z -> (0 <= y)%Z ->
  exists self',
    Food.add_food self (PyInt x) (PyInt y) = Ok self' /\ Food.well_formed self' /\
    Food.width self' = Food.width self /\ Food.height self' = Food.height self /\
    forall x' y',
      Food.get_value self' (PyInt x') (PyInt y')
      = if (Food.in_bounds self (PyInt (x' / 4)) (PyInt (y' / 4))
            && ((x / 4 <=? x' / 4) && (x' / 4 <? x / 4 + 5))
            && ((y / 4 <=? y' / 4) && (y' / 4 <? y / 4 + 5)))%Z
        then Ok true
        else Food.get_value self (PyInt x') (PyInt y').
Proof.
  intros (Hwf & Hrows & Hcols) Hx Hy. unfold Food.add_food. simpl.
  pose proof (Z.div_pos x 4 Hx ltac:(lia)) as Hgx.
  pose proof (Z.div_pos y 4 Hy ltac:(lia)) as Hgy.
  destruct (@mark_rows (py_range (y / 4) (Z.min (y / 4 + 5) (Food.height self)))
                       (py_range (x / 4) (Z.min (x / 4 + 5) (Food.width self)))
                       (Food.map_vals self) Hwf)
    as (arr & -> & Hwf' & Hr & Hc & Hget).
  { intros i Hi. apply in_py_range in Hi. lia. }
  { intros j Hj. apply in_py_range in Hj. lia. }
  simpl. eexists. split; [reflexivity|].
  split; [split; [exact Hwf'|]; simpl; split; congruence|].
  split; [reflexivity|]. split; [reflexivity|].
  intros x' y'. rewrite !food_get_value_cell. unfold Food.in_bounds at 1. simpl.
  fold (Food.in_bounds self (PyInt (x' / 4)) (PyInt (y' / 4))).
  destruct (Food.in_bounds self (PyInt (x' / 4)) (PyInt (y' / 4))) eqn:Hb; [|reflexivity].
  apply food_in_bounds_int in Hb as [Hx' Hy'].
  rewrite Hget, !existsb_py_range by lia. simpl.
  replace (y' / 4 <? Z.min (y / 4 + 5) (Food.height self))%Z with (y' / 4 <? y / 4 + 5)%Z.
  2:{ destruct (y' / 4 <? y / 4 + 5)%Z eqn:E1; symmetry;
      [apply Z.ltb_lt in E1; apply Z.ltb_lt | apply Z.ltb_ge in E1; apply Z.ltb_ge]; lia. }
  replace (x' / 4 <? Z.min (x / 4 + 5) (Food.width self))%Z with (x' / 4 <? x / 4 + 5)%Z.
  2:{ destruct (x' / 4 <? x / 4 + 5)%Z eqn:E1; symmetry;
      [apply Z.ltb_lt in E1; apply Z.ltb_lt | apply Z.ltb_ge in E1; apply Z.ltb_ge]; lia. }
  rewrite andb_comm. reflexivity.
Qed.

Lemma add_food_marks_block_witness :
  exists food',
    Food.add_food no_food (PyInt 4) (PyInt 4) = Ok food' /\
    Food.get_value food' (PyInt 8) (PyInt 8) = Ok true /\
    Food.get_value food' (PyInt 0) (PyInt 8) = Ok false /\
    Food.get_value food' (PyInt 12) (PyInt 8) = Ok false.
Proof.
  assert (Hfood : Food.well_formed no_food) by (repeat split; simpl; lia).
  destruct (@add_food_marks_block no_food 4 4 Hfood) as (food' & Hadd & _ & _ & _ & Hget);
    [lia | lia|].
  exists food'. split; [exact Hadd|]. rewrite !Hget. repeat split.
Defined.

(** ** The pheromone map: reading back a write *)

Lemma Forall_list_update {A : Type} (P : A -> Prop) (k : nat) (v : A) (l : list A) :
  Forall P l -> P v -> Forall P (list_update k v l).
Proof.
  intros Hl Hv. revert k. induction Hl as [|x l Hx Hl IH]; intros k.
  - destruct k; constructor.
  - destruct k; simpl; constructor; auto.
Qed.

Lemma list_update_same {A : Type} (k : nat) (v : A) (l : list A) :
  nth_error l k = Some v -> list_update k v l = l.
Proof.
  revert k. induction l as [|x l IH]; intros [|k] H; simpl in *; try discriminate.
  - now injection H as ->.
  - f_equal. now apply IH.
Qed.

(** Writing into a cell the value it holds leaves the array as it is. *)
Lemma setitem_same {A : Type} (arr arr' : ndarray.t A) (i j : Z) (v : A) :
  ndarray.getitem arr i j = Ok v -> ndarray.setitem arr i j v = Ok arr' -> arr' = arr.
Proof.
  unfold ndarray.getitem, ndarray.setitem.
  destruct (ndarray.offset arr i j) as [k|]; [simpl|discriminate].
  destruct (nth_error (ndarray.data arr) k) as [v0|] eqn:Hn; [|discriminate].
  intros [= ->]. destruct (k <? _)%nat; [|discriminate].
  intros [= <-]. rewrite (list_update_same _ _ Hn). now destruct arr.
Qed.

Lemma with_map_vals_same (self : Map.t) : Map.with_map_vals self (Map.map_vals self) = self.
Proof. now destruct self. Qed.

Lemma round_down_rounding : MapF32.rounding MapF32.round_down.
Proof.
  split; unfold MapF32.round_down.
  - intros a b Hab. apply IZR_le. now apply Zfloor_le.
  - intros a. now rewrite ZfloorZ.
Qed.

(** One write into the single-precision array, whichever way the test
    compares: nothing changes unless the rounded value exceeds the cell,
    and then the rounded value is stored. *)
Lemma set_value32_spec (rnd : R -> R) (weak : bool) (self : Map.t) (x y : Z) (val : R) :
  MapF32.rounding rnd -> Map.well_formed self -> MapF32.stored rnd self ->
  exists self',
    MapF32.set_value rnd weak self (PyInt x) (PyInt y) val = Ok self' /\
    Map.well_formed self' /\ MapF32.stored rnd self' /\
    Map.width self' = Map.width self /\ Map.height self' = Map.height self /\
    if Map.in_bounds self (PyInt (x / 4)) (PyInt (y / 4)) then
      exists cur,
        ndarray.getitem (Map.map_vals self) (y / 4) (x / 4) = Ok cur /\
        ((rnd val <= cur)%R -> self' = self) /\
        ((cur < rnd val)%R ->
         exists arr,
           ndarray.setitem (Map.map_vals self) (y / 4) (x / 4) (rnd val) = Ok arr /\
           self' = Map.with_map_vals self arr)
    else self' = self.
Proof.
  intros [Hmono Hidem] Hself Hst. pose proof Hself as (Hwf & Hrows & Hcols).
  destruct (Map.in_bounds self (PyInt (x / 4)) (PyInt (y / 4))) eqn:Hb.
  2:{ exists self. unfold MapF32.set_value. simpl. rewrite Hb.
      repeat (split; [first [reflexivity | assumption]|]). reflexivity. }
  pose proof Hb as Hb'. apply in_bounds_int in Hb' as [Hx Hy].
  rewrite <- Hrows in Hy. rewrite <- Hcols in Hx.
  destruct (getitem_returns Hwf Hy Hx) as [cur Hcur].
  assert (Hfix : rnd cur = cur).
  { unfold MapF32.stored in Hst. rewrite Forall_forall in Hst.
    apply Hst. exact (getitem_in_data _ _ _ Hcur). }
  destruct (setitem_getitem (rnd val) Hwf Hy Hx) as (arr & Hset & Hwf' & Hr & Hc & Hd & _).
  assert (Hres : MapF32.set_value rnd weak self (PyInt x) (PyInt y) val
                 = if Rgt_dec (if weak then rnd val else val) cur
                   then Ok (Map.with_map_vals self arr) else Ok self).
  { unfold MapF32.set_value. simpl. rewrite Hb. unfold index_get, index_set. simpl.
    rewrite Hcur. simpl. destruct (Rgt_dec _ cur); [|reflexivity].
    rewrite Hset. reflexivity. }
  rewrite Hres.
  destruct (Rle_dec (rnd val) cur) as [Hle|Hlt].
  - (* the rounded value does not exceed the cell: the map is as it was *)
    assert (Harr : ((if weak then rnd val else val) > cur)%R -> arr = Map.map_vals self).
    { intros Hgt. assert (Heq : rnd val = cur).
      { destruct weak; [lra|]. apply Rle_antisym; [exact Hle|].
        rewrite <- Hfix. apply Hmono. lra. }
      rewrite Heq in Hset. exact (setitem_same _ _ _ Hcur Hset). }
    exists self. split.
    { destruct (Rgt_dec _ cur) as [Hgt|_]; [|reflexivity].
      rewrite (Harr Hgt), with_map_vals_same. reflexivity. }
    repeat (split; [first [reflexivity | assumption]|]).
    exists cur. split; [exact Hcur|]. split; [reflexivity|]. intros Hgt. lra.
  - (* it exceeds the cell: the test succeeds either way *)
    assert (Hgt : ((if weak then rnd val else val) > cur)%R).
    { destruct weak; [lra|]. apply Rnot_le_gt. intros Hv.
      apply Hlt. rewrite <- Hfix. now apply Hmono. }
    destruct (Rgt_dec _ cur) as [_|Hn]; [|contradiction].
    eexists. split; [reflexivity|].
    split; [split; [exact Hwf'|]; simpl; split; congruence|].
    split.
    { unfold MapF32.stored. cbn [Map.with_map_vals Map.map_vals]. rewrite Hd.
      apply Forall_list_update; [exact Hst | apply Hidem]. }
    split; [reflexivity|]. split; [reflexivity|].
    exists cur. split; [exact Hcur|]. split; [intros Hle; lra|].
    intros _. exists arr. split; [exact Hset | reflexivity].
Qed.

(** X3: [set_value] followed by [get_value], with the precision of the
    array.  For a rounding [rnd] that keeps the order and a map whose
    cells are numbers of the storage format, a write at integer
    coordinates returns and leaves such a map; the written cell then
    reads the larger of its old value and the rounded [val], every other
    cell and every position outside the grid reads what it did, and
    writing the same value again changes nothing.  This holds whether the
    test compares [val] or the rounded [val] with the cell. *)
Theorem set_value_get_value (rnd : R -> R) (weak : bool) (self : Map.t) (x y : Z) (val : R) :
  MapF32.rounding rnd -> Map.well_formed self -> MapF32.stored rnd self ->
  exists self',
    MapF32.set_value rnd weak self (PyInt x) (PyInt y) val = Ok self' /\
    Map.well_formed self' /\ MapF32.stored rnd self' /\
    MapF32.set_value rnd weak self' (PyInt x) (PyInt y) val = Ok self' /\
    forall x' y',
      exists cur,
        Map.get_value self (PyInt x') (PyInt y') = Ok cur /\
        Map.get_value self' (PyInt x') (PyInt y')
        = Ok (if (Map.in_bounds self (PyInt (x / 4)) (PyInt (y / 4))
                  && ((x' / 4 =? x / 4) && (y' / 4 =? y / 4)))%Z
              then Rmax cur (rnd val) else cur).
Proof.
  intros Hrnd Hself Hst. pose proof Hself as (Hwf & Hrows & Hcols).
  destruct (@set_value32_spec rnd weak self x y val Hrnd Hself Hst)
    as (self' & Hset & Hself' & Hst' & Hw & Hh & Hcase).
  exists self'. split; [exact Hset|]. split; [exact Hself'|]. split; [exact Hst'|].
  assert (Hbounds : forall gx gy, Map.in_bounds self' gx gy = Map.in_bounds self gx gy).
  { intros gx gy. unfold Map.in_bounds. now rewrite Hw, Hh. }
  assert (Hread : forall x' y',
             exists cur,
               Map.get_value self (PyInt x') (PyInt y') = Ok cur /\
               Map.get_value self' (PyInt x') (PyInt y')
               = Ok (if (Map.in_bounds self (PyInt (x / 4)) (PyInt (y / 4))
                         && ((x' / 4 =? x / 4) && (y' / 4 =? y / 4)))%Z
                     then Rmax cur (rnd val) else cur)).
  { intros x' y'. destruct (map_get_value_int x' y' Hself) as [c Hc0].
    exists c. split; [exact Hc0|].
    destruct (Map.in_bounds self (PyInt (x / 4)) (PyInt (y / 4))) eqn:Hb;
      [|subst self'; exact Hc0].
    destruct Hcase as (cur & Hcur & Hkeep & Hwrite).
    pose proof Hb as Hb'. apply in_bounds_int in Hb' as [Hx Hy].
    rewrite <- Hrows in Hy. rewrite <- Hcols in Hx.
    cbn [andb].
    destruct (Rle_dec (rnd val) cur) as [Hle|Hlt].
    - rewrite (Hkeep Hle), Hc0. f_equal.
      destruct ((x' / 4 =? x / 4)%Z && (y' / 4 =? y / 4)%Z) eqn:E; [|reflexivity].
      apply andb_true_iff in E as [Ex Ey]. apply Z.eqb_eq in Ex, Ey.
      rewrite map_get_value_cell, Ex, Ey, Hb, Hcur in Hc0. injection Hc0 as <-.
      symmetry. now apply Rmax_left.
    - destruct Hwrite as (arr & Hsetitem & ->); [lra|].
      destruct (setitem_getitem (rnd val) Hwf Hy Hx) as (arr0 & Hset0 & _ & _ & _ & _ & Hget).
      rewrite Hsetitem in Hset0. injection Hset0 as <-.
      rewrite map_get_value_cell in Hc0 |- *. unfold Map.in_bounds at 1. simpl.
      fold (Map.in_bounds self (PyInt (x' / 4)) (PyInt (y' / 4))).
      destruct (Map.in_bounds self (PyInt (x' / 4)) (PyInt (y' / 4))) eqn:Hb2.
      + apply in_bounds_int in Hb2 as [Hx' Hy'].
        rewrite <- Hrows in Hy'. rewrite <- Hcols in Hx'.
        rewrite (Hget _ _ Hy' Hx'), andb_comm.
        destruct ((x' / 4 =? x / 4)%Z && (y' / 4 =? y / 4)%Z) eqn:E; [|exact Hc0].
        apply andb_true_iff in E as [Ex Ey]. apply Z.eqb_eq in Ex, Ey.
        rewrite Ex, Ey, Hcur in Hc0. injection Hc0 as <-.
        f_equal. symmetry. apply Rmax_right. lra.
      + injection Hc0 as <-.
        destruct ((x' / 4 =? x / 4)%Z && (y' / 4 =? y / 4)%Z) eqn:E; [|reflexivity].
        exfalso. apply andb_true_iff in E as [Ex Ey]. apply Z.eqb_eq in Ex, Ey.
        rewrite Ex, Ey in Hb2. congruence. }
  split; [|exact Hread].
  (* the second write: the cell already holds at least the rounded value *)
  destruct (@set_value32_spec rnd weak self' x y val Hrnd Hself' Hst')
    as (self2 & Hset2 & _ & _ & _ & _ & Hcase2).
  rewrite Hset2. f_equal. rewrite Hbounds in Hcase2.
  destruct (Map.in_bounds self (PyInt (x / 4)) (PyInt (y / 4))) eqn:Hb; [|exact Hcase2].
  destruct Hcase2 as (cur2 & Hcur2 & Hkeep2 & _). apply Hkeep2.
  destruct (Hread x y) as (c & Hc & Hc').
  rewrite !Z.eqb_refl in Hc'. cbn [andb] in Hc'.
  rewrite map_get_value_cell, Hbounds, Hb, Hcur2 in Hc'. injection Hc' as ->.
  apply Rmax_r.
Qed.

Lemma set_value_get_value_witness :
  exists self',
    MapF32.set_value MapF32.round_down true fresh_map (PyInt 6) (PyInt 5) 80.5 = Ok self' /\
    Map.get_value self' (PyInt 4) (PyInt 7) = Ok (Rmax 0 80) /\
    Map.get_value self' (PyInt 0) (PyInt 0) = Ok 0%R /\
    Map.get_value self' (PyInt 400) (PyInt 0) = Ok (-1)%R.
Proof.
  assert (Hwf : Map.well_formed fresh_map) by (repeat split; simpl; lia).
  assert (Hst : MapF32.stored MapF32.round_down fresh_map).
  { unfold MapF32.stored, fresh_map, MapF32.round_down. simpl.
    repeat constructor; apply f_equal, ZfloorZ. }
  assert (Hr : MapF32.round_down 80.5 = 80%R).
  { unfold MapF32.round_down. rewrite (@Zfloor_eq 80 80.5); [reflexivity | lra]. }
  destruct (@set_value_get_value MapF32.round_down true fresh_map 6 5 80.5
                                 round_down_rounding Hwf Hst)
    as (self' & Hset & _ & _ & _ & Hget).
  exists self'. split; [exact Hset|]. rewrite Hr in Hget.
  destruct (Hget 4%Z 7%Z) as (c1 & Hc1 & ->). injection Hc1 as <-.
  destruct (Hget 0%Z 0%Z) as (c2 & Hc2 & ->). injection Hc2 as <-.
  destruct (Hget 400%Z 0%Z) as (c3 & Hc3 & ->). injection Hc3 as <-.
  repeat split.
Defined.

(** X4: [get_value] at integer coordinates of a well-formed map returns
    -1 when the mapped cell is outside the grid and the value of the cell
    when it is inside.  On a map obtained from a fresh one by writes
    alone no cell is negative, so that -1 is returned exactly when the
    cell is outside the grid: there the sentinel cannot be mistaken for a
    stored value. *)
Theorem get_value_sentinel (self : Map.t) (x y : Z) :
  Map.well_formed self ->
  exists v,
    Map.get_value self (PyInt x) (PyInt y) = Ok v /\
    (Map.in_bounds self (PyInt (x / 4)) (PyInt (y / 4)) = false -> v = (-1)%R) /\
    (Map.in_bounds self (PyInt (x / 4)) (PyInt (y / 4)) = true ->
     ndarray.getitem (Map.map_vals self) (y / 4) (x / 4) = Ok v) /\
    (written self ->
     (Map.in_bounds self (PyInt (x / 4)) (PyInt (y / 4)) = true -> (0 <= v)%R) /\
     (v = (-1)%R <-> Map.in_bounds self (PyInt (x / 4)) (PyInt (y / 4)) = false)).
Proof.
  intros Hself.
  destruct (map_get_value_int x y Hself) as [v Hv]. exists v. split; [exact Hv|].
  rewrite map_get_value_cell in Hv.
  destruct (Map.in_bounds self (PyInt (x / 4)) (PyInt (y / 4))).
  - split; [discriminate|]. split; [intros _; exact Hv|].
    intros Hw. destruct (reachable_invariant (written_reachable Hw)) as [_ Hpos].
    rewrite Forall_forall in Hpos. specialize (Hpos _ (getitem_in_data _ _ _ Hv)).
    split; [intros _; exact Hpos|]. split; [intros ->; lra | discriminate].
  - injection Hv as <-. split; [reflexivity|]. split; [discriminate|].
    intros _. split; [discriminate|]. split; reflexivity.
Qed.

Lemma fresh_map_written : written fresh_map.
Proof. apply (@written_init 3 3 100 0.999). reflexivity. Qed.

Lemma fresh_map_well_formed : Map.well_formed fresh_map.
Proof. repeat split; simpl; lia. Qed.

Lemma get_value_sentinel_witness :
  exists v, Map.get_value fresh_map (PyInt (-1)) (PyInt 0) = Ok v /\ v = (-1)%R.
Proof.
  destruct (@get_value_sentinel fresh_map (-1) 0 fresh_map_well_formed) as (v & Hv & _ & _ & Hs).
  exists v. split; [exact Hv|]. apply (Hs fresh_map_written). reflexivity.
Defined.

(** ** The pheromone map: the weighted direction *)

Lemma in_directions (dx dy : Z) :
  In (dx, dy) Map.directions -> (-1 <= dx <= 1)%Z /\ (-1 <= dy <= 1)%Z.
Proof.
  unfold Map.directions. simpl.
  intros H. repeat (destruct H as [H|H]; [injection H as <- <-; lia|]). contradiction.
Qed.

(** X5: on a well-formed map whose cells are not negative (and not so
    large that eight of them could overflow a single-precision sum),
    [get_weighted_direction] at integer coordinates returns a pair whose
    components lie in [-1, 1]; it is [(0, 0)] when every cell of the map
    is 0. *)
Theorem weighted_direction_bounded (self : Map.t) (x y : Z) :
  Map.well_formed self ->
  Forall (fun v => (0 <= v <= 2 ^ 120)%R) (ndarray.data (Map.map_vals self)) ->
  exists wx wy,
    Map.get_weighted_direction self (PyInt x) (PyInt y) = Ok (wx, wy) /\
    (-1 <= wx <= 1)%R /\ (-1 <= wy <= 1)%R /\
    (Forall (fun v => v = 0%R) (ndarray.data (Map.map_vals self)) ->
     wx = 0%R /\ wy = 0%R).
Proof.
  intros Hself Hrange.
  assert (Hpos : forall v, In v (ndarray.data (Map.map_vals self)) -> (0 <= v)%R).
  { rewrite Forall_forall in Hrange. intros v Hv. apply (Hrange v Hv). }
  pose proof Hself as (Hwf & Hrows & Hcols).
  unfold Map.get_weighted_direction.
  set (P := fun acc : R * R * R =>
              let '(sx, sy, t) := acc in
              (0 <= t)%R /\ (- t <= sx <= t)%R /\ (- t <= sy <= t)%R /\
              (Forall (fun v => v = 0%R) (ndarray.data (Map.map_vals self)) -> t = 0%R)).
  match goal with
  | |- exists _ _, res_bind (for_each ?l ?body ?s) _ = _ /\ _ =>
      destruct (@for_each_invariant _ _ P l body s) as ([[sx sy] t] & -> & Hacc)
  end.
  - intros [dx dy] [[sx sy] t] Hin (Ht & Hsx & Hsy & Hz). apply in_directions in Hin as [Hdx Hdy].
    simpl. destruct (Map.in_bounds self _ _) eqn:Hb.
    + apply in_bounds_int in Hb as [Hx Hy]. rewrite <- Hrows in Hy. rewrite <- Hcols in Hx.
      unfold index_get. simpl. destruct (getitem_returns Hwf Hy Hx) as [v Hv].
      rewrite Hv. simpl. eexists. split; [reflexivity|].
      pose proof (Hpos _ (getitem_in_data _ _ _ Hv)) as Hv0.
      assert (Hdx' : (-1 <= IZR dx <= 1)%R) by (split; apply IZR_le; lia).
      assert (Hdy' : (-1 <= IZR dy <= 1)%R) by (split; apply IZR_le; lia).
      split; [lra|]. split; [nra|]. split; [nra|].
      intros Hall. rewrite (Hz Hall).
      rewrite Forall_forall in Hall. rewrite (Hall _ (getitem_in_data _ _ _ Hv)). lra.
    + eexists. split; [reflexivity|]. repeat split; tauto.
  - simpl. repeat split; try lra. 
  - simpl. destruct Hacc as (Ht & Hsx & Hsy & Hz).
    destruct (Rgt_dec t 0) as [Hgt|Hle].
    + eexists. eexists. split; [reflexivity|].
      assert (Hinv : (0 < / t)%R) by now apply Rinv_0_lt_compat.
      assert (H1 : (t * / t = 1)%R) by (apply Rinv_r; lra).
      unfold Rdiv. split; [split; nra|]. split; [split; nra|].
      intros Hall. rewrite (Hz Hall) in Hgt. lra.
    + exists 0%R, 0%R. split; [reflexivity|]. repeat split; lra.
Qed.

Lemma weighted_direction_bounded_witness :
  Map.get_weighted_direction fresh_map (PyInt 5) (PyInt 5) = Ok (0, 0)%R.
Proof.
  assert (Hrange : Forall (fun v => (0 <= v <= 2 ^ 120)%R)
                           (ndarray.data (Map.map_vals fresh_map))).
  { unfold fresh_map. simpl.
    repeat constructor; first [lra | apply pow_le; lra]. }
  destruct (@weighted_direction_bounded fresh_map 5 5 fresh_map_well_formed Hrange)
    as (wx & wy & Hw & _ & _ & Hz).
  destruct Hz as [-> ->]; [|exact Hw].
  unfold fresh_map. simpl. repeat constructor.
Defined.

(** * Further properties of the ants *)

(** ** Where a step can take an ant *)

(** The velocity used for the move: clamped, and pointing inwards near a
    wall. *)
Lemma boundary_clamp (a : Ant.t) :
  let c := Ant.clamp (Ant.boundary a) in
  Ant.x c = Ant.x a /\ Ant.y c = Ant.y a /\
  (-1 <= Ant.dx c <= 1)%R /\ (-1 <= Ant.dy c <= 1)%R /\
  ((Ant.x a < 2)%R -> Ant.dx c = 1%R) /\
  ((Ant.x a > 598)%R -> Ant.dx c = (-1)%R) /\
  ((Ant.y a < 2)%R -> Ant.dy c = 1%R) /\
  ((Ant.y a > 398)%R -> Ant.dy c = (-1)%R).
Proof.
  intros c.
  destruct (clamp_velocity (Ant.boundary a)) as [[Hdx Hdy] Hc]. fold c in Hdx, Hdy, Hc.
  destruct (boundary_frame a) as (Hbx & Hby & _).
  destruct Hc as (Hcx & Hcy & _).
  split; [congruence|]. split; [congruence|]. split; [exact Hdx|]. split; [exact Hdy|].
  assert (Hone : Rmax (Rmin 1 1) (-1) = 1%R) by (apply clamp_id; lra).
  assert (Hmone : Rmax (Rmin (-1) 1) (-1) = (-1)%R) by (apply clamp_id; lra).
  subst c. clear Hdx Hdy Hcx Hcy Hbx Hby.
  destruct a as [vx vy px py ix iy lx ly hf hp fp ur wc b].
  unfold Ant.clamp, Ant.boundary.
  cbn [Ant.x Ant.y Ant.dx Ant.dy Ant.set_dx Ant.set_dy].
  destruct (Rlt_dec px 2); cbn [Ant.x Ant.y Ant.dx Ant.dy Ant.set_dx Ant.set_dy];
    destruct (Rgt_dec px (600 - 2)); cbn [Ant.x Ant.y Ant.dx Ant.dy Ant.set_dx Ant.set_dy];
    destruct (Rlt_dec py 2); cbn [Ant.x Ant.y Ant.dx Ant.dy Ant.set_dx Ant.set_dy];
    destruct (Rgt_dec py (400 - 2)); cbn [Ant.x Ant.y Ant.dx Ant.dy Ant.set_dx Ant.set_dy];
    repeat split; intros Hw; try (exfalso; lra); first [exact Hone | exact Hmone].
Qed.

(** X6: from a good shared state a step returns; for a time step
    between 0 and 2 an ant inside the 600 by 400 world stays inside it;
    the integer position is the truncated position, and it is remembered
    as the last one. *)
Theorem step_stays_in_world (dt : R) (self : Ant.t) (s : Shared) :
  shared_ok s ->
  exists self' s',
    Ant.step dt self s = Ok (self', s') /\
    Ant.int_x self' = py_int (Ant.x self') /\ Ant.int_y self' = py_int (Ant.y self') /\
    Ant.last_x self' = Ant.int_x self' /\ Ant.last_y self' = Ant.int_y self' /\
    ((0 <= dt <= 2)%R ->
     ((0 <= Ant.x self <= 600)%R -> (0 <= Ant.x self' <= 600)%R) /\
     ((0 <= Ant.y self <= 400)%R -> (0 <= Ant.y self' <= 400)%R)).
Proof.
  intros Hs. destruct (ant_step_total dt self Hs) as (self' & s' & Hstep & _ & _).
  exists self', s'. split; [exact Hstep|].
  apply step_phases in Hstep as (a1 & s1 & a2 & s2 & Hp & Hst & Hd).
  apply perturb_frame in Hp as (_ & _ & Hp). apply steer_frame in Hst as (_ & _ & Hst).
  destruct Hp as (Hx1 & Hy1 & _). destruct Hst as (Hx2 & Hy2 & _).
  destruct (boundary_clamp a2) as (Hcx & Hcy & Hdx & Hdy & Hl & Hr & Hb & Ht).
  destruct (move_frame dt (Ant.clamp (Ant.boundary a2)))
    as (_ & _ & _ & _ & _ & _ & _ & _ & Hix & Hiy).
  assert (Hmx : Ant.x (Ant.move dt (Ant.clamp (Ant.boundary a2)))
                = (Ant.x self + Ant.dx (Ant.clamp (Ant.boundary a2)) * dt)%R).
  { rewrite Hx1, Hx2, <- Hcx. reflexivity. }
  assert (Hmy : Ant.y (Ant.move dt (Ant.clamp (Ant.boundary a2)))
                = (Ant.y self + Ant.dy (Ant.clamp (Ant.boundary a2)) * dt)%R).
  { rewrite Hy1, Hy2, <- Hcy. reflexivity. }
  rewrite <- Hx2, <- Hx1 in Hl, Hr. rewrite <- Hy2, <- Hy1 in Hb, Ht.
  revert Hd Hix Hiy Hmx Hmy Hdx Hdy Hl Hr Hb Ht.
  generalize (Ant.dx (Ant.clamp (Ant.boundary a2))) (Ant.dy (Ant.clamp (Ant.boundary a2))).
  generalize (Ant.move dt (Ant.clamp (Ant.boundary a2))).
  intros a3 vx vy Hd Hix Hiy Hmx Hmy Hdx Hdy Hl Hr Hb Ht.
  apply deposit_spec in Hd
    as (_ & _ & _ & Hx' & Hy' & Hix' & Hiy' & Hlx & Hly & _).
  rewrite Hx', Hy', Hix', Hiy', Hlx, Hly, Hmx, Hmy.
  split; [rewrite <- Hmx; exact Hix|]. split; [rewrite <- Hmy; exact Hiy|].
  split; [reflexivity|]. split; [reflexivity|].
  intros Hdt. split.
  - intros Hx. destruct (Rlt_dec (Ant.x self) 2) as [Hlo|Hlo].
    + rewrite (Hl Hlo). lra.
    + destruct (Rgt_dec (Ant.x self) 598) as [Hhi|Hhi].
      * rewrite (Hr Hhi). lra.
      * nra.
  - intros Hy. destruct (Rlt_dec (Ant.y self) 2) as [Hlo|Hlo].
    + rewrite (Hb Hlo). lra.
    + destruct (Rgt_dec (Ant.y self) 398) as [Hhi|Hhi].
      * rewrite (Ht Hhi). lra.
      * nra.
Qed.

Lemma seed1_shared_ok : shared_ok (mkShared seed1 fresh_map fresh_map).
Proof.
  split; [apply init_constants|]. split; [simpl; lia|].
  split; repeat split; simpl; lia.
Qed.

Lemma step_stays_in_world_witness :
  exists self' s',
    Ant.step 1 (ant_at_rest 5 5 1 0 false 3) (mkShared seed1 fresh_map fresh_map)
    = Ok (self', s') /\
    (0 <= Ant.x self' <= 600)%R.
Proof.
  destruct (@step_stays_in_world 1 (ant_at_rest 5 5 1 0 false 3) _ seed1_shared_ok)
    as (a & s' & H & _ & _ & _ & _ & Hw).
  exists a, s'. split; [exact H|].
  destruct Hw as [Hx _]; [lra|]. apply Hx. simpl. lra.
Defined.

(** ** Scents stay within the normalisation range *)

Lemma set_value_ok (self self' : Map.t) (x y : pynum) (val : R) :
  map_ok self -> (0 <= val <= 100)%R ->
  Map.set_value self x y val = Ok self' ->
  map_ok self' /\ Map.width self' = Map.width self /\ Map.height self' = Map.height self.
Proof.
  intros (Hwf & Hmax & Hrate & Hcells) Hval Hset.
  destruct (set_value_cases _ _ _ _ Hset) as [->|(i & j & k & cur & _ & _ & _ & ->)].
  - split; [|split; reflexivity].
    split; [exact Hwf|]. split; [exact Hmax|]. split; [exact Hrate | exact Hcells].
  - split; [|split; reflexivity].
    destruct Hwf as ((Hr & Hc & Hlen) & Hrows & Hcols).
    split; [|split; [exact Hmax|]; split; [exact Hrate|]].
    + split; [|split; assumption].
      split; [exact Hr|]. split; [exact Hc|].
      cbn [Map.with_map_vals Map.map_vals ndarray.data ndarray.rows ndarray.cols].
      now rewrite list_update_length.
    + cbn [Map.with_map_vals Map.max_val Map.map_vals ndarray.data].
      apply Forall_list_update; [exact Hcells | rewrite Hmax; exact Hval].
Qed.

Lemma decay_ok (self : Map.t) (dt : R) :
  map_ok self -> (0 <= dt)%R -> map_ok (Map.decay self dt).
Proof.
  intros (Hwf & Hmax & Hrate & Hcells) Hdt.
  split; [apply (@step_well_formed self (Map.decay self dt) dt Hwf); now apply step_iff_decay|].
  split; [exact Hmax|]. split; [exact Hrate|].
  unfold Map.decay.
  cbn [Map.with_map_vals Map.max_val Map.map_vals ndarray.data ndarray.reshape_like].
  unfold ndarray.flatten. apply Forall_forall. intros v Hv.
  apply in_map_iff in Hv as (v0 & <- & Hv0).
  rewrite Forall_forall in Hcells. specialize (Hcells _ Hv0).
  assert (Hln : (ln (Map.evaporation_rate self) <= 0)%R).
  { destruct Hrate as [H0 [Hlt|Heq]].
    - left. rewrite <- ln_1. now apply ln_increasing.
    - rewrite Heq, ln_1. lra. }
  assert (Hexp : (exp (- - ln (Map.evaporation_rate self) * dt) <= 1)%R).
  { rewrite <- exp_0.
    destruct (Req_dec (ln (Map.evaporation_rate self) * dt) 0) as [Hz|Hnz].
    - right. f_equal. lra.
    - left. apply exp_increasing. nra. }
  pose proof (exp_pos (- - ln (Map.evaporation_rate self) * dt)). nra.
Qed.

Lemma ant_step_scents (dt : R) (self self' : Ant.t) (s s' : Shared) :
  scents_ok s -> ant_ok self ->
  Ant.step dt self s = Ok (self', s') -> scents_ok s' /\ ant_ok self'.
Proof.
  intros ((Hh & Hhw & Hhh) & (Hf & Hfw & Hfh)) (Hhp & Hfp & Hur) Hstep.
  apply step_phases in Hstep as (a1 & s1 & a2 & s2 & Hp & Hst & Hd).
  pose proof (@before_deposit_frame dt self a2 s s1 s2 a1 Hp Hst) as Hfr. cbv zeta in Hfr.
  revert Hd Hfr. generalize (Ant.move dt (Ant.clamp (Ant.boundary a2))).
  intros a3 Hd (Hhome & Hfood & _ & Hhp3 & Hfp3 & Hur3 & _).
  apply deposit_spec in Hd
    as (_ & _ & _ & _ & _ & _ & _ & _ & _ & _ & Hur' & Hcase).
  rewrite <- Hhome in Hh, Hhw, Hhh. rewrite <- Hfood in Hf, Hfw, Hfh.
  rewrite <- Hhp3 in Hhp. rewrite <- Hfp3 in Hfp. rewrite <- Hur3 in Hur.
  unfold scents_ok, grid_sized, ant_ok. rewrite Hur'.
  destruct (Ant.position_changed a3).
  - destruct (Ant.has_food a3).
    + destruct Hcase as (Hfp' & Hhp' & Hset & Hsame).
      assert (Hval : (0 <= Ant.food_pher self' <= 100)%R) by (rewrite Hfp'; nra).
      destruct (@set_value_ok _ _ _ _ _ Hf Hval Hset) as (Hf' & Hw' & Hht').
      rewrite Hsame, Hhp', Hw', Hht'.
      split; [split; (split; [assumption|]; split; assumption)|].
      split; [exact Hhp|]. split; [exact Hval | exact Hur].
    + destruct Hcase as (Hhp' & Hfp' & Hset & Hsame).
      assert (Hval : (0 <= Ant.home_pher self' <= 100)%R) by (rewrite Hhp'; nra).
      destruct (@set_value_ok _ _ _ _ _ Hh Hval Hset) as (Hh' & Hw' & Hht').
      rewrite Hsame, Hfp', Hw', Hht'.
      split; [split; (split; [assumption|]; split; assumption)|].
      split; [exact Hval|]. split; [exact Hfp | exact Hur].
  - destruct Hcase as (-> & -> & -> & ->).
    split; [split; (split; [assumption|]; split; assumption)|].
    split; [exact Hhp|]. split; [exact Hfp | exact Hur].
Qed.

Lemma update_ant_scents (cx cy : Z) (dt : R) (ant ant' : Ant.t) (food food' : Food.t)
      (d d' : Z) (s s' : Shared) :
  scents_ok s -> ant_ok ant ->
  Colony.update_ant cx cy dt ant food d s = Ok ((ant', food', d'), s') ->
  scents_ok s' /\ ant_ok ant'.
Proof.
  intros Hs Ha H. unfold Colony.update_ant in H.
  apply bind_ok in H as (a1 & s1 & Hstep & H).
  destruct (@ant_step_scents _ _ _ _ _ Hs Ha Hstep) as [Hs1 (Hhp & Hfp & Hur)].
  destruct (Ant.has_food a1).
  - destruct (Colony.at_nest cx cy a1); apply ret_ok in H as [[= -> -> ->] ->];
      (split; [exact Hs1|]); unfold ant_ok;
      cbn [Ant.home_pher Ant.food_pher Ant.use_rate Ant.set_has_food Ant.set_home_pher];
      repeat split; lra.
  - apply bind_ok in H as (present & s2 & Hl & H). apply lift_res_ok in Hl as [_ ->].
    destruct present.
    + apply bind_ok in H as (f & s3 & Hb & H). apply lift_res_ok in Hb as [_ ->].
      apply ret_ok in H as [[= -> -> ->] ->]. split; [exact Hs1|]. unfold ant_ok.
      cbn [Ant.home_pher Ant.food_pher Ant.use_rate Ant.set_has_food Ant.set_food_pher].
      repeat split; lra.
    + apply ret_ok in H as [[= -> -> ->] ->]. split; [exact Hs1|].
      unfold ant_ok. repeat split; lra.
Qed.

Lemma update_ants_scents (cx cy : Z) (dt : R) (l l' : list Ant.t) (food food' : Food.t)
      (d d' : Z) (s s' : Shared) :
  scents_ok s -> Forall ant_ok l ->
  Colony.update_ants cx cy dt l food d s = Ok ((l', food', d'), s') ->
  scents_ok s' /\ Forall ant_ok l'.
Proof.
  revert l' food food' d d' s s'.
  induction l as [|ant l IH]; intros l' food food' d d' s s' Hs Hl H; simpl in H.
  - apply ret_ok in H as [[= -> -> ->] ->]. now split.
  - apply bind_ok in H as ([[ant1 food1] d1] & s1 & Hant & H).
    apply bind_ok in H as ([[l1 food2] d2] & s2 & Hrest & H).
    apply ret_ok in H as [[= -> -> ->] ->].
    inversion Hl as [|? ? Ha Hl']; subst.
    destruct (@update_ant_scents _ _ _ _ _ _ _ _ _ _ _ Hs Ha Hant) as [Hs1 Ha1].
    destruct (IH _ _ _ _ _ _ _ Hs1 Hl' Hrest) as [Hs2 Hl1].
    split; [exact Hs2|]. now constructor.
Qed.

(** ** What a collision changes *)

Lemma same_but_motion_refl (a : Ant.t) : same_but_motion a a.
Proof. repeat split. Qed.

Lemma same_but_motion_trans (a b c : Ant.t) :
  same_but_motion a b -> same_but_motion b c -> same_but_motion a c.
Proof.
  unfold same_but_motion.
  intros (H1 & H2 & H3 & H4 & H5 & H6 & H7 & H8 & H9 & H10)
         (G1 & G2 & G3 & G4 & G5 & G6 & G7 & G8 & G9 & G10).
  repeat split; congruence.
Qed.

(** One pair: the maps and everything but the motion of the two ants are
    kept, and so are the sums of the positions and of the velocities. *)
Lemma collide_spec (ant1 ant2 b1 b2 : Ant.t) (s s' : Shared) :
  Colony.collide ant1 ant2 s = Ok ((b1, b2), s') ->
  home_map s' = home_map s /\ food_map s' = food_map s /\
  same_but_motion ant1 b1 /\ same_but_motion ant2 b2 /\
  (Ant.x b1 + Ant.x b2 = Ant.x ant1 + Ant.x ant2)%R /\
  (Ant.y b1 + Ant.y b2 = Ant.y ant1 + Ant.y ant2)%R /\
  (Ant.dx b1 + Ant.dx b2 = Ant.dx ant1 + Ant.dx ant2)%R /\
  (Ant.dy b1 + Ant.dy b2 = Ant.dy ant1 + Ant.dy ant2)%R.
Proof.
  unfold Colony.collide. cbv zeta.
  generalize (Colony.hypot (Ant.x ant1 - Ant.x ant2) (Ant.y ant1 - Ant.y ant2)).
  intros dist H.
  destruct (Rlt_dec dist Colony.collision_distance) as [_|_].
  - apply bind_ok in H as ([[nx ny] d] & s1 & Hn & H).
    assert (Hmaps : home_map s1 = home_map s /\ food_map s1 = food_map s).
    { destruct (Req_EM_T dist 0).
      - apply bind_ok in Hn as (angle & s2 & Hu & Hn).
        apply with_rng_ok in Hu as (_ & Hh & Hf).
        apply ret_ok in Hn as [_ ->]. now split.
      - apply ret_ok in Hn as [_ ->]. now split. }
    clear Hn. cbn [fst snd] in H.
    cbn [Ant.x Ant.y Ant.dx Ant.dy Ant.set_x Ant.set_y] in H.
    revert H.
    generalize ((Ant.dx ant1 - Ant.dx ant2) * nx + (Ant.dy ant1 - Ant.dy ant2) * ny)%R.
    intros rel_dot H.
    destruct (Rlt_dec rel_dot 0); apply ret_ok in H as [[= -> ->] ->];
      (split; [exact (proj1 Hmaps)|]); (split; [exact (proj2 Hmaps)|]);
      (split; [repeat split|]); (split; [repeat split|]);
      cbn [Ant.x Ant.y Ant.dx Ant.dy Ant.set_x Ant.set_y Ant.set_dx Ant.set_dy];
      repeat split; ring.
  - apply ret_ok in H as [[= -> ->] ->].
    repeat split.
Qed.

Lemma for_M_invariant {A B : Type} (P : B -> Shared -> Prop) (l : list A)
      (body : A -> B -> M B) (b b' : B) (s s' : Shared) :
  (forall i b s b' s', In i l -> P b s -> body i b s = Ok (b', s') -> P b' s') ->
  P b s -> for_M l body b s = Ok (b', s') -> P b' s'.
Proof.
  revert b s. induction l as [|i l IH]; intros b s Hbody Hb H; simpl in H.
  - apply ret_ok in H as [-> ->]. exact Hb.
  - apply bind_ok in H as (b1 & s1 & H1 & H).
    apply (IH b1 s1); [|eapply Hbody; [now left | exact Hb | exact H1] | exact H].
    intros j b2 s2 b3 s3 Hj. apply Hbody. now right.
Qed.

Lemma sum_of_list_update (f : Ant.t -> R) (k : nat) (a b : Ant.t) (l : list Ant.t) :
  nth_error l k = Some a ->
  sum_of f (list_update k b l) = (sum_of f l - f a + f b)%R.
Proof.
  revert k. induction l as [|x l IH]; intros k Hk.
  - destruct k; discriminate.
  - destruct k as [|k]; simpl in Hk |- *.
    + injection Hk as ->. lra.
    + rewrite (IH k Hk). lra.
Qed.

Lemma Forall2_list_update {A B : Type} (R : A -> B -> Prop) (k : nat) (b b' : B)
      (l0 : list A) (l : list B) :
  Forall2 R l0 l -> nth_error l k = Some b ->
  (forall a, R a b -> R a b') -> Forall2 R l0 (list_update k b' l).
Proof.
  intros Hl. revert k. induction Hl as [|x y l0 l Hxy Hl IH]; intros k Hk Hb.
  - destruct k; discriminate.
  - destruct k as [|k]; simpl in Hk |- *.
    + injection Hk as ->. constructor; [now apply Hb | exact Hl].
    + constructor; [exact Hxy | now apply IH].
Qed.

Lemma resolve_pair_keeps (l0 : list Ant.t) (s0 : Shared) (i j : nat)
      (l l' : list Ant.t) (s s' : Shared) :
  i <> j -> collisions_keep l0 s0 l s ->
  Colony.resolve_pair i j l s = Ok (l', s') -> collisions_keep l0 s0 l' s'.
Proof.
  intros Hij (Hh & Hf & Hall & Hx & Hy & Hdx & Hdy) H.
  unfold Colony.resolve_pair, Colony.ant_at in H.
  destruct (nth_error l i) as [ant1|] eqn:H1;
    [|apply bind_ok in H as (? & ? & Hc & _); discriminate].
  destruct (nth_error l j) as [ant2|] eqn:H2;
    [|apply bind_ok in H as (? & ? & _ & H); apply bind_ok in H as (? & ? & Hc & _);
      discriminate].
  apply bind_ok in H as (a1 & s1 & Hr1 & H). apply ret_ok in Hr1 as [-> ->].
  apply bind_ok in H as (a2 & s2 & Hr2 & H). apply ret_ok in Hr2 as [-> ->].
  apply bind_ok in H as ([b1 b2] & s3 & Hc & H). apply ret_ok in H as [-> ->].
  apply collide_spec in Hc as (Hh' & Hf' & Hm1 & Hm2 & Hcx & Hcy & Hcdx & Hcdy).
  assert (H2' : nth_error (list_update i b1 l) j = Some ant2)
    by (rewrite (nth_error_list_update_neq _ _ Hij); exact H2).
  split; [congruence|]. split; [congruence|]. split.
  - apply (@Forall2_list_update _ _ same_but_motion j ant2 b2 l0 (list_update i b1 l));
      [|exact H2' | intros a Ha; exact (same_but_motion_trans Ha Hm2)].
    apply (@Forall2_list_update _ _ same_but_motion i ant1 b1 l0 l);
      [exact Hall | exact H1 | intros a Ha; exact (same_but_motion_trans Ha Hm1)].
  - rewrite !(@sum_of_list_update _ j ant2 b2 _ H2').
    rewrite !(@sum_of_list_update _ i ant1 b1 _ H1).
    repeat split; lra.
Qed.

Lemma collisions_keep_refl (l : list Ant.t) (s : Shared) : collisions_keep l s l s.
Proof.
  split; [reflexivity|]. split; [reflexivity|]. split; [|repeat split].
  induction l; constructor; [apply same_but_motion_refl | assumption].
Qed.

Lemma resolve_collisions_keeps (self self' : Colony.t) (s s' : Shared) :
  Colony.resolve_collisions self s = Ok (self', s') ->
  collisions_keep (Colony.ants self) s (Colony.ants self') s'.
Proof.
  unfold Colony.resolve_collisions. intros H.
  apply bind_ok in H as (l & s1 & Hl & H). apply ret_ok in H as [-> ->].
  cbn [Colony.ants Colony.with_ants].
  revert Hl. apply for_M_invariant; [|apply collisions_keep_refl].
  intros i b s2 b' s3 _ Hb.
  apply for_M_invariant; [|exact Hb].
  intros j b2 s4 b3 s5 Hj Hb2. apply resolve_pair_keeps; [|exact Hb2].
  apply in_seq in Hj. lia.
Qed.

(** X7: from a good shared state [resolve_collisions] returns; it keeps
    the number of ants, the sums of their positions and of their
    velocities along each axis, everything about each ant but its
    position and velocity (the food flag, the scents, the integer
    position used for the grids), the counter, the nest and both maps. *)
Theorem resolve_collisions_conserves (self : Colony.t) (s : Shared) :
  shared_ok s ->
  exists self' s',
    Colony.resolve_collisions self s = Ok (self', s') /\
    Forall2 same_but_motion (Colony.ants self) (Colony.ants self') /\
    sum_of Ant.x (Colony.ants self') = sum_of Ant.x (Colony.ants self) /\
    sum_of Ant.y (Colony.ants self') = sum_of Ant.y (Colony.ants self) /\
    sum_of Ant.dx (Colony.ants self') = sum_of Ant.dx (Colony.ants self) /\
    sum_of Ant.dy (Colony.ants self') = sum_of Ant.dy (Colony.ants self) /\
    Colony.food_delivered self' = Colony.food_delivered self /\
    Colony.x self' = Colony.x self /\ Colony.y self' = Colony.y self /\
    home_map s' = home_map s /\ food_map s' = food_map s.
Proof.
  intros Hs. destruct (resolve_collisions_total self Hs) as (self' & s' & Hr & _ & _).
  exists self', s'. split; [exact Hr|].
  destruct (resolve_collisions_frame _ _ Hr) as (Hd & Hx & Hy).
  apply resolve_collisions_keeps in Hr as (Hh & Hf & Hall & Hsx & Hsy & Hsdx & Hsdy).
  repeat (split; [assumption|]). assumption.
Qed.

Lemma resolve_collisions_conserves_witness :
  let self := Colony.mk [ant_at_rest 5 5 1 0 false 3; ant_at_rest 8 9 0 0 false 3] 0 0 0 in
  exists self' s',
    Colony.resolve_collisions self (mkShared seed1 fresh_map fresh_map) = Ok (self', s') /\
    sum_of Ant.x (Colony.ants self') = 13%R.
Proof.
  intros self.
  destruct (@resolve_collisions_conserves self _ seed1_shared_ok)
    as (self' & s' & Hr & _ & Hx & _).
  exists self', s'. split; [exact Hr|]. rewrite Hx. simpl. lra.
Defined.

Lemma same_but_motion_ok (l l' : list Ant.t) :
  Forall2 same_but_motion l l' -> Forall ant_ok l -> Forall ant_ok l'.
Proof.
  induction 1 as [|a b l l' Hab _ IH]; intros Hl; [constructor|].
  inversion Hl as [|? ? Ha Hl']; subst. constructor; [|now apply IH].
  destruct Hab as (_ & _ & _ & _ & _ & Hhp & Hfp & Hur & _).
  unfold ant_ok in *. rewrite <- Hhp, <- Hfp, <- Hur. exact Ha.
Qed.

Lemma move_colony_scents (dt : R) (s s1 : Main.t) :
  state_scents_ok s -> Main.move_colony dt s = Ok s1 -> state_scents_ok s1.
Proof.
  intros [Hs Hl] H. unfold Main.move_colony in H.
  destruct (Colony.update (Main.colony s) (Main.food s) dt (Main.shared s))
    as [[[c food] sh]|] eqn:Hu; [|discriminate].
  cbn [res_bind] in H.
  destruct (Colony.resolve_collisions c sh) as [[c1 sh1]|] eqn:Hr; [|discriminate].
  cbn [res_bind] in H. injection H as <-.
  unfold Colony.update in Hu.
  apply bind_ok in Hu as ([[l food1] d] & s2 & Hants & Hu).
  apply ret_ok in Hu as [[= -> ->] ->].
  destruct (@update_ants_scents _ _ _ _ _ _ _ _ _ _ _ Hs Hl Hants) as [Hs2 Hl2].
  apply resolve_collisions_keeps in Hr as (Hh & Hf & Hall & _).
  cbn [Colony.ants] in Hall.
  split; cbn [Main.shared Main.colony].
  - unfold scents_ok. rewrite Hh, Hf. exact Hs2.
  - exact (same_but_motion_ok Hall Hl2).
Qed.

Lemma advance_tick_scents (dt : R) (s s' : Main.t) :
  (0 <= dt)%R -> state_scents_ok s -> Main.advance_tick dt s (Ok s') -> state_scents_ok s'.
Proof.
  intros Hdt Hs H. unfold Main.advance_tick in H.
  destruct (Main.move_colony dt s) as [s1|] eqn:Hm; [|discriminate].
  destruct H as (s2 & (h & f & Hh & Hf & ->) & [= ->]).
  destruct (@move_colony_scents dt s s1 Hs Hm) as [([Hh1 Hhs] & [Hf1 Hfs]) Hl1].
  apply step_iff_decay in Hh. apply step_iff_decay in Hf. subst h f.
  split; cbn [Main.shared Main.colony]; [|exact Hl1].
  unfold scents_ok. cbn [home_map food_map].
  split; (split; [now apply decay_ok | assumption]).
Qed.

Lemma run_scents (calls : list Main.call) (s s' : Main.t) :
  Forall forward_call calls -> state_scents_ok s ->
  Main.run calls s (Ok s') -> state_scents_ok s'.
Proof.
  revert s. induction calls as [|c calls IH]; intros s Hcalls Hs H; simpl in H.
  - injection H as <-. exact Hs.
  - inversion Hcalls as [|? ? Hc Hrest]; subst.
    destruct c as [dt|x y].
    + destruct H as ([s1|e] & Ht & H); [|discriminate].
      apply (IH s1 Hrest); [|exact H]. exact (@advance_tick_scents dt s s1 Hc Hs Ht).
    + destruct (Main.place_food x y s) as [s1|] eqn:Hp; [|discriminate].
      apply (IH s1 Hrest); [|exact H].
      unfold Main.place_food in Hp.
      destruct (Food.add_food (Main.food s) x y); [|discriminate].
      injection Hp as <-. exact Hs.
Qed.

Lemma ant_init_scents (x0 y0 : Z) (ant : Ant.t) (s s' : Shared) :
  Ant.init x0 y0 s = Ok (ant, s') ->
  home_map s' = home_map s /\ food_map s' = food_map s /\ ant_ok ant /\
  Ant.has_food ant = false /\ Ant.x ant = IZR x0 /\ Ant.y ant = IZR y0 /\
  Ant.int_x ant = x0 /\ Ant.int_y ant = y0 /\ Ant.bored ant = 0%Z.
Proof.
  unfold Ant.init. intros H.
  apply bind_ok in H as (vx & s1 & H1 & H). apply bind_ok in H as (vy & s2 & H2 & H).
  apply ret_ok in H as [-> ->].
  apply with_rng_res_ok in H1 as (_ & Hh1 & Hf1).
  apply with_rng_res_ok in H2 as (_ & Hh2 & Hf2).
  split; [congruence|]. split; [congruence|].
  split; [unfold ant_ok; cbn [Ant.home_pher Ant.food_pher Ant.use_rate]; lra|].
  repeat split.
Qed.

Lemma make_ants_scents (x0 y0 : Z) (count : nat) (l : list Ant.t) (s s' : Shared) :
  Colony.make_ants x0 y0 count s = Ok (l, s') ->
  home_map s' = home_map s /\ food_map s' = food_map s /\ Forall ant_ok l.
Proof.
  revert l s. induction count as [|count IH]; intros l s H; simpl in H.
  - apply ret_ok in H as [-> ->]. repeat split. constructor.
  - apply bind_ok in H as (ant & s1 & Ha & H). apply bind_ok in H as (l1 & s2 & Hl & H).
    apply ret_ok in H as [-> ->].
    apply ant_init_scents in Ha as (Hh1 & Hf1 & Hok & _).
    apply IH in Hl as (Hh2 & Hf2 & Hall).
    split; [congruence|]. split; [congruence|]. now constructor.
Qed.

Lemma map_init_ok (w h : Z) (self : Map.t) :
  Map.init w h 100 0.999 = Ok self ->
  map_ok self /\ Map.width self = w /\ Map.height self = h.
Proof.
  unfold Map.init. intros H.
  destruct (ndarray.zeros 0%R h w) as [arr|] eqn:Hz; [|discriminate].
  injection H as <-. apply zeros_well_formed in Hz as (Hwf & Hr & Hc & Hd).
  split; [|split; reflexivity].
  split; [split; [exact Hwf | now split]|].
  split; [reflexivity|]. split; [cbn [Map.evaporation_rate]; lra|].
  cbn [Map.map_vals Map.max_val]. rewrite Hd.
  apply Forall_forall. intros v Hv. apply repeat_spec in Hv. subst v. lra.
Qed.

Lemma setup_scents (now : R) (s : Main.t) :
  Main.setup now = Ok s -> state_scents_ok s.
Proof.
  unfold Main.setup. intros H.
  destruct (Map.init (600 / 4) (400 / 4) 100 0.999) as [h|] eqn:Hh; [|discriminate].
  cbn [res_bind] in H.
  destruct (Colony.init _ _ _ _) as [[c sh]|] eqn:Hc; [|discriminate].
  cbn [res_bind] in H.
  assert (Hok : scents_ok sh /\ Forall ant_ok (Colony.ants c)).
  { unfold Colony.init in Hc. apply bind_ok in Hc as (l & s1 & Hl & Hc).
    apply ret_ok in Hc as [-> ->].
    apply make_ants_scents in Hl as (Hh1 & Hf1 & Hall).
    cbn [home_map food_map] in Hh1, Hf1. apply map_init_ok in Hh.
    split; [|exact Hall]. unfold scents_ok. rewrite Hh1, Hf1.
    split; exact Hh. }
  clear Hc.
  repeat match type of H with
         | res_bind ?r _ = _ => destruct r; [cbn [res_bind] in H | discriminate]
         end.
  injection H as <-. exact Hok.
Qed.

(** ** The scents of the ants, whatever the integrator returns *)

Lemma set_value_params (self self' : Map.t) (x y : pynum) (val : R) :
  Map.set_value self x y val = Ok self' -> map_params self -> map_params self'.
Proof.
  intros Hset Hp.
  destruct (set_value_cases _ _ _ _ Hset) as [->|(i & j & k & cur & _ & _ & _ & ->)];
    exact Hp.
Qed.

Lemma step_params (self self' : Map.t) (dt : R) :
  Map.step self dt self' -> map_params self -> map_params self'.
Proof. intros (y1 & _ & ->) Hp. exact Hp. Qed.

Lemma map_init_params (w h : Z) (self : Map.t) :
  Map.init w h 100 0.999 = Ok self ->
  Map.max_val self = 100%R /\ Map.evaporation_rate self = 0.999%R /\
  Map.width self = w /\ Map.height self = h.
Proof.
  unfold Map.init. intros H.
  destruct (ndarray.zeros 0%R h w) as [arr|]; [|discriminate].
  injection H as <-. repeat split.
Qed.

Lemma ant_step_params (dt : R) (self self' : Ant.t) (s s' : Shared) :
  params_ok s -> ant_ok self ->
  Ant.step dt self s = Ok (self', s') -> params_ok s' /\ ant_ok self'.
Proof.
  intros [Hh Hf] (Hhp & Hfp & Hur) Hstep.
  apply step_phases in Hstep as (a1 & s1 & a2 & s2 & Hp & Hst & Hd).
  pose proof (@before_deposit_frame dt self a2 s s1 s2 a1 Hp Hst) as Hfr. cbv zeta in Hfr.
  revert Hd Hfr. generalize (Ant.move dt (Ant.clamp (Ant.boundary a2))).
  intros a3 Hd (Hhome & Hfood & _ & Hhp3 & Hfp3 & Hur3 & _).
  apply deposit_spec in Hd
    as (_ & _ & _ & _ & _ & _ & _ & _ & _ & _ & Hur' & Hcase).
  rewrite <- Hhome in Hh. rewrite <- Hfood in Hf.
  rewrite <- Hhp3 in Hhp. rewrite <- Hfp3 in Hfp. rewrite <- Hur3 in Hur.
  unfold params_ok, ant_ok. rewrite Hur'.
  destruct (Ant.position_changed a3).
  - destruct (Ant.has_food a3).
    + destruct Hcase as (Hfp' & Hhp' & Hset & Hsame).
      assert (Hval : (0 <= Ant.food_pher self' <= 100)%R) by (rewrite Hfp'; nra).
      rewrite Hsame, Hhp'.
      split; [split; [exact Hh | exact (set_value_params _ _ _ Hset Hf)]|].
      split; [exact Hhp|]. split; [exact Hval | exact Hur].
    + destruct Hcase as (Hhp' & Hfp' & Hset & Hsame).
      assert (Hval : (0 <= Ant.home_pher self' <= 100)%R) by (rewrite Hhp'; nra).
      rewrite Hsame, Hfp'.
      split; [split; [exact (set_value_params _ _ _ Hset Hh) | exact Hf]|].
      split; [exact Hval|]. split; [exact Hfp | exact Hur].
  - destruct Hcase as (-> & -> & -> & ->).
    split; [split; assumption|].
    split; [exact Hhp|]. split; [exact Hfp | exact Hur].
Qed.

Lemma update_ant_params (cx cy : Z) (dt : R) (ant ant' : Ant.t) (food food' : Food.t)
      (d d' : Z) (s s' : Shared) :
  params_ok s -> ant_ok ant ->
  Colony.update_ant cx cy dt ant food d s = Ok ((ant', food', d'), s') ->
  params_ok s' /\ ant_ok ant'.
Proof.
  intros Hs Ha H. unfold Colony.update_ant in H.
  apply bind_ok in H as (a1 & s1 & Hstep & H).
  destruct (@ant_step_params _ _ _ _ _ Hs Ha Hstep) as [Hs1 (Hhp & Hfp & Hur)].
  destruct (Ant.has_food a1).
  - destruct (Colony.at_nest cx cy a1); apply ret_ok in H as [[= -> -> ->] ->];
      (split; [exact Hs1|]); unfold ant_ok;
      cbn [Ant.home_pher Ant.food_pher Ant.use_rate Ant.set_has_food Ant.set_home_pher];
      repeat split; lra.
  - apply bind_ok in H as (present & s2 & Hl & H). apply lift_res_ok in Hl as [_ ->].
    destruct present.
    + apply bind_ok in H as (f & s3 & Hb & H). apply lift_res_ok in Hb as [_ ->].
      apply ret_ok in H as [[= -> -> ->] ->]. split; [exact Hs1|]. unfold ant_ok.
      cbn [Ant.home_pher Ant.food_pher Ant.use_rate Ant.set_has_food Ant.set_food_pher].
      repeat split; lra.
    + apply ret_ok in H as [[= -> -> ->] ->]. split; [exact Hs1|].
      unfold ant_ok. repeat split; lra.
Qed.

Lemma update_ants_params (cx cy : Z) (dt : R) (l l' : list Ant.t) (food food' : Food.t)
      (d d' : Z) (s s' : Shared) :
  params_ok s -> Forall ant_ok l ->
  Colony.update_ants cx cy dt l food d s = Ok ((l', food', d'), s') ->
  params_ok s' /\ Forall ant_ok l'.
Proof.
  revert l' food food' d d' s s'.
  induction l as [|ant l IH]; intros l' food food' d d' s s' Hs Hl H; simpl in H.
  - apply ret_ok in H as [[= -> -> ->] ->]. now split.
  - apply bind_ok in H as ([[ant1 food1] d1] & s1 & Hant & H).
    apply bind_ok in H as ([[l1 food2] d2] & s2 & Hrest & H).
    apply ret_ok in H as [[= -> -> ->] ->].
    inversion Hl as [|? ? Ha Hl']; subst.
    destruct (@update_ant_params _ _ _ _ _ _ _ _ _ _ _ Hs Ha Hant) as [Hs1 Ha1].
    destruct (IH _ _ _ _ _ _ _ Hs1 Hl' Hrest) as [Hs2 Hl1].
    split; [exact Hs2|]. now constructor.
Qed.

Lemma move_colony_params (dt : R) (s s1 : Main.t) :
  state_params_ok s -> Main.move_colony dt s = Ok s1 -> state_params_ok s1.
Proof.
  intros [Hs Hl] H. unfold Main.move_colony in H.
  destruct (Colony.update (Main.colony s) (Main.food s) dt (Main.shared s))
    as [[[c food] sh]|] eqn:Hu; [|discriminate].
  cbn [res_bind] in H.
  destruct (Colony.resolve_collisions c sh) as [[c1 sh1]|] eqn:Hr; [|discriminate].
  cbn [res_bind] in H. injection H as <-.
  unfold Colony.update in Hu.
  apply bind_ok in Hu as ([[l food1] d] & s2 & Hants & Hu).
  apply ret_ok in Hu as [[= -> ->] ->].
  destruct (@update_ants_params _ _ _ _ _ _ _ _ _ _ _ Hs Hl Hants) as [Hs2 Hl2].
  apply resolve_collisions_keeps in Hr as (Hh & Hf & Hall & _).
  cbn [Colony.ants] in Hall.
  split; cbn [Main.shared Main.colony].
  - unfold params_ok. rewrite Hh, Hf. exact Hs2.
  - exact (same_but_motion_ok Hall Hl2).
Qed.

(** A frame keeps them, whatever its time step and whatever the two
    calls of [step] leave in the cells. *)
Lemma advance_tick_params (dt : R) (s s' : Main.t) :
  state_params_ok s -> Main.advance_tick dt s (Ok s') -> state_params_ok s'.
Proof.
  intros Hs H. unfold Main.advance_tick in H.
  destruct (Main.move_colony dt s) as [s1|] eqn:Hm; [|discriminate].
  destruct H as (s2 & (h & f & Hh & Hf & ->) & [= ->]).
  destruct (@move_colony_params dt s s1 Hs Hm) as [[Hh1 Hf1] Hl1].
  split; cbn [Main.shared Main.colony]; [|exact Hl1].
  split; cbn [home_map food_map];
    [exact (step_params Hh Hh1) | exact (step_params Hf Hf1)].
Qed.

Lemma run_params (calls : list Main.call) (s s' : Main.t) :
  state_params_ok s -> Main.run calls s (Ok s') -> state_params_ok s'.
Proof.
  revert s. induction calls as [|c calls IH]; intros s Hs H; simpl in H.
  - injection H as <-. exact Hs.
  - destruct c as [dt|x y].
    + destruct H as ([s1|e] & Ht & H); [|discriminate].
      apply (IH s1); [|exact H]. exact (@advance_tick_params dt s s1 Hs Ht).
    + destruct (Main.place_food x y s) as [s1|] eqn:Hp; [|discriminate].
      apply (IH s1); [|exact H].
      unfold Main.place_food in Hp.
      destruct (Food.add_food (Main.food s) x y); [|discriminate].
      injection Hp as <-. exact Hs.
Qed.

Lemma setup_params (now : R) (s : Main.t) :
  Main.setup now = Ok s -> state_params_ok s.
Proof.
  unfold Main.setup. intros H.
  destruct (Map.init (600 / 4) (400 / 4) 100 0.999) as [h|] eqn:Hh; [|discriminate].
  cbn [res_bind] in H.
  destruct (Colony.init _ _ _ _) as [[c sh]|] eqn:Hc; [|discriminate].
  cbn [res_bind] in H.
  assert (Hok : params_ok sh /\ Forall ant_ok (Colony.ants c)).
  { unfold Colony.init in Hc. apply bind_ok in Hc as (l & s1 & Hl & Hc).
    apply ret_ok in Hc as [-> ->].
    apply make_ants_scents in Hl as (Hh1 & Hf1 & Hall).
    cbn [home_map food_map] in Hh1, Hf1.
    apply map_init_params in Hh as (Hmax & Hrate & Hw & Hht).
    split; [|exact Hall]. unfold params_ok. rewrite Hh1, Hf1.
    split; (split; [exact Hmax|]; split; [exact Hrate|]; split; assumption). }
  clear Hc.
  repeat match type of H with
         | res_bind ?r _ = _ => destruct r; [cbn [res_bind] in H | discriminate]
         end.
  injection H as <-. exact Hok.
Qed.

(** X8: in any run of the program, whatever its time steps and whatever
    the integrator leaves in the cells, the scents every ant carries stay
    within [0, 100], the range the drawing normalises by; and both maps
    keep the parameters [main] gave them: [max_val = 100], retention
    0.999 and the 150 by 100 grid. *)
Theorem scents_stay_bounded (now : R) (calls : list Main.call) (s : Main.t) :
  Main.run_from now calls (Ok s) ->
  Forall (fun ant => (0 <= Ant.home_pher ant <= 100)%R /\ (0 <= Ant.food_pher ant <= 100)%R)
         (Colony.ants (Main.colony s)) /\
  (forall m, m = home_map (Main.shared s) \/ m = food_map (Main.shared s) ->
             Map.max_val m = 100%R /\ Map.evaporation_rate m = 0.999%R /\
             Map.width m = 150%Z /\ Map.height m = 100%Z).
Proof.
  intros H. unfold Main.run_from in H.
  destruct (Main.setup now) as [s0|] eqn:Hsetup; [|discriminate].
  apply setup_params in Hsetup.
  destruct (@run_params calls s0 s Hsetup H) as [[Hh Hf] Hl].
  split.
  - eapply Forall_impl; [|exact Hl]. intros a (Hhp & Hfp & _). now split.
  - intros m [->| ->]; [destruct Hh as (Hm & Hr & Hw & Hht) | destruct Hf as (Hm & Hr & Hw & Hht)];
      repeat split; assumption.
Qed.

Lemma seed_of_clock : ManualRNG.state (Main.module_rng 0.001) = 1%Z.
Proof.
  unfold Main.module_rng, ManualRNG.init. cbn [ManualRNG.state].
  replace (0.001 * 1000)%R with (IZR 1) by lra. rewrite py_int_IZR. reflexivity.
Qed.

Lemma scents_stay_bounded_witness :
  exists s,
    Main.run_from 0.001 [Main.AdvanceTick 0.45; Main.AdvanceTick (-1)] (Ok s) /\
    Forall (fun ant => (0 <= Ant.home_pher ant <= 100)%R /\ (0 <= Ant.food_pher ant <= 100)%R)
           (Colony.ants (Main.colony s)) /\
    Map.max_val (home_map (Main.shared s)) = 100%R.
Proof.
  assert (Hseed : (1 <= ManualRNG.state (Main.module_rng 0.001) < 2147483647)%Z)
    by (rewrite seed_of_clock; lia).
  destruct (setup_returns 0.001 Hseed) as (s0 & Hsetup & Hs0).
  destruct (@run_returns [Main.AdvanceTick 0.45; Main.AdvanceTick (-1)] s0 Hs0)
    as (s & Hrun & _); [repeat constructor|].
  assert (Hfrom : Main.run_from 0.001 [Main.AdvanceTick 0.45; Main.AdvanceTick (-1)] (Ok s))
    by (unfold Main.run_from; rewrite Hsetup; exact Hrun).
  exists s. split; [exact Hfrom|].
  destruct (@scents_stay_bounded 0.001 [Main.AdvanceTick 0.45; Main.AdvanceTick (-1)] s Hfrom)
    as [Hants Hmaps].
  split; [exact Hants|].
  exact (proj1 (Hmaps _ (or_introl eq_refl))).
Defined.

(** * Drawing *)

Lemma py_int_range (r : R) (a b : Z) :
  (0 <= a)%Z -> (IZR a <= r <= IZR b)%R -> (a <= py_int r <= b)%Z.
Proof.
  intros Ha [Hlo Hhi].
  assert (H0 : (0 <= r)%R) by (apply IZR_le in Ha; lra).
  destruct (py_int_nonneg H0) as [Hfl Hce]. split.
  - assert (Hlt : (a < py_int r + 1)%Z) by (apply lt_IZR; rewrite plus_IZR; lra). lia.
  - apply le_IZR. lra.
Qed.

(** The colour of one cell: a blend of the ground with the nest colour
    by the home scent, then with white by the food scent. *)
Lemma pheromone_color_range (home_val food_val max_val : R) :
  (0 < max_val)%R -> (0 <= home_val <= max_val)%R -> (0 <= food_val <= max_val)%R ->
  match Render.pheromone_color home_val food_val max_val with
  | Some (r, g, b) =>
      (80 <= r <= 255 /\ 70 <= g <= 255 /\ 45 <= b <= 255)%Z /\
      (food_val = max_val -> (r, g, b) = (255, 255, 255)%Z) /\
      (food_val = 0%R -> home_val = max_val -> (r, g, b) = (80, 70, 60)%Z)
  | None => home_val = 0%R /\ food_val = 0%R
  end.
Proof.
  intros Hmax Hhome Hfood.
  unfold Render.pheromone_color, Render.painted.
  assert (Hpaint : (if Rgt_dec home_val 0 then true
                    else if Rgt_dec food_val 0 then true else false) = false ->
                   home_val = 0%R /\ food_val = 0%R).
  { destruct (Rgt_dec home_val 0); [discriminate|].
    destruct (Rgt_dec food_val 0); [discriminate|]. intros _. split; lra. }
  destruct (if Rgt_dec home_val 0 then true else if Rgt_dec food_val 0 then true else false);
    [clear Hpaint | now apply Hpaint].
  cbv zeta.
  assert (Hh : (home_val / max_val * 255 / 255 = home_val / max_val)%R) by (field; lra).
  assert (Hf : (food_val / max_val * 255 / 255 = food_val / max_val)%R) by (field; lra).
  rewrite Hh, Hf. clear Hh Hf.
  assert (Hh : (0 <= home_val / max_val <= 1)%R).
  { split; [apply Rmult_le_pos; [lra | left; now apply Rinv_0_lt_compat]|].
    apply Rmult_le_reg_r with max_val; [exact Hmax|].
    unfold Rdiv. rewrite Rmult_assoc, Rinv_l by lra. lra. }
  assert (Hf : (0 <= food_val / max_val <= 1)%R).
  { split; [apply Rmult_le_pos; [lra | left; now apply Rinv_0_lt_compat]|].
    apply Rmult_le_reg_r with max_val; [exact Hmax|].
    unfold Rdiv. rewrite Rmult_assoc, Rinv_l by lra. lra. }
  assert (Hh1 : home_val = max_val -> (home_val / max_val = 1)%R)
    by (intros ->; field; lra).
  assert (Hf1 : food_val = max_val -> (food_val / max_val = 1)%R)
    by (intros ->; field; lra).
  assert (Hf0 : food_val = 0%R -> (food_val / max_val = 0)%R)
    by (intros ->; field; lra).
  revert Hh Hf Hh1 Hf1 Hf0.
  generalize (home_val / max_val)%R (food_val / max_val)%R. intros h f Hh Hf Hh1 Hf1 Hf0.
  assert (Hr1 : (80 <= py_int (80 * h + 160 * (1 - h)) <= 160)%Z)
    by (apply py_int_range; [lia | split; lra]).
  assert (Hg1 : (70 <= py_int (70 * h + 82 * (1 - h)) <= 82)%Z)
    by (apply py_int_range; [lia | split; lra]).
  assert (Hb1 : (45 <= py_int (60 * h + 45 * (1 - h)) <= 60)%Z)
    by (apply py_int_range; [lia | split; lra]).
  assert (Hr1' : home_val = max_val -> py_int (80 * h + 160 * (1 - h)) = 80%Z).
  { intros E. rewrite (Hh1 E). replace (80 * 1 + 160 * (1 - 1))%R with (IZR 80) by lra.
    apply py_int_IZR. }
  assert (Hg1' : home_val = max_val -> py_int (70 * h + 82 * (1 - h)) = 70%Z).
  { intros E. rewrite (Hh1 E). replace (70 * 1 + 82 * (1 - 1))%R with (IZR 70) by lra.
    apply py_int_IZR. }
  assert (Hb1' : home_val = max_val -> py_int (60 * h + 45 * (1 - h)) = 60%Z).
  { intros E. rewrite (Hh1 E). replace (60 * 1 + 45 * (1 - 1))%R with (IZR 60) by lra.
    apply py_int_IZR. }
  revert Hr1 Hg1 Hb1 Hr1' Hg1' Hb1'.
  generalize (py_int (80 * h + 160 * (1 - h))) (py_int (70 * h + 82 * (1 - h)))
             (py_int (60 * h + 45 * (1 - h))).
  intros r1 g1 b1 Hr1 Hg1 Hb1 Hr1' Hg1' Hb1'.
  assert (Hblend : forall c lo : Z,
             (0 <= lo)%Z -> (lo <= c <= 255)%Z ->
             (lo <= py_int (255 * f + IZR c * (1 - f)) <= 255)%Z /\
             (f = 1%R -> py_int (255 * f + IZR c * (1 - f)) = 255%Z) /\
             (f = 0%R -> py_int (255 * f + IZR c * (1 - f)) = c)).
  { intros c lo Hlo Hc.
    assert (Hc1 : (IZR lo <= IZR c)%R) by (apply IZR_le; lia).
    assert (Hc2 : (IZR c <= 255)%R) by (apply IZR_le; lia).
    split; [apply py_int_range; [exact Hlo | split; nra]|]. split.
    - intros ->. replace (255 * 1 + IZR c * (1 - 1))%R with (IZR 255) by lra.
      apply py_int_IZR.
    - intros ->. replace (255 * 0 + IZR c * (1 - 0))%R with (IZR c) by lra.
      apply py_int_IZR. }
  destruct (Hblend r1 80%Z) as (Hr & Hrw & Hr0); [lia | lia|].
  destruct (Hblend g1 70%Z) as (Hg & Hgw & Hg0); [lia | lia|].
  destruct (Hblend b1 45%Z) as (Hb & Hbw & Hb0); [lia | lia|].
  split; [split; [exact Hr|]; split; [exact Hg | exact Hb]|]. split.
  - intros E. rewrite (Hrw (Hf1 E)), (Hgw (Hf1 E)), (Hbw (Hf1 E)). reflexivity.
  - intros E0 E1. rewrite (Hr0 (Hf0 E0)), (Hg0 (Hf0 E0)), (Hb0 (Hf0 E0)).
    rewrite (Hr1' E1), (Hg1' E1), (Hb1' E1). reflexivity.
Qed.

Lemma cell_in_range (self : Map.t) (gy gx : Z) :
  map_ok self -> (0 <= gy < Map.height self)%Z -> (0 <= gx < Map.width self)%Z ->
  exists v, ndarray.getitem (Map.map_vals self) gy gx = Ok v /\
            (0 <= v <= Map.max_val self)%R.
Proof.
  intros ((Hwf & Hrows & Hcols) & _ & _ & Hcells) Hy Hx.
  rewrite <- Hrows in Hy. rewrite <- Hcols in Hx.
  destruct (getitem_returns Hwf Hy Hx) as [v Hv]. exists v. split; [exact Hv|].
  rewrite Forall_forall in Hcells. apply Hcells. exact (getitem_in_data _ _ _ Hv).
Qed.

(** On two good maps of the same size the overlay is drawn without an
    exception, in colours [pygame] accepts and inside the surface. *)
Lemma render_pheromones_ok (home food : Map.t) :
  map_ok home -> map_ok food ->
  Map.width food = Map.width home -> Map.height food = Map.height home ->
  exists drawn,
    Render.render_pheromones home food 4 = Ok drawn /\
    Forall (Render.rect_ok (4 * Map.width home) (4 * Map.height home)) drawn.
Proof.
  intros Hhome Hfood Hw Hh. unfold Render.render_pheromones.
  apply for_each_invariant; [|constructor].
  intros gy drawn Hgy Hdrawn. apply in_py_range in Hgy.
  apply for_each_invariant; [|exact Hdrawn].
  clear drawn Hdrawn. intros gx drawn Hgx Hdrawn. apply in_py_range in Hgx. cbv zeta.
  destruct (@cell_in_range home gy gx Hhome Hgy Hgx) as (hv & -> & Hhv).
  destruct (@cell_in_range food gy gx Hfood) as (fv & -> & Hfv); [lia | lia|].
  cbn [res_bind].
  destruct Hhome as (_ & Hmax & _). destruct Hfood as (_ & Hmax' & _).
  rewrite Hmax' in Hfv. rewrite Hmax in Hhv |- *.
  pose proof (@pheromone_color_range hv fv 100 ltac:(lra) Hhv Hfv) as Hc.
  destruct (Render.pheromone_color hv fv 100) as [[[r g] b]|].
  - eexists. split; [reflexivity|]. apply Forall_app. split; [exact Hdrawn|].
    constructor; [|constructor]. destruct Hc as ((Hr & Hg & Hb) & _).
    unfold Render.rect_ok.
    cbn [Render.color Render.left Render.top Render.rect_width Render.rect_height]. lia.
  - exists drawn. split; [reflexivity | exact Hdrawn].
Qed.

(** X9: at every state of a run of the program whose time steps are not
    negative, [render_pheromones] returns, and every rectangle it draws
    has colour channels within 0..255 and lies inside the 600 by 400
    window. *)
Theorem every_frame_renders (now : R) (calls : list Main.call) (s : Main.t) :
  Forall forward_call calls ->
  Main.run_from now calls (Ok s) ->
  exists drawn,
    Render.render_pheromones (home_map (Main.shared s)) (food_map (Main.shared s)) 4
    = Ok drawn /\
    Forall (Render.rect_ok 600 400) drawn.
Proof.
  intros Hcalls H. unfold Main.run_from in H.
  destruct (Main.setup now) as [s0|] eqn:Hsetup; [|discriminate].
  apply setup_scents in Hsetup.
  destruct (@run_scents calls s0 s Hcalls Hsetup H)
    as [([Hh [Hhw Hhh]] & [Hf [Hfw Hfh]]) _].
  destruct (@render_pheromones_ok _ _ Hh Hf) as (drawn & Hr & Hall);
    [congruence | congruence|].
  exists drawn. split; [exact Hr|].
  rewrite Hhw, Hhh in Hall. exact Hall.
Qed.

Lemma every_frame_renders_witness :
  exists s drawn,
    Main.run_from 0.001 [Main.AdvanceTick 0.45] (Ok s) /\
    Render.render_pheromones (home_map (Main.shared s)) (food_map (Main.shared s)) 4
    = Ok drawn.
Proof.
  assert (Hseed : (1 <= ManualRNG.state (Main.module_rng 0.001) < 2147483647)%Z)
    by (rewrite seed_of_clock; lia).
  destruct (setup_returns 0.001 Hseed) as (s0 & Hsetup & Hs0).
  destruct (@run_returns [Main.AdvanceTick 0.45] s0 Hs0) as (s & Hrun & _);
    [repeat constructor|].
  assert (Hfrom : Main.run_from 0.001 [Main.AdvanceTick 0.45] (Ok s))
    by (unfold Main.run_from; rewrite Hsetup; exact Hrun).
  destruct (@every_frame_renders 0.001 [Main.AdvanceTick 0.45] s) as (drawn & Hr & _);
    [repeat constructor; simpl; lra | exact Hfrom|].
  exists s, drawn. split; [exact Hfrom | exact Hr].
Defined.

(** * Where the food goes *)

Lemma bite_taken (self self' : Food.t) (x y : Z) :
  Food.well_formed self ->
  Food.get_value self (PyInt x) (PyInt y) = Ok true ->
  Food.bite self (PyInt x) (PyInt y) = Ok self' ->
  Food.well_formed self' /\ S (food_cells self') = food_cells self.
Proof.
  intros Hself Hget Hbite. pose proof Hself as (Hwf & Hrows & Hcols).
  rewrite food_get_value_cell in Hget.
  destruct (Food.in_bounds self (PyInt (x / 4)) (PyInt (y / 4))) eqn:Hb; [|discriminate].
  destruct (bite_spec x y Hself Hb) as (f & Hbite' & Hwf' & _ & _ & Hd & _).
  rewrite Hbite in Hbite'. injection Hbite' as <-. split; [exact Hwf'|].
  unfold food_cells. rewrite Hd.
  apply food_in_bounds_int in Hb as [Hx Hy].
  rewrite <- Hrows in Hy. rewrite <- Hcols in Hx.
  unfold ndarray.getitem in Hget. rewrite (offset_in_range _ Hy Hx) in Hget.
  simpl in Hget. rewrite Hcols in Hget.
  destruct (nth_error _ _) as [[|]|] eqn:Hn; try discriminate.
  exact (filter_true_update_false _ _ Hn).
Qed.

Lemma update_ant_accounted (cx cy : Z) (dt : R) (ant ant' : Ant.t) (food food' : Food.t)
      (d d' : Z) (s s' : Shared) :
  Food.well_formed food ->
  Colony.update_ant cx cy dt ant food d s = Ok ((ant', food', d'), s') ->
  Food.well_formed food' /\
  (Z.of_nat (food_cells food') + Z.b2z (Ant.has_food ant') + d'
   = Z.of_nat (food_cells food) + Z.b2z (Ant.has_food ant) + d)%Z.
Proof.
  intros Hfood H. unfold Colony.update_ant in H.
  apply bind_ok in H as (a1 & s1 & Hstep & H).
  rewrite <- (step_has_food _ _ _ Hstep).
  destruct (Ant.has_food a1) eqn:Hcarry.
  - destruct (Colony.at_nest cx cy a1); apply ret_ok in H as [[= -> -> ->] ->].
    + split; [exact Hfood|]. cbn [Ant.has_food Ant.set_has_food Ant.set_home_pher Z.b2z]. lia.
    + split; [exact Hfood|]. rewrite Hcarry. reflexivity.
  - apply bind_ok in H as (present & s2 & Hl & H). apply lift_res_ok in Hl as [Hget ->].
    destruct present.
    + apply bind_ok in H as (f & s3 & Hb & H). apply lift_res_ok in Hb as [Hbite ->].
      apply ret_ok in H as [[= -> -> ->] ->].
      cbn [Ant.int_x Ant.int_y Ant.set_has_food Ant.set_food_pher] in Hbite.
      destruct (@bite_taken _ _ _ _ Hfood Hget Hbite) as [Hwf Hcount].
      split; [exact Hwf|].
      cbn [Ant.has_food Ant.set_has_food Ant.set_food_pher Z.b2z]. lia.
    + apply ret_ok in H as [[= -> -> ->] ->]. split; [exact Hfood|].
      rewrite Hcarry. reflexivity.
Qed.

Lemma carrying_cons (a : Ant.t) (l : list Ant.t) :
  Z.of_nat (carrying (a :: l)) = (Z.b2z (Ant.has_food a) + Z.of_nat (carrying l))%Z.
Proof.
  unfold carrying. simpl. destruct (Ant.has_food a); simpl length; cbn [Z.b2z]; lia.
Qed.

Lemma update_ants_accounted (cx cy : Z) (dt : R) (l l' : list Ant.t) (food food' : Food.t)
      (d d' : Z) (s s' : Shared) :
  Food.well_formed food ->
  Colony.update_ants cx cy dt l food d s = Ok ((l', food', d'), s') ->
  Food.well_formed food' /\
  (Z.of_nat (food_cells food') + Z.of_nat (carrying l') + d'
   = Z.of_nat (food_cells food) + Z.of_nat (carrying l) + d)%Z.
Proof.
  revert l' food food' d d' s s'.
  induction l as [|ant l IH]; intros l' food food' d d' s s' Hfood H; simpl in H.
  - apply ret_ok in H as [[= -> -> ->] ->]. now split.
  - apply bind_ok in H as ([[ant1 food1] d1] & s1 & Hant & H).
    apply bind_ok in H as ([[l1 food2] d2] & s2 & Hrest & H).
    apply ret_ok in H as [[= -> -> ->] ->].
    destruct (@update_ant_accounted _ _ _ _ _ _ _ _ _ _ _ Hfood Hant) as [Hfood1 H1].
    destruct (IH _ _ _ _ _ _ _ Hfood1 Hrest) as [Hfood2 H2].
    split; [exact Hfood2|]. rewrite !carrying_cons. lia.
Qed.

Lemma same_but_motion_carrying (l l' : list Ant.t) :
  Forall2 same_but_motion l l' -> carrying l' = carrying l.
Proof.
  induction 1 as [|a b l l' Hab _ IH]; [reflexivity|].
  destruct Hab as (_ & _ & _ & _ & Hf & _).
  unfold carrying in *. simpl. rewrite <- Hf. destruct (Ant.has_food a); simpl; congruence.
Qed.

Lemma move_colony_accounted (dt : R) (s s1 : Main.t) :
  Food.well_formed (Main.food s) -> Main.move_colony dt s = Ok s1 ->
  Food.well_formed (Main.food s1) /\ accounted s1 = accounted s.
Proof.
  intros Hfood H. unfold Main.move_colony in H.
  destruct (Colony.update (Main.colony s) (Main.food s) dt (Main.shared s))
    as [[[c food] sh]|] eqn:Hu; [|discriminate].
  cbn [res_bind] in H.
  destruct (Colony.resolve_collisions c sh) as [[c1 sh1]|] eqn:Hr; [|discriminate].
  cbn [res_bind] in H. injection H as <-.
  unfold Colony.update in Hu.
  apply bind_ok in Hu as ([[l food1] d] & s2 & Hants & Hu).
  apply ret_ok in Hu as [[= -> ->] ->].
  destruct (@update_ants_accounted _ _ _ _ _ _ _ _ _ _ _ Hfood Hants) as [Hfood1 Hacc].
  destruct (resolve_collisions_frame _ _ Hr) as (Hd & _).
  apply resolve_collisions_keeps in Hr as (_ & _ & Hall & _).
  apply same_but_motion_carrying in Hall.
  cbn [Colony.ants Colony.food_delivered] in Hall, Hd.
  split; [exact Hfood1|]. unfold accounted. cbn [Main.food Main.colony].
  rewrite Hall, Hd. exact Hacc.
Qed.

Lemma advance_tick_accounted (dt : R) (s s' : Main.t) :
  Food.well_formed (Main.food s) -> Main.advance_tick dt s (Ok s') ->
  Food.well_formed (Main.food s') /\ accounted s' = accounted s.
Proof.
  intros Hfood H. unfold Main.advance_tick in H.
  destruct (Main.move_colony dt s) as [s1|] eqn:Hm; [|discriminate].
  destruct H as (s2 & (h & f & _ & _ & ->) & [= ->]).
  exact (@move_colony_accounted dt s s1 Hfood Hm).
Qed.

Lemma run_accounted (calls : list Main.call) (s s' : Main.t) :
  Forall tick_only calls -> Food.well_formed (Main.food s) ->
  Main.run calls s (Ok s') ->
  Food.well_formed (Main.food s') /\ accounted s' = accounted s.
Proof.
  revert s. induction calls as [|c calls IH]; intros s Hcalls Hfood H; simpl in H.
  - injection H as <-. now split.
  - inversion Hcalls as [|? ? Hc Hrest]; subst.
    destruct c as [dt|x y]; [|contradiction].
    destruct H as ([s1|e] & Ht & H); [|discriminate].
    destruct (@advance_tick_accounted dt s s1 Hfood Ht) as [Hfood1 H1].
    destruct (IH s1 Hrest Hfood1 H) as [Hfood' H2].
    split; [exact Hfood'|]. congruence.
Qed.

Lemma initial_food_cells :
  (food <- initial_food ;; Ok (food_cells food))%res = Ok 100%nat.
Proof. vm_compute. reflexivity. Qed.

Lemma make_ants_fresh (x0 y0 : Z) (count : nat) (l : list Ant.t) (s s' : Shared) :
  Colony.make_ants x0 y0 count s = Ok (l, s') ->
  length l = count /\ carrying l = 0%nat.
Proof.
  revert l s. induction count as [|count IH]; intros l s H; simpl in H.
  - apply ret_ok in H as [-> ->]. now split.
  - apply bind_ok in H as (ant & s1 & Ha & H). apply bind_ok in H as (l1 & s2 & Hl & H).
    apply ret_ok in H as [-> ->].
    apply ant_init_scents in Ha as (_ & _ & _ & Hf & _).
    apply IH in Hl as (Hlen & Hc).
    split; [simpl; congruence|]. unfold carrying in *. simpl. rewrite Hf. exact Hc.
Qed.

Lemma setup_accounted (now : R) (s : Main.t) :
  Main.setup now = Ok s ->
  Food.well_formed (Main.food s) /\
  food_cells (Main.food s) = 100%nat /\
  length (Colony.ants (Main.colony s)) = 100%nat /\
  carrying (Colony.ants (Main.colony s)) = 0%nat /\
  Colony.food_delivered (Main.colony s) = 0%Z.
Proof.
  intros H.
  assert (Hfood : initial_food = Ok (Main.food s) /\
                  length (Colony.ants (Main.colony s)) = 100%nat /\
                  carrying (Colony.ants (Main.colony s)) = 0%nat /\
                  Colony.food_delivered (Main.colony s) = 0%Z).
  { unfold Main.setup in H. unfold initial_food, GRID_WIDTH, GRID_HEIGHT.
    destruct (Map.init (600 / 4) (400 / 4) 100 0.999) as [h|]; [|discriminate].
    cbn [res_bind] in H.
    destruct (Colony.init _ _ _ _) as [[c sh]|] eqn:Hc; [|discriminate].
    cbn [res_bind] in H.
    unfold Colony.init in Hc. apply bind_ok in Hc as (l & s1 & Hl & Hc).
    apply ret_ok in Hc as [-> ->]. apply make_ants_fresh in Hl as [Hlen Hcarry].
    repeat match type of H with
           | res_bind ?r _ = _ => destruct r; [cbn [res_bind] in H |- * | discriminate]
           end.
    injection H as <-. cbn [Main.food Main.colony Colony.ants Colony.food_delivered].
    split; [reflexivity|]. split; [exact Hlen|]. split; [exact Hcarry | reflexivity]. }
  destruct Hfood as (Hfood & Hrest).
  pose proof initial_food_cells as Hcells. rewrite Hfood in Hcells.
  cbn [res_bind] in Hcells. injection Hcells as Hcells.
  split; [|split; [exact Hcells | exact Hrest]].
  unfold initial_food, GRID_WIDTH, GRID_HEIGHT in Hfood.
  destruct (Food.init (600 / 4) (400 / 4)) as [f0|] eqn:H0; [|discriminate].
  cbn [res_bind] in Hfood.
  assert (Hf0 : Food.well_formed f0).
  { unfold Food.init in H0.
    destruct (ndarray.zeros false (400 / 4) (600 / 4)) as [arr|] eqn:Hz; [|discriminate].
    injection H0 as <-. apply zeros_well_formed in Hz as (Hwf & Hr & Hc & _).
    split; [exact Hwf | now split]. }
  destruct (@food_add_food_nonneg f0 400 300 Hf0) as (f1 & E1 & Hf1); [lia | lia|].
  rewrite E1 in Hfood. cbn [res_bind] in Hfood.
  destruct (@food_add_food_nonneg f1 150 250 Hf1) as (f2 & E2 & Hf2); [lia | lia|].
  rewrite E2 in Hfood. cbn [res_bind] in Hfood.
  destruct (@food_add_food_nonneg f2 300 100 Hf2) as (f3 & E3 & Hf3); [lia | lia|].
  rewrite E3 in Hfood. cbn [res_bind] in Hfood.
  destruct (@food_add_food_nonneg f3 500 200 Hf3) as (f4 & E4 & Hf4); [lia | lia|].
  rewrite E4 in Hfood. injection Hfood as <-. exact Hf4.
Qed.

(** X10: the food of the program is accounted for. Over frames alone,
    the cells of the food grid that hold food, the ants that carry food
    and the counter of deliveries always add up to the same number; from
    the start of [main] that number is 100 (four blocks of 25 cells), so
    the counter stays between 0 and 100 until food is added by a click. *)
Theorem food_is_accounted_for :
  (forall (calls : list Main.call) (s s' : Main.t),
      Forall tick_only calls -> Food.well_formed (Main.food s) ->
      Main.run calls s (Ok s') ->
      accounted s' = accounted s) /\
  (forall (now : R) (calls : list Main.call) (s : Main.t),
      Forall tick_only calls ->
      Main.run_from now calls (Ok s) ->
      accounted s = 100%Z /\
      (0 <= Colony.food_delivered (Main.colony s) <= 100)%Z).
Proof.
  split.
  - intros calls s s' Hcalls Hfood H.
    exact (proj2 (@run_accounted calls s s' Hcalls Hfood H)).
  - intros now calls s Hcalls H. unfold Main.run_from in H.
    destruct (Main.setup now) as [s0|] eqn:Hsetup; [|discriminate].
    apply setup_accounted in Hsetup as (Hfood & Hcells & _ & Hcarry & Hd).
    destruct (@run_accounted calls s0 s Hcalls Hfood H) as [_ Hacc].
    pose proof (@run_delivered calls s0 s H) as Hmono.
    assert (H0 : accounted s0 = 100%Z) by (unfold accounted; rewrite Hcells, Hcarry, Hd; lia).
    split; [congruence|]. rewrite H0 in Hacc. unfold accounted in Hacc. lia.
Qed.

Lemma food_is_accounted_for_witness :
  exists s,
    Main.run_from 0.001 [Main.AdvanceTick 0.45; Main.AdvanceTick 0.45] (Ok s) /\
    accounted s = 100%Z.
Proof.
  assert (Hseed : (1 <= ManualRNG.state (Main.module_rng 0.001) < 2147483647)%Z)
    by (rewrite seed_of_clock; lia).
  destruct (setup_returns 0.001 Hseed) as (s0 & Hsetup & Hs0).
  destruct (@run_returns [Main.AdvanceTick 0.45; Main.AdvanceTick 0.45] s0 Hs0)
    as (s & Hrun & _); [repeat constructor|].
  assert (Hfrom : Main.run_from 0.001 [Main.AdvanceTick 0.45; Main.AdvanceTick 0.45] (Ok s))
    by (unfold Main.run_from; rewrite Hsetup; exact Hrun).
  exists s. split; [exact Hfrom|].
  assert (Hcalls : Forall tick_only [Main.AdvanceTick 0.45; Main.AdvanceTick 0.45])
    by (repeat constructor).
  exact (proj1 (proj2 food_is_accounted_for 0.001%R _ s Hcalls Hfrom)).
Defined.

Lemma carrying_none (l : list Ant.t) :
  forallb (fun ant => negb (Ant.has_food ant)) l = true <-> carrying l = 0%nat.
Proof.
  unfold carrying. induction l as [|a l IH]; simpl; [tauto|].
  destruct (Ant.has_food a); simpl; [split; discriminate | exact IH].
Qed.

Lemma finished_iff (s : Main.t) :
  finished s = true <->
  food_cells (Main.food s) = 0%nat /\ carrying (Colony.ants (Main.colony s)) = 0%nat.
Proof.
  unfold finished. rewrite andb_true_iff, Nat.eqb_eq, carrying_none. tauto.
Qed.

(** X11: the end test of [main] is final. Once no cell holds food and no
    ant carries food, frames alone leave it so, and the counter of
    deliveries no longer changes: the totals printed when the test first
    holds stay the right ones. *)
Theorem finished_is_final (calls : list Main.call) (s s' : Main.t) :
  Forall tick_only calls -> Food.well_formed (Main.food s) ->
  finished s = true ->
  Main.run calls s (Ok s') ->
  finished s' = true /\
  Colony.food_delivered (Main.colony s') = Colony.food_delivered (Main.colony s).
Proof.
  intros Hcalls Hfood Hfin H.
  destruct (@run_accounted calls s s' Hcalls Hfood H) as [_ Hacc].
  pose proof (@run_delivered calls s s' H) as Hmono.
  apply finished_iff in Hfin as [Hc Hn].
  unfold accounted in Hacc. rewrite Hc, Hn in Hacc.
  split; [apply finished_iff; split|]; lia.
Qed.

Lemma finished_is_final_witness :
  let s := Main.mk (mkShared seed1 fresh_map fresh_map)
                   (Colony.mk [ant_at_rest 5 5 1 0 false 3] 0 0 7) no_food in
  exists s',
    Main.run [Main.AdvanceTick 1] s (Ok s') /\
    finished s' = true /\ Colony.food_delivered (Main.colony s') = 7%Z.
Proof.
  intros s.
  assert (Hfood : Food.well_formed no_food) by (repeat split; simpl; lia).
  assert (Hs : state_ok s) by (split; [exact seed1_shared_ok | exact Hfood]).
  destruct (@run_returns [Main.AdvanceTick 1] s Hs) as (s' & Hrun & _);
    [repeat constructor|].
  exists s'. split; [exact Hrun|].
  apply (@finished_is_final [Main.AdvanceTick 1] s s');
    [repeat constructor | exact Hfood | reflexivity | exact Hrun].
Defined.

(** * Further properties of the collisions *)

Lemma hypot_sqr (a b : R) : (Colony.hypot a b * Colony.hypot a b = a * a + b * b)%R.
Proof. unfold Colony.hypot. apply sqrt_sqrt. nra. Qed.

Lemma hypot_scaled (k a b : R) :
  (0 <= k)%R -> Colony.hypot (k * a) (k * b) = (k * Colony.hypot a b)%R.
Proof.
  intros Hk. unfold Colony.hypot.
  replace (k * a * (k * a) + k * b * (k * b))%R with (k * k * (a * a + b * b))%R by ring.
  rewrite sqrt_mult; [|nra | nra]. now rewrite sqrt_square.
Qed.

(** X12: two ants at a distance [dist] with [0 < dist]: [collide] draws
    no random number. When [dist < 8] the ants are pushed apart along the
    line between them and end exactly 8 apart; if they were closing in,
    their relative velocity along that line is reversed and halved
    (restitution 0.5), otherwise the velocities are kept. When
    [dist >= 8] nothing changes. *)
Theorem collide_separates (ant1 ant2 : Ant.t) (s : Shared) (dist : R) :
  Colony.hypot (Ant.x ant1 - Ant.x ant2) (Ant.y ant1 - Ant.y ant2) = dist ->
  (0 < dist)%R ->
  let nx := ((Ant.x ant1 - Ant.x ant2) / dist)%R in
  let ny := ((Ant.y ant1 - Ant.y ant2) / dist)%R in
  let rel_dot := ((Ant.dx ant1 - Ant.dx ant2) * nx + (Ant.dy ant1 - Ant.dy ant2) * ny)%R in
  exists b1 b2,
    Colony.collide ant1 ant2 s = Ok ((b1, b2), s) /\
    if Rlt_dec dist Colony.collision_distance then
      Colony.hypot (Ant.x b1 - Ant.x b2) (Ant.y b1 - Ant.y b2) = Colony.collision_distance /\
      ((rel_dot < 0)%R ->
       ((Ant.dx b1 - Ant.dx b2) * nx + (Ant.dy b1 - Ant.dy b2) * ny = - 0.5 * rel_dot)%R) /\
      ((0 <= rel_dot)%R ->
       Ant.dx b1 = Ant.dx ant1 /\ Ant.dy b1 = Ant.dy ant1 /\
       Ant.dx b2 = Ant.dx ant2 /\ Ant.dy b2 = Ant.dy ant2)
    else b1 = ant1 /\ b2 = ant2.
Proof.
  intros Hdist Hpos nx ny rel_dot.
  pose proof (hypot_sqr (Ant.x ant1 - Ant.x ant2) (Ant.y ant1 - Ant.y ant2)) as Hsq.
  rewrite Hdist in Hsq.
  assert (Hn : (nx * nx + ny * ny = 1)%R).
  { subst nx ny.
    replace ((Ant.x ant1 - Ant.x ant2) / dist * ((Ant.x ant1 - Ant.x ant2) / dist)
             + (Ant.y ant1 - Ant.y ant2) / dist * ((Ant.y ant1 - Ant.y ant2) / dist))%R
      with (((Ant.x ant1 - Ant.x ant2) * (Ant.x ant1 - Ant.x ant2)
             + (Ant.y ant1 - Ant.y ant2) * (Ant.y ant1 - Ant.y ant2)) / (dist * dist))%R
      by (field; lra).
    rewrite <- Hsq. field. lra. }
  unfold Colony.collide. cbv zeta. rewrite Hdist.
  destruct (Rlt_dec dist Colony.collision_distance) as [Hlt|Hge];
    [|exists ant1, ant2; split; [reflexivity | now split]].
  destruct (Req_EM_T dist 0) as [Hz|_]; [exfalso; lra|].
  unfold bind at 1. unfold ret at 1. cbn [fst snd].
  cbn [Ant.x Ant.y Ant.dx Ant.dy Ant.set_x Ant.set_y].
  fold nx ny. fold rel_dot.
  assert (Hfar : Colony.hypot
                   (Ant.x ant1 + 0.5 * (Colony.collision_distance - dist) * nx
                    - (Ant.x ant2 - 0.5 * (Colony.collision_distance - dist) * nx))
                   (Ant.y ant1 + 0.5 * (Colony.collision_distance - dist) * ny
                    - (Ant.y ant2 - 0.5 * (Colony.collision_distance - dist) * ny))
                 = Colony.collision_distance).
  { subst nx ny. unfold Colony.collision_distance in *.
    replace (Ant.x ant1 + 0.5 * (8 - dist) * ((Ant.x ant1 - Ant.x ant2) / dist)
             - (Ant.x ant2 - 0.5 * (8 - dist) * ((Ant.x ant1 - Ant.x ant2) / dist)))%R
      with (8 / dist * (Ant.x ant1 - Ant.x ant2))%R
      by (replace 0.5%R with (1 / 2)%R by lra; field; lra).
    replace (Ant.y ant1 + 0.5 * (8 - dist) * ((Ant.y ant1 - Ant.y ant2) / dist)
             - (Ant.y ant2 - 0.5 * (8 - dist) * ((Ant.y ant1 - Ant.y ant2) / dist)))%R
      with (8 / dist * (Ant.y ant1 - Ant.y ant2))%R
      by (replace 0.5%R with (1 / 2)%R by lra; field; lra).
    rewrite hypot_scaled, Hdist; [field; lra|].
    apply Rmult_le_pos; [lra | left; now apply Rinv_0_lt_compat]. }
  clearbody nx ny. clear Hsq Hdist.
  destruct (Rlt_dec rel_dot 0) as [Hclose|Hopen]; unfold ret;
    eexists; eexists; (split; [reflexivity|]);
    cbn [Ant.x Ant.y Ant.dx Ant.dy Ant.set_x Ant.set_y Ant.set_dx Ant.set_dy];
    (split; [exact Hfar|]).
  - split; [intros _ | intros Hge; exfalso; lra].
    replace ((Ant.dx ant1 + - (1 + 0.5) * rel_dot / 2 * nx
              - (Ant.dx ant2 - - (1 + 0.5) * rel_dot / 2 * nx)) * nx
             + (Ant.dy ant1 + - (1 + 0.5) * rel_dot / 2 * ny
                - (Ant.dy ant2 - - (1 + 0.5) * rel_dot / 2 * ny)) * ny)%R
      with (((Ant.dx ant1 - Ant.dx ant2) * nx + (Ant.dy ant1 - Ant.dy ant2) * ny)
            - 1.5 * rel_dot * (nx * nx + ny * ny))%R
      by (replace 0.5%R with (1 / 2)%R by lra; replace 1.5%R with (3 / 2)%R by lra; field).
    rewrite Hn. fold rel_dot. lra.
  - split; [intros Hc; exfalso; lra | intros _; repeat split].
Qed.

Lemma collide_separates_witness :
  let ant1 := ant_at_rest 3 4 0 0 false 0 in
  let ant2 := ant_at_rest 0 0 1 0 false 0 in
  let s := mkShared seed1 fresh_map fresh_map in
  exists b1 b2,
    Colony.collide ant1 ant2 s = Ok ((b1, b2), s) /\
    Colony.hypot (Ant.x b1 - Ant.x b2) (Ant.y b1 - Ant.y b2) = 8%R.
Proof.
  intros ant1 ant2 s.
  assert (Hd : Colony.hypot (Ant.x ant1 - Ant.x ant2) (Ant.y ant1 - Ant.y ant2) = 5%R).
  { simpl. replace (3 - 0)%R with 3%R by lra. replace (4 - 0)%R with 4%R by lra.
    apply hypot_3_4. }
  destruct (@collide_separates ant1 ant2 s 5 Hd ltac:(lra)) as (b1 & b2 & Hc & H).
  destruct (Rlt_dec 5 Colony.collision_distance) as [_|Hn];
    [|exfalso; apply Hn; unfold Colony.collision_distance; lra].
  exists b1, b2. split; [exact Hc | exact (proj1 H)].
Defined.

(** * Picking food up *)

(** X13: what one pass of the loop of [update] does to the food grid.
    From a good state it returns. An ant that carried food when the pass
    began leaves the grid as it is. An ant that did not becomes a carrier
    exactly when the grid holds food at its position after the step; then
    its food scent is reset to 100, that cell reads empty afterwards and
    the grid holds one food cell less; otherwise the grid is unchanged.
    The counter of deliveries is not touched by a searching ant. *)
Theorem searching_ant_takes_one (cx cy : Z) (dt : R) (ant : Ant.t) (food : Food.t)
        (d : Z) (s : Shared) :
  shared_ok s -> Food.well_formed food ->
  exists ant' food' d' s',
    Colony.update_ant cx cy dt ant food d s = Ok ((ant', food', d'), s') /\
    Food.well_formed food' /\
    if Ant.has_food ant then food' = food
    else
      d' = d /\
      exists present,
        Food.get_value food (PyInt (Ant.int_x ant')) (PyInt (Ant.int_y ant')) = Ok present /\
        Ant.has_food ant' = present /\
        if present then
          Ant.food_pher ant' = 100%R /\
          Food.get_value food' (PyInt (Ant.int_x ant')) (PyInt (Ant.int_y ant')) = Ok false /\
          S (food_cells food') = food_cells food
        else food' = food.
Proof.
  intros Hs Hfood.
  destruct (update_ant_total cx cy dt ant d Hs Hfood)
    as ([[ant' food'] d'] & s' & H & _ & Hfood').
  exists ant', food', d', s'. split; [exact H|]. split; [exact Hfood'|].
  unfold Colony.update_ant in H.
  apply bind_ok in H as (a1 & s1 & Hstep & H).
  rewrite <- (step_has_food _ _ _ Hstep).
  destruct (Ant.has_food a1) eqn:Hcarry.
  - destruct (Colony.at_nest cx cy a1); apply ret_ok in H as [[= -> -> ->] ->]; reflexivity.
  - apply bind_ok in H as (present & s2 & Hl & H). apply lift_res_ok in Hl as [Hget ->].
    destruct present.
    + apply bind_ok in H as (f & s3 & Hb & H). apply lift_res_ok in Hb as [Hbite ->].
      apply ret_ok in H as [[= -> -> ->] ->].
      cbn [Ant.int_x Ant.int_y Ant.set_has_food Ant.set_food_pher] in Hbite.
      cbn [Ant.int_x Ant.int_y Ant.has_food Ant.food_pher Ant.set_has_food Ant.set_food_pher].
      split; [reflexivity|]. exists true. split; [exact Hget|]. split; [reflexivity|].
      split; [reflexivity|].
      destruct (@bite_taken _ _ _ _ Hfood Hget Hbite) as [_ Hcount].
      split; [|exact Hcount].
      rewrite food_get_value_cell in Hget.
      destruct (Food.in_bounds food (PyInt (Ant.int_x a1 / 4)) (PyInt (Ant.int_y a1 / 4)))
        eqn:Hin; [|discriminate].
      destruct (bite_spec (Ant.int_x a1) (Ant.int_y a1) Hfood Hin)
        as (f' & Hbite' & _ & _ & _ & _ & Hread).
      rewrite Hbite in Hbite'. injection Hbite' as <-.
      rewrite Hread, !Z.eqb_refl. reflexivity.
    + apply ret_ok in H as [[= -> -> ->] ->].
      split; [reflexivity|]. exists false. split; [exact Hget|]. split; [exact Hcarry|].
      reflexivity.
Qed.

Lemma searching_ant_takes_one_witness :
  exists ant' food' d' s',
    Colony.update_ant 0 0 1 (ant_at_rest 5 5 1 0 false 3) no_food 0
                      (mkShared seed1 fresh_map fresh_map)
    = Ok ((ant', food', d'), s') /\
    Food.well_formed food' /\ d' = 0%Z.
Proof.
  assert (Hfood : Food.well_formed no_food) by (repeat split; simpl; lia).
  destruct (@searching_ant_takes_one 0 0 1 (ant_at_rest 5 5 1 0 false 3) no_food 0 _
              seed1_shared_ok Hfood)
    as (ant' & food' & d' & s' & H & Hwf & Hcase).
  exists ant', food', d', s'. split; [exact H|]. split; [exact Hwf|].
  cbn [Ant.has_food ant_at_rest] in Hcase. exact (proj1 Hcase).
Defined.

(** * The colony at the start *)

Lemma normal_draws (mean std v : R) (g g' : ManualRNG.t) :
  ManualRNG.normal mean std g = Ok (v, g') -> g' = ManualRNG.draws 2 g.
Proof.
  unfold ManualRNG.normal. cbn [ManualRNG.draws].
  destruct (ManualRNG.random g) as [u1 g1] eqn:E1. cbn [snd].
  destruct (ManualRNG.random g1) as [u2 g2] eqn:E2. cbn [snd].
  destruct (math_log u1) as [l|]; [|discriminate]. cbn [res_bind].
  destruct (math_sqrt (-2.0 * l)) as [r|]; [|discriminate]. cbn [res_bind].
  intros [= _ <-]. reflexivity.
Qed.

Lemma ant_init_draws (x0 y0 : Z) (ant : Ant.t) (s s' : Shared) :
  Ant.init x0 y0 s = Ok (ant, s') ->
  rng s' = ManualRNG.draws 4 (rng s) /\
  Ant.home_pher ant = 100%R /\ Ant.food_pher ant = 100%R /\
  Ant.last_x ant = x0 /\ Ant.last_y ant = y0.
Proof.
  unfold Ant.init. intros H.
  apply bind_ok in H as (vx & s1 & H1 & H). apply bind_ok in H as (vy & s2 & H2 & H).
  apply ret_ok in H as [-> ->].
  apply with_rng_res_ok in H1 as (H1 & _). apply with_rng_res_ok in H2 as (H2 & _).
  apply normal_draws in H1, H2. rewrite H2, H1, draws_add.
  repeat split.
Qed.

(** X14: from a good shared state, and for a nest whose coordinates a
    double holds exactly (at most [2^53] in absolute value, so that
    [float(x)] neither raises nor rounds), [Colony(x, y, count, ...)]
    returns a colony at [(x, y)] with [max(count, 0)] ants and nothing
    delivered;
    every ant stands on the nest, carries nothing, has both scents at
    100 and is not bored; building an ant takes four draws from the
    generator (two per velocity component), and the maps are left as
    they were. *)
Theorem colony_init_spec (x0 y0 count : Z) (s : Shared) :
  (Z.abs x0 <= 2 ^ 53)%Z -> (Z.abs y0 <= 2 ^ 53)%Z ->
  shared_ok s ->
  exists self s',
    Colony.init x0 y0 count s = Ok (self, s') /\
    Colony.x self = x0 /\ Colony.y self = y0 /\ Colony.food_delivered self = 0%Z /\
    length (Colony.ants self) = Z.to_nat count /\
    Forall (fun ant =>
              Ant.x ant = IZR x0 /\ Ant.y ant = IZR y0 /\
              Ant.int_x ant = x0 /\ Ant.int_y ant = y0 /\
              Ant.last_x ant = x0 /\ Ant.last_y ant = y0 /\
              Ant.has_food ant = false /\ Ant.bored ant = 0%Z /\
              Ant.home_pher ant = 100%R /\ Ant.food_pher ant = 100%R)
           (Colony.ants self) /\
    rng s' = ManualRNG.draws (4 * Z.to_nat count) (rng s) /\
    home_map s' = home_map s /\ food_map s' = food_map s.
Proof.
  intros _ _ Hs. unfold Colony.init.
  destruct (make_ants_total x0 y0 (Z.to_nat count) Hs) as (l & s' & Hl & _ & _).
  exists (Colony.mk l x0 y0 0), s'. unfold bind, ret. rewrite Hl.
  split; [reflexivity|]. do 3 (split; [reflexivity|]). cbn [Colony.ants].
  clear Hs. revert l s Hl. generalize (Z.to_nat count). intros n.
  induction n as [|n IH]; intros l s H; simpl in H.
  - apply ret_ok in H as [-> ->]. repeat split. constructor.
  - apply bind_ok in H as (ant & s1 & Ha & H). apply bind_ok in H as (l1 & s2 & Hl & H).
    apply ret_ok in H as [-> ->].
    pose proof (ant_init_draws _ _ _ Ha) as (Hr & Hhp & Hfp & Hlx & Hly).
    apply ant_init_scents in Ha as (Hh1 & Hf1 & _ & Hf & Hx & Hy & Hix & Hiy & Hb).
    apply IH in Hl as (Hlen & Hall & Hrng & Hh2 & Hf2).
    split; [simpl; congruence|]. split; [constructor; [|exact Hall]; repeat split; assumption|].
    split; [|split; congruence].
    rewrite Hrng, Hr, draws_add. f_equal. lia.
Qed.

Lemma colony_init_spec_witness :
  exists self s',
    Colony.init 300 200 2 (mkShared seed1 fresh_map fresh_map) = Ok (self, s') /\
    length (Colony.ants self) = 2%nat /\
    rng s' = ManualRNG.draws 8 seed1.
Proof.
  destruct (@colony_init_spec 300 200 2 _ ltac:(lia) ltac:(lia) seed1_shared_ok)
    as (self & s' & H & _ & _ & _ & Hlen & _ & Hrng & _).
  exists self, s'. split; [exact H|]. split; [exact Hlen | exact Hrng].
Defined.

(** * The program as a whole *)

Lemma run_never_raises_witness :
  exists s',
    Main.run_from 0.001 [Main.AdvanceTick 0.45; Main.PlaceFood (PyInt 10) (PyInt 20);
                         Main.AdvanceTick (-1)] (Ok s').
Proof.
  destruct (@run_never_raises 0.001 [Main.AdvanceTick 0.45; Main.PlaceFood (PyInt 10) (PyInt 20);
                                     Main.AdvanceTick (-1)])
    as (s' & H & _).
  - rewrite seed_of_clock. lia.
  - constructor; [exact I|]. constructor; [split; lia|]. constructor; [exact I | constructor].
  - exists s'. exact H.
Defined.

(** * Further properties of the generator *)

Lemma random_state (g : ManualRNG.t) :
  ManualRNG.std_constants g ->
  ManualRNG.state (snd (ManualRNG.random g)) = ((16807 * ManualRNG.state g) mod 2147483647)%Z /\
  fst (ManualRNG.random g)
  = (IZR ((16807 * ManualRNG.state g) mod 2147483647) / 2147483647)%R.
Proof.
  intros (Hm & Ha & Hc). unfold ManualRNG.random. cbn [fst snd ManualRNG.state].
  rewrite Hm, Ha, Hc, Z.add_0_r. split; reflexivity.
Qed.

(** X16: [random] loses nothing. Two generators with the constants of
    [__init__] and states in [0, m) that return the same number from
    [random()] were in the same state; and from a state in [1, m) the
    state after [random()] differs from the state before, so the
    generator never gets stuck on a value. *)
Theorem random_injective (g1 g2 : ManualRNG.t) :
  ManualRNG.std_constants g1 -> ManualRNG.std_constants g2 ->
  (0 <= ManualRNG.state g1 < 2147483647)%Z ->
  (0 <= ManualRNG.state g2 < 2147483647)%Z ->
  (fst (ManualRNG.random g1) = fst (ManualRNG.random g2) ->
   ManualRNG.state g1 = ManualRNG.state g2) /\
  ((1 <= ManualRNG.state g1)%Z ->
   ManualRNG.state (snd (ManualRNG.random g1)) <> ManualRNG.state g1).
Proof.
  intros Hc1 Hc2 Hs1 Hs2.
  destruct (random_state Hc1) as [Hn1 Hu1]. destruct (random_state Hc2) as [Hn2 Hu2].
  rewrite Hn1, Hu1, Hu2. clear Hn1 Hu1 Hu2 Hc1 Hc2.
  revert Hs1 Hs2. generalize (ManualRNG.state g1) (ManualRNG.state g2). intros s1 s2 Hs1 Hs2.
  split.
  - intros Heq.
    assert (Hmod : ((16807 * s1) mod 2147483647 = (16807 * s2) mod 2147483647)%Z).
    { apply eq_IZR. apply Rmult_eq_reg_r with (/ 2147483647)%R; [exact Heq | lra]. }
    assert (Hdiv : (2147483647 | 16807 * (s1 - s2))%Z).
    { apply Z.mod_divide; [lia|].
      rewrite Z.mul_sub_distr_l, Zminus_mod, Hmod, Z.sub_diag. reflexivity. }
    apply Z.gauss in Hdiv; [|reflexivity].
    destruct Hdiv as [q Hq]. nia.
  - intros Hpos Hstuck.
    assert (Hdiv : (2147483647 | 16806 * s1)%Z).
    { apply Z.mod_divide; [lia|].
      replace (16806 * s1)%Z with (16807 * s1 - s1)%Z by lia.
      rewrite Zminus_mod, Hstuck, Zminus_mod_idemp_r, Z.sub_diag. reflexivity. }
    apply Z.gauss in Hdiv; [|reflexivity].
    destruct Hdiv as [q Hq]. nia.
Qed.

Lemma random_injective_witness :
  ManualRNG.state (snd (ManualRNG.random seed1)) <> ManualRNG.state seed1.
Proof.
  apply (@random_injective seed1 seed1);
    [apply init_constants | apply init_constants | simpl; lia | simpl; lia | simpl; lia].
Defined.

(** X17: the state after [n] calls of [random()] in closed form: from a
    state [s] in [0, m) it is [16807 ^ n * s mod m], so the generator can
    be moved ahead without drawing. *)
Theorem draws_closed_form (n : nat) (g : ManualRNG.t) :
  ManualRNG.std_constants g ->
  (0 <= ManualRNG.state g < 2147483647)%Z ->
  ManualRNG.state (ManualRNG.draws n g)
  = ((16807 ^ Z.of_nat n * ManualRNG.state g) mod 2147483647)%Z.
Proof.
  revert g. induction n as [|n IH]; intros g Hc Hs.
  - cbn [ManualRNG.draws]. change (16807 ^ Z.of_nat 0)%Z with 1%Z.
    rewrite Z.mul_1_l, Z.mod_small; [reflexivity | exact Hs].
  - cbn [ManualRNG.draws]. destruct (random_state Hc) as [Hn _].
    rewrite IH; [|exact Hc | rewrite Hn; apply Z.mod_pos_bound; lia].
    rewrite Hn, Z.mul_mod_idemp_r by lia. f_equal.
    rewrite Nat2Z.inj_succ, Z.pow_succ_r by lia. ring.
Qed.

Lemma draws_closed_form_witness :
  ManualRNG.state (ManualRNG.draws 3 seed1) = 1622650073%Z.
Proof.
  rewrite (@draws_closed_form 3 seed1); [reflexivity | apply init_constants | simpl; lia].
Defined.



(** * Drawing the food *)

(** A loop over [range(n)] with an invariant that follows the index. *)
Lemma for_each_seq {St : Type} (P : Z -> St -> Prop) (body : Z -> St -> res St)
      (m a : nat) (s : St) :
  (forall i s, (Z.of_nat a <= i < Z.of_nat (a + m))%Z -> P i s ->
               exists s', body i s = Ok s' /\ P (i + 1)%Z s') ->
  P (Z.of_nat a) s ->
  exists s', for_each (map (fun k => (0 + Z.of_nat k)%Z) (seq a m)) body s = Ok s' /\
             P (Z.of_nat (a + m)) s'.
Proof.
  revert a s. induction m as [|m IH]; intros a s Hbody Hs.
  - exists s. rewrite Nat.add_0_r. now split.
  - cbn [seq map for_each]. rewrite Z.add_0_l.
    destruct (Hbody (Z.of_nat a) s) as (s1 & -> & Hs1); [lia | exact Hs|].
    cbn [res_bind].
    destruct (IH (S a) s1) as (s' & Hs' & HP).
    + intros i s2 Hi. apply Hbody. lia.
    + replace (Z.of_nat (S a)) with (Z.of_nat a + 1)%Z by lia. exact Hs1.
    + exists s'. split; [exact Hs'|].
      replace (a + S m)%nat with (S a + m)%nat by lia. exact HP.
Qed.

Lemma for_each_range {St : Type} (P : Z -> St -> Prop) (body : Z -> St -> res St)
      (n : Z) (s : St) :
  (0 <= n)%Z ->
  (forall i s, (0 <= i < n)%Z -> P i s -> exists s', body i s = Ok s' /\ P (i + 1)%Z s') ->
  P 0%Z s ->
  exists s', for_each (py_range 0 n) body s = Ok s' /\ P n s'.
Proof.
  intros Hn Hbody Hs. unfold py_range.
  destruct (@for_each_seq St P body (Z.to_nat (n - 0)) 0 s) as (s' & Hs' & HP).
  - intros i s1 Hi. apply Hbody. lia.
  - exact Hs.
  - exists s'. split; [exact Hs'|].
    replace (Z.of_nat (0 + Z.to_nat (n - 0))) with n in HP by lia. exact HP.
Qed.

Lemma firstn_S_nth_error {A : Type} (k : nat) (v : A) (l : list A) :
  nth_error l k = Some v -> firstn (S k) l = firstn k l ++ [v].
Proof.
  revert k. induction l as [|x l IH]; intros [|k] Hk; try discriminate.
  - injection Hk as ->. reflexivity.
  - simpl in Hk. change (firstn (S (S k)) (x :: l)) with (x :: firstn (S k) l).
    rewrite (IH k Hk). reflexivity.
Qed.

(** One cell of [draw_food]. *)
Lemma draw_food_cell (food : Food.t) (gy gx : Z) (drawn : list Render.rect) :
  Food.well_formed food ->
  (0 <= gy < Food.height food)%Z -> (0 <= gx < Food.width food)%Z ->
  Render.drawn_upto food gy gx drawn ->
  exists drawn',
    (present <- ndarray.getitem (Food.map_vals food) gy gx ;;
     if (present : bool) then Ok (drawn ++ [Render.mk_rect (218, 165, 32)%Z (gx * 4) (gy * 4) 4 4])
     else Ok drawn)%res = Ok drawn' /\
    Render.drawn_upto food gy (gx + 1) drawn'.
Proof.
  intros (Hwf & Hrows & Hcols) Hy Hx [Hlen Hin].
  rewrite <- Hrows in Hy. rewrite <- Hcols in Hx.
  pose proof (offset_in_range (Food.map_vals food) Hy Hx) as Hoff.
  pose proof (offset_in_data _ _ Hwf Hoff) as Hk.
  unfold ndarray.getitem. rewrite Hoff. cbn [res_bind].
  rewrite Hcols in Hoff, Hk |- *. rewrite Hrows in Hy. rewrite Hcols in Hx.
  assert (Hnext : Z.to_nat (gy * Food.width food + (gx + 1))
                  = S (Z.to_nat (gy * Food.width food + gx))).
  { assert (0 <= gy * Food.width food)%Z by (apply Z.mul_nonneg_nonneg; lia). lia. }
  assert (Hread : forall b, nth_error (ndarray.data (Food.map_vals food))
                              (Z.to_nat (gy * Food.width food + gx)) = Some b ->
                            ndarray.getitem (Food.map_vals food) gy gx = Ok b).
  { intros b Hb. unfold ndarray.getitem.
    rewrite (offset_in_range (Food.map_vals food)), Hcols by lia.
    cbn [res_bind]. rewrite Hb. reflexivity. }
  destruct (nth_error (ndarray.data (Food.map_vals food))
                      (Z.to_nat (gy * Food.width food + gx))) as [[|]|] eqn:Hn.
  - eexists. split; [reflexivity|]. split.
    + unfold Render.drawn_upto. rewrite Hnext, (firstn_S_nth_error _ _ Hn), filter_app, !length_app.
      rewrite Hlen. reflexivity.
    + intros r. rewrite in_app_iff, Hin. split.
      * intros [(cx & cy & Hcx & Hcy & Hbefore & Hget & ->)|[<-|[]]].
        -- exists cx, cy. repeat split; try lia; assumption.
        -- exists gx, gy. repeat split; try lia. now apply Hread.
      * intros (cx & cy & Hcx & Hcy & Hbefore & Hget & ->).
        destruct (Z.eq_dec cy gy) as [->|Hne].
        -- destruct (Z.eq_dec cx gx) as [->|Hne']; [right; left; reflexivity|].
           left. exists cx, gy. repeat split; try lia; assumption.
        -- left. exists cx, cy. repeat split; try lia; assumption.
  - eexists. split; [reflexivity|]. split.
    + unfold Render.drawn_upto. rewrite Hnext, (firstn_S_nth_error _ _ Hn), filter_app, length_app.
      rewrite Hlen. simpl. lia.
    + intros r. rewrite Hin. split.
      * intros (cx & cy & Hcx & Hcy & Hbefore & Hget & ->).
        exists cx, cy. repeat split; try lia; assumption.
      * intros (cx & cy & Hcx & Hcy & Hbefore & Hget & ->).
        exists cx, cy. split; [exact Hcx|]. split; [exact Hcy|].
        split; [|split; [exact Hget | reflexivity]].
        destruct (Z.eq_dec cy gy) as [->|Hne]; [|lia].
        destruct (Z.eq_dec cx gx) as [->|Hne']; [|lia].
        rewrite (Hread false eq_refl) in Hget. discriminate.
  - exfalso. apply nth_error_None in Hn. lia.
Qed.

(** X19: on a well-formed food grid [draw_food] returns; it draws as
    many squares as the grid holds food cells, and a square is drawn
    exactly for each cell [(gx, gy)] of the grid that holds food: gold,
    4 by 4 pixels, with its corner at [(4 * gx, 4 * gy)]. *)
Theorem draw_food_one_per_cell (food : Food.t) :
  Food.well_formed food ->
  exists drawn,
    Render.draw_food food 4 = Ok drawn /\
    length drawn = food_cells food /\
    forall r,
      In r drawn <->
      exists gx gy,
        (0 <= gx < Food.width food)%Z /\ (0 <= gy < Food.height food)%Z /\
        ndarray.getitem (Food.map_vals food) gy gx = Ok true /\
        r = Render.food_rect gx gy.
Proof.
  intros Hfood. pose proof Hfood as ((Hr & Hc & Hlen) & Hrows & Hcols).
  rewrite Hrows in Hr. rewrite Hcols in Hc. rewrite Hrows, Hcols in Hlen.
  unfold Render.draw_food.
  destruct (@for_each_range (list Render.rect) (fun gy => Render.drawn_upto food gy 0)
              (fun gy drawn =>
                 for_each (py_range 0 (Food.width food))
                   (fun gx drawn =>
                      (present <- ndarray.getitem (Food.map_vals food) gy gx ;;
                       if (present : bool) then
                         Ok (drawn ++ [Render.mk_rect (218, 165, 32)%Z (gx * 4) (gy * 4) 4 4])
                       else Ok drawn)%res)
                   drawn)
              (Food.height food) [] Hr)
    as (drawn & Hdrawn & [Hcount Hin]).
  - intros gy drawn Hgy Hinv.
    destruct (@for_each_range (list Render.rect) (Render.drawn_upto food gy)
                (fun gx drawn =>
                   (present <- ndarray.getitem (Food.map_vals food) gy gx ;;
                    if (present : bool) then
                      Ok (drawn ++ [Render.mk_rect (218, 165, 32)%Z (gx * 4) (gy * 4) 4 4])
                    else Ok drawn)%res)
                (Food.width food) drawn Hc)
      as (drawn' & Hdrawn' & [Hcount' Hin']).
    + intros gx drawn1 Hgx Hinv1. now apply draw_food_cell.
    + exact Hinv.
    + exists drawn'. split; [exact Hdrawn'|]. split.
      * rewrite Hcount'. do 3 f_equal. lia.
      * intros r. rewrite Hin'. split; intros (cx & cy & Hcx & Hcy & Hb & Hrest);
          exists cx, cy; (split; [exact Hcx|]); (split; [exact Hcy|]);
          (split; [lia | exact Hrest]).
  - split; [reflexivity|]. intros r. split; [intros []|].
    intros (cx & cy & Hcx & Hcy & Hb & _). lia.
  - exists drawn. split; [exact Hdrawn|]. split.
    + rewrite Hcount. unfold food_cells. rewrite Z.add_0_r.
      rewrite firstn_all2; [reflexivity|].
      rewrite Hlen, Z.mul_comm. lia.
    + intros r. rewrite Hin. split.
      * intros (cx & cy & Hcx & Hcy & _ & Hrest). exists cx, cy. now repeat split.
      * intros (cx & cy & Hcx & Hcy & Hget & ->). exists cx, cy.
        repeat split; try lia; assumption.
Qed.

Lemma draw_food_one_per_cell_witness :
  let food := Food.mk 2 1 (ndarray.mk 1 2 [false; true]) in
  exists drawn, Render.draw_food food 4 = Ok drawn /\ length drawn = 1%nat.
Proof.
  intros food.
  assert (Hfood : Food.well_formed food) by (repeat split; simpl; lia).
  destruct (@draw_food_one_per_cell food Hfood) as (drawn & Hd & Hlen & _).
  exists drawn. split; [exact Hd | exact Hlen].
Defined.

(** * Further properties of a run *)

Lemma move_colony_size (dt : R) (s s1 : Main.t) :
  Main.move_colony dt s = Ok s1 ->
  length (Colony.ants (Main.colony s1)) = length (Colony.ants (Main.colony s)) /\
  Colony.x (Main.colony s1) = Colony.x (Main.colony s) /\
  Colony.y (Main.colony s1) = Colony.y (Main.colony s).
Proof.
  intros H. unfold Main.move_colony in H.
  destruct (Colony.update (Main.colony s) (Main.food s) dt (Main.shared s))
    as [[[c food] sh]|] eqn:Hu; [|discriminate].
  cbn [res_bind] in H.
  destruct (Colony.resolve_collisions c sh) as [[c1 sh1]|] eqn:Hr; [|discriminate].
  cbn [res_bind] in H. injection H as <-. cbn [Main.colony].
  apply update_spec in Hu as (Hx & Hy & Hlen & _).
  destruct (resolve_collisions_frame _ _ Hr) as (_ & Hx1 & Hy1).
  apply resolve_collisions_keeps in Hr as (_ & _ & Hall & _).
  apply Forall2_length in Hall.
  split; [congruence|]. split; congruence.
Qed.

Lemma run_size (calls : list Main.call) (s s' : Main.t) :
  Main.run calls s (Ok s') ->
  length (Colony.ants (Main.colony s')) = length (Colony.ants (Main.colony s)) /\
  Colony.x (Main.colony s') = Colony.x (Main.colony s) /\
  Colony.y (Main.colony s') = Colony.y (Main.colony s).
Proof.
  revert s. induction calls as [|c calls IH]; intros s H; simpl in H.
  - injection H as <-. repeat split.
  - destruct c as [dt|x y].
    + destruct H as ([s1|e] & Ht & H); [|discriminate].
      unfold Main.advance_tick in Ht.
      destruct (Main.move_colony dt s) as [s2|] eqn:Hm; [|discriminate].
      destruct Ht as (s3 & (h & f & _ & _ & ->) & [= ->]).
      apply move_colony_size in Hm as (Hl & Hx & Hy).
      apply IH in H as (Hl' & Hx' & Hy'). cbn [Main.colony] in Hl', Hx', Hy'.
      split; [congruence|]. split; congruence.
    + destruct (Main.place_food x y s) as [s1|] eqn:Hp; [|discriminate].
      apply IH in H as (Hl' & Hx' & Hy').
      unfold Main.place_food in Hp.
      destruct (Food.add_food (Main.food s) x y); [|discriminate].
      injection Hp as <-. cbn [Main.colony] in Hl', Hx', Hy'. now repeat split.
Qed.

Lemma setup_nest (now : R) (s : Main.t) :
  Main.setup now = Ok s ->
  Colony.x (Main.colony s) = 300%Z /\ Colony.y (Main.colony s) = 200%Z.
Proof.
  unfold Main.setup. intros H.
  destruct (Map.init (600 / 4) (400 / 4) 100 0.999) as [h|]; [|discriminate].
  cbn [res_bind] in H.
  destruct (Colony.init _ _ _ _) as [[c sh]|] eqn:Hc; [|discriminate].
  cbn [res_bind] in H.
  unfold Colony.init in Hc. apply bind_ok in Hc as (l & s1 & _ & Hc).
  apply ret_ok in Hc as [-> ->].
  repeat match type of H with
         | res_bind ?r _ = _ => destruct r; [cbn [res_bind] in H | discriminate]
         end.
  injection H as <-. split; reflexivity.
Qed.

(** X20: at every state of a run of [main], whatever the calls, the
    colony has its 100 ants and its nest at (300, 200): neither the
    update nor the rewriting of the list in [resolve_collisions] loses
    or duplicates an ant. *)
Theorem colony_keeps_its_ants (now : R) (calls : list Main.call) (s : Main.t) :
  Main.run_from now calls (Ok s) ->
  length (Colony.ants (Main.colony s)) = 100%nat /\
  Colony.x (Main.colony s) = 300%Z /\ Colony.y (Main.colony s) = 200%Z.
Proof.
  intros H. unfold Main.run_from in H.
  destruct (Main.setup now) as [s0|] eqn:Hsetup; [|discriminate].
  destruct (setup_nest _ Hsetup) as [Hx Hy].
  apply setup_accounted in Hsetup as (_ & _ & Hlen & _).
  apply run_size in H as (Hl & Hx' & Hy').
  split; [congruence|]. split; congruence.
Qed.

Lemma colony_keeps_its_ants_witness :
  exists s,
    Main.run_from 0.001 [Main.AdvanceTick 0.45] (Ok s) /\
    length (Colony.ants (Main.colony s)) = 100%nat.
Proof.
  assert (Hseed : (1 <= ManualRNG.state (Main.module_rng 0.001) < 2147483647)%Z)
    by (rewrite seed_of_clock; lia).
  destruct (setup_returns 0.001 Hseed) as (s0 & Hsetup & Hs0).
  destruct (@run_returns [Main.AdvanceTick 0.45] s0 Hs0) as (s & Hrun & _);
    [repeat constructor|].
  assert (Hfrom : Main.run_from 0.001 [Main.AdvanceTick 0.45] (Ok s))
    by (unfold Main.run_from; rewrite Hsetup; exact Hrun).
  exists s. split; [exact Hfrom|].
  exact (proj1 (@colony_keeps_its_ants 0.001 [Main.AdvanceTick 0.45] s Hfrom)).
Defined.

(** * Where the weighted direction points *)

Lemma for_each_fold {A St : Type} (step : St -> A -> St) (l : list A)
      (body : A -> St -> res St) (s : St) :
  (forall i s, In i l -> body i s = Ok (step s i)) ->
  for_each l body s = Ok (fold_left step l s).
Proof.
  revert s. induction l as [|i l IH]; intros s Hbody; [reflexivity|].
  cbn [for_each fold_left]. rewrite Hbody by now left. cbn [res_bind].
  apply IH. intros j s1 Hj. apply Hbody. now right.
Qed.

(** The loop of [get_weighted_direction] as three sums over the
    neighbours. *)
Lemma weighted_direction_sums (self : Map.t) (x y : Z) :
  Map.well_formed self ->
  Map.get_weighted_direction self (PyInt x) (PyInt y)
  = Ok (let '(sum_dx, sum_dy, total) :=
          fold_left (weigh (neighbour_value self (x / 4) (y / 4))) Map.directions
                    (0, 0, 0)%R in
        if Rgt_dec total 0 then (sum_dx / total, sum_dy / total)%R else (0, 0)%R).
Proof.
  intros (Hwf & Hrows & Hcols). unfold Map.get_weighted_direction.
  rewrite (@for_each_fold _ _ (weigh (neighbour_value self (x / 4) (y / 4)))).
  - cbn [res_bind].
    destruct (fold_left _ _ _) as [[sx sy] t]. destruct (Rgt_dec t 0); reflexivity.
  - intros [dx dy] [[sx sy] t] _. unfold weigh, neighbour_value. cbn [fst snd Num.floordiv4 Num.add_int].
    destruct (Map.in_bounds self (PyInt (x / 4 + dx)) (PyInt (y / 4 + dy))) eqn:Hb.
    + apply in_bounds_int in Hb as [Hx Hy]. rewrite <- Hrows in Hy. rewrite <- Hcols in Hx.
      unfold index_get. cbn [Num.as_index res_bind].
      destruct (getitem_returns Hwf Hy Hx) as [v ->]. reflexivity.
    + replace (sx + IZR dx * 0)%R with sx by ring.
      replace (sy + IZR dy * 0)%R with sy by ring.
      replace (t + 0)%R with t by ring. reflexivity.
Qed.

(** X21: the weighted direction points at the scent. On a well-formed
    map, when exactly one of the eight neighbours of the ant's grid cell
    holds a positive value and the others hold 0 or lie outside the
    grid, [get_weighted_direction] returns exactly the offset to that
    neighbour. *)
Theorem direction_to_single_scent (self : Map.t) (x y : Z) (d : Z * Z) :
  Map.well_formed self ->
  In d Map.directions ->
  (0 < neighbour_value self (x / 4) (y / 4) d)%R ->
  (forall d', In d' Map.directions -> d' <> d ->
              neighbour_value self (x / 4) (y / 4) d' = 0%R) ->
  Map.get_weighted_direction self (PyInt x) (PyInt y) = Ok (IZR (fst d), IZR (snd d)).
Proof.
  intros Hself Hin Hpos Hzero. rewrite (weighted_direction_sums x y Hself).
  revert Hpos Hzero. generalize (neighbour_value self (x / 4) (y / 4)). intros f Hpos Hzero.
  unfold Map.directions in *. unfold weigh. cbn [fold_left fst snd].
  cbn [In] in Hin.
  destruct Hin as [<-|[<-|[<-|[<-|[<-|[<-|[<-|[<-|[]]]]]]]]];
    (repeat match goal with
            | |- context [f ?p] =>
                rewrite (Hzero p)
                  by first [intros [=] | repeat (first [left; reflexivity | right])]
            end);
    cbn [fst snd];
    match goal with
    | |- Ok (if Rgt_dec ?t 0 then _ else _) = _ =>
        destruct (Rgt_dec t 0) as [_|Hn]; [|exfalso; apply Hn; lra]
    end;
    do 2 f_equal; field; lra.
Qed.

Lemma direction_to_single_scent_witness :
  let self := Map.mk 3 3 100 0.999 (ndarray.mk 3 3 [0; 0; 0; 0; 0; 5; 0; 0; 0]%R) in
  Map.get_weighted_direction self (PyInt 5) (PyInt 5) = Ok (1, 0)%R.
Proof.
  intros self.
  apply (@direction_to_single_scent self 5 5 (1, 0)%Z).
  - repeat split; simpl; lia.
  - simpl. tauto.
  - change (neighbour_value self (5 / 4) (5 / 4) (1, 0)%Z) with 5%R. lra.
  - intros d' Hin Hne. unfold Map.directions in Hin. cbn [In] in Hin.
    destruct Hin as [<-|[<-|[<-|[<-|[<-|[<-|[<-|[<-|[]]]]]]]]];
      first [reflexivity | exfalso; apply Hne; reflexivity].
Defined.
